(** * dRehmFlight configurator: the protocol core

    A shallow embedding of the protocol layer of the configurator and the
    properties its specification states about it.

    Definitions:
    - [Js]       the JavaScript integer operators the code relies on;
    - [Msp]      msp.js: the MSP V1 request encoder, the incremental
                 response decoder ([MspParser]) and the payload accessors;
    - [MspInv]   the invariants and relations the decoder proofs use;
    - [Text]     the string methods used by the capture logic;
    - [App]      cli.js, [Serial.write] of serial.js and the capture logic
                 of tabs/terminal.js, as state passing over one [World].

    Further definitions: [Util] and [Sensors] (util.js, the status bar and
    the sample buffers), [Ports] (the port list of serial.js), [Shell]
    (polling, tab switching, the terminal input line and the settings form)
    and the invariants their proofs use.

    Properties: [TextProofs], [MspProofs], [AppProofs], then the stream,
    status bar, tab, input line, form, load, deadline, routing and port list
    properties.

    Conventions.  JavaScript numbers that the code only uses as integers are
    [Z]; the 32-bit bitwise operators are written out with their wrap-around
    ([Js.toInt32]).  A [Uint8Array] is the list of its elements, each in
    [0, 256).  Text is a [string] holding the UTF-8 bytes of the JavaScript
    string, which is exact for the ASCII commands and prompt of the
    protocol.  An [async] function is run to its end: what it does up to and
    after each [await] happens in order with nothing scheduled in between. *)

From Stdlib Require Import ZArith Lia.
From stdpp Require Import base list strings pretty gmap.

Local Open Scope Z_scope.

(** ** JavaScript integer operators *)

Module Js.

(** ToInt32: the signed 32-bit value every bitwise operator works on. *)
Definition toInt32 (x : Z) : Z := (x + 2 ^ 31) mod 2 ^ 32 - 2 ^ 31.

(** ToUint8: what a store into a [Uint8Array] keeps. *)
Definition toUint8 (x : Z) : Z := x mod 256.

(** A value read from an array: [None] is [undefined], which the bitwise
    operators coerce to 0. *)
Definition int32_of (v : option Z) : Z :=
  match v with
  | Some x => toInt32 x
  | None => 0
  end.

(** [a ^ b], [a & b], [a | b], [a << n]. *)
Definition bxor (a b : Z) : Z := Z.lxor (toInt32 a) (toInt32 b).
Definition band (a b : Z) : Z := Z.land (toInt32 a) (toInt32 b).
Definition bor (a b : Z) : Z := Z.lor (toInt32 a) (toInt32 b).
Definition shl (a n : Z) : Z := toInt32 (Z.shiftl (toInt32 a) (n mod 32)).

End Js.

(** A byte, as an element of a [Uint8Array]. *)
Definition is_byte (b : Z) : Prop := 0 <= b < 256.

(** ** msp.js *)

Module Msp.

(** Parser states ([S_IDLE] = 0 ... [S_CHECKSUM] = 6). *)
Inductive State :=
  | S_IDLE | S_HEADER_M | S_DIR | S_LEN | S_CMD | S_PAYLOAD | S_CHECKSUM.

(** The two kinds of array the [payload] field holds: the plain array [[]]
    of the constructor (a store past its end extends it, leaving holes) and
    the [Uint8Array] allocated in [S_LEN] (fixed length, a store past its end
    is ignored, the stored value is wrapped to a byte). *)
Inductive Buffer :=
  | PlainArray (elems : list (option Z))
  | Uint8Array (elems : list Z).

Definition bufferGet (b : Buffer) (i : nat) : option Z :=
  match b with
  | PlainArray elems => mjoin (elems !! i)
  | Uint8Array elems => elems !! i
  end.

Definition bufferSet (b : Buffer) (i : nat) (c : Z) : Buffer :=
  match b with
  | PlainArray elems =>
      PlainArray
        (if decide (i < length elems)%nat then <[i := Some c]> elems
         else elems ++ replicate (i - length elems) None ++ [Some c])
  | Uint8Array elems => Uint8Array (<[i := Js.toUint8 c]> elems)
  end.

(** [{ cmd, payload }], the argument of [onMessage].  The object carries
    the parser's own [payload] array, not a copy; a message is modelled by
    the contents of that array when it is handed over, which no later byte
    changes: the parser only stores into [payload] in [S_PAYLOAD], and it
    gets there only through [S_LEN], which allocates a new array. *)
Record Message := mkMessage { msg_cmd : Z; msg_payload : Buffer }.

(** The handler app.js registers; [onMessage] is [null] or this function. *)
Inductive Handler := handleMessage.

Record MspParser := mkParser {
  state : State;
  len : Z;
  cmd : Z;
  checksum : Z;
  payload : Buffer;
  payloadIdx : nat;
  onMessage : option Handler
}.

(** [new MspParser()] *)
Definition constructor : MspParser :=
  {| state := S_IDLE; len := 0; cmd := 0; checksum := 0;
     payload := PlainArray []; payloadIdx := 0; onMessage := None |}.

(** [parser.onMessage = h] *)
Definition setOnMessage (h : option Handler) (p : MspParser) : MspParser :=
  {| state := state p; len := len p; cmd := cmd p; checksum := checksum p;
     payload := payload p; payloadIdx := payloadIdx p; onMessage := h |}.

Definition setState (s : State) (p : MspParser) : MspParser :=
  {| state := s; len := len p; cmd := cmd p; checksum := checksum p;
     payload := payload p; payloadIdx := payloadIdx p;
     onMessage := onMessage p |}.

(** [reset()] *)
Definition reset (p : MspParser) : MspParser := setState S_IDLE p.

(** [_processByte(c)]: the parser after the byte, and the messages handed to
    [onMessage] while processing it (none or one).  [c] is an element of the
    received [Uint8Array]. *)
Definition processByte (p : MspParser) (c : Z) : MspParser * list Message :=
  match state p with
  | S_IDLE =>
      (if c =? 0x24 then setState S_HEADER_M p else p, [])
  | S_HEADER_M =>
      (setState (if c =? 0x4D then S_DIR else S_IDLE) p, [])
  | S_DIR =>
      (if c =? 0x3E then setState S_LEN p else setState S_IDLE p, [])
  | S_LEN =>
      ({| state := S_CMD; len := c; cmd := cmd p; checksum := c;
          payload := Uint8Array (replicate (Z.to_nat c) 0);
          payloadIdx := 0; onMessage := onMessage p |}, [])
  | S_CMD =>
      ({| state := if 0 <? len p then S_PAYLOAD else S_CHECKSUM;
          len := len p; cmd := c; checksum := Js.bxor (checksum p) c;
          payload := payload p; payloadIdx := payloadIdx p;
          onMessage := onMessage p |}, [])
  | S_PAYLOAD =>
      ({| state :=
            if Z.of_nat (S (payloadIdx p)) >=? len p then S_CHECKSUM
            else S_PAYLOAD;
          len := len p; cmd := cmd p; checksum := Js.bxor (checksum p) c;
          payload := bufferSet (payload p) (payloadIdx p) c;
          payloadIdx := S (payloadIdx p);
          onMessage := onMessage p |}, [])
  | S_CHECKSUM =>
      (setState S_IDLE p,
       if (Js.band (checksum p) 0xFF =? c) && bool_decide (is_Some (onMessage p))
       then [ {| msg_cmd := cmd p; msg_payload := payload p |} ]
       else [])
  end.

(** [parse(data)]: every byte of the chunk in order. *)
Fixpoint parse (p : MspParser) (data : list Z) : MspParser * list Message :=
  match data with
  | [] => (p, [])
  | c :: rest =>
      let '(p1, out1) := processByte p c in
      let '(p2, out2) := parse p1 rest in
      (p2, out1 ++ out2)
  end.

(** The receive callback called once per delivered chunk. *)
Fixpoint feed (p : MspParser) (chunks : list (list Z))
  : MspParser * list Message :=
  match chunks with
  | [] => (p, [])
  | data :: rest =>
      let '(p1, out1) := parse p data in
      let '(p2, out2) := feed p1 rest in
      (p2, out1 ++ out2)
  end.

(** [mspEncode(cmd)] *)
Definition mspEncode (cmd : Z) : Buffer :=
  let checksum := Js.band (Js.bxor 0 cmd) 0xFF in
  Uint8Array (map Js.toUint8 [0x24; 0x4D; 0x3C; 0x00; cmd; checksum]).

(** Payload data view helpers. *)
Definition readU8 (payload : Buffer) (offset : nat) : option Z :=
  bufferGet payload offset.

Definition readU16 (payload : Buffer) (offset : nat) : Z :=
  Js.bor (Js.int32_of (bufferGet payload offset))
         (Js.shl (Js.int32_of (bufferGet payload (offset + 1))) 8).

Definition readS16 (payload : Buffer) (offset : nat) : Z :=
  let val := readU16 payload offset in
  if 32767 <? val then val - 65536 else val.

Definition readU32 (payload : Buffer) (offset : nat) : Z :=
  Js.bor
    (Js.bor
       (Js.bor (Js.int32_of (bufferGet payload offset))
               (Js.shl (Js.int32_of (bufferGet payload (offset + 1))) 8))
       (Js.shl (Js.int32_of (bufferGet payload (offset + 2))) 16))
    (Js.shl (Js.int32_of (bufferGet payload (offset + 3))) 24).

(** The response frame of the wire format, for command [c] and payload
    [P]: ['$' 'M' '>' len cmd payload... checksum], the checksum being the
    XOR of the length, the command and every payload byte.  [frameWith] is
    the same frame with any byte in the checksum position. *)
Definition xorAll (l : list Z) : Z := foldr Z.lxor 0 l.

Definition frameChecksum (c : Z) (P : list Z) : Z :=
  xorAll (Z.of_nat (length P) :: c :: P).

Definition frameWith (c : Z) (P : list Z) (ck : Z) : list Z :=
  [0x24; 0x4D; 0x3E; Z.of_nat (length P); c] ++ P ++ [ck].

Definition responseFrame (c : Z) (P : list Z) : list Z :=
  frameWith c P (frameChecksum c P).

End Msp.

(** ** Relations on parser states used by the proofs *)

Module MspInv.

Import Msp.

(** Two parsers that behave alike from here on: same state and handler, and
    the same scratch fields wherever the state still reads them. *)
Definition sameFrom (p q : MspParser) : Prop :=
  state p = state q /\ onMessage p = onMessage q /\
  match state p with
  | S_IDLE | S_HEADER_M | S_DIR | S_LEN => True
  | S_CMD =>
      len p = len q /\ checksum p = checksum q /\
      payload p = payload q /\ payloadIdx p = payloadIdx q
  | S_PAYLOAD | S_CHECKSUM =>
      len p = len q /\ cmd p = cmd q /\ checksum p = checksum q /\
      payload p = payload q /\ payloadIdx p = payloadIdx q
  end.

(** The payload buffer matches the declared length whenever the parser is
    about to use it. *)
Definition bufferOk (p : MspParser) : Prop :=
  match state p with
  | S_CMD =>
      exists elems, payload p = Uint8Array elems /\
        Z.of_nat (length elems) = len p /\ payloadIdx p = 0%nat
  | S_PAYLOAD =>
      exists elems, payload p = Uint8Array elems /\
        Z.of_nat (length elems) = len p /\ Z.of_nat (payloadIdx p) < len p
  | _ => True
  end.

(** The declared length in use is a byte. *)
Definition lenOk (p : MspParser) : Prop :=
  match state p with
  | S_CMD | S_PAYLOAD => len p <= 255
  | _ => True
  end.

(** An upper bound on the bytes a parser can still consume before it is in
    [S_IDLE] again: the rest of a frame of the declared length. *)
Definition bytesToIdle (p : MspParser) : nat :=
  match state p with
  | S_IDLE => 0
  | S_HEADER_M => 260
  | S_DIR => 259
  | S_LEN => 258
  | S_CMD => Z.to_nat (len p) + 2
  | S_PAYLOAD => Z.to_nat (len p) - payloadIdx p + 1
  | S_CHECKSUM => 1
  end.

End MspInv.

(** ** Text helpers: the JavaScript string methods the capture logic uses *)

Module Text.

Local Open Scope string_scope.
Local Open Scope nat_scope.

Definition strOfBytes (l : list nat) : string :=
  String.string_of_list_ascii (map Ascii.ascii_of_nat l).

Definition CR : string := strOfBytes [13].
Definition LF : string := strOfBytes [10].
Definition CRLF : string := CR +:+ LF.

(** [s.substring(0, n)] and [s.substring(n)] *)
Definition substringTo (n : nat) (s : string) : string := String.substring 0 n s.
Definition substringFrom (n : nat) (s : string) : string :=
  String.substring n (String.length s - n) s.

(** [s.indexOf(needle)]: [None] is -1. *)
Fixpoint indexOfFrom (i : nat) (needle s : string) : option nat :=
  if String.prefix needle s then Some i
  else match s with
       | EmptyString => None
       | String _ s' => indexOfFrom (S i) needle s'
       end.

Definition indexOf (needle s : string) : option nat := indexOfFrom 0 needle s.

(** [s.lastIndexOf(needle)] *)
Fixpoint lastIndexOfFrom (i : nat) (needle s : string) : option nat :=
  match s with
  | EmptyString => if String.prefix needle s then Some i else None
  | String _ s' =>
      match lastIndexOfFrom (S i) needle s' with
      | Some j => Some j
      | None => if String.prefix needle s then Some i else None
      end
  end.

Definition lastIndexOf (needle s : string) : option nat :=
  lastIndexOfFrom 0 needle s.

(** [s.includes(needle)] *)
Definition includes (needle s : string) : bool :=
  bool_decide (is_Some (indexOf needle s)).

(** [s.split('\n')] *)
Fixpoint splitLines (s : string) : list string :=
  match s with
  | EmptyString => [EmptyString]
  | String a s' =>
      if Ascii.eqb a (Ascii.ascii_of_nat 10) then EmptyString :: splitLines s'
      else match splitLines s' with
           | l :: ls => String a l :: ls
           | [] => [String a EmptyString]
           end
  end.

(** The white space and line terminators [trim()] removes, in UTF-8. *)
Definition whiteSpace : list string :=
  map strOfBytes
    ([[9]; [10]; [11]; [12]; [13]; [32]; [194; 160]; [225; 154; 128]]
     ++ map (fun b => [226; 128; b]) (seq 128 11)
     ++ [[226; 128; 168]; [226; 128; 169]; [226; 128; 175];
         [226; 129; 159]; [227; 128; 128]; [239; 187; 191]]).

Fixpoint stripOne (ws : list string) (s : string) : option string :=
  match ws with
  | [] => None
  | w :: ws' =>
      if String.prefix w s then Some (substringFrom (String.length w) s)
      else stripOne ws' s
  end.

Fixpoint stripAll (fuel : nat) (ws : list string) (s : string) : string :=
  match fuel with
  | O => s
  | S fuel' =>
      match stripOne ws s with
      | Some s' => stripAll fuel' ws s'
      | None => s
      end
  end.

Definition reverse (s : string) : string :=
  String.string_of_list_ascii (rev (String.list_ascii_of_string s)).

Definition trimStart (s : string) : string :=
  stripAll (String.length s) whiteSpace s.

Definition trimEnd (s : string) : string :=
  reverse (stripAll (String.length s) (map reverse whiteSpace) (reverse s)).

(** [s.trim()] *)
Definition trim (s : string) : string := trimEnd (trimStart s).

(** [needle] occurs in [s] at index [i]. *)
Definition occursAt (needle s : string) (i : nat) : Prop :=
  i <= String.length s /\ String.prefix needle (substringFrom i s) = true.

(** [new TextEncoder().encode(s)] *)
Definition encode (s : string) : list Z :=
  map (fun a => Z.of_nat (Ascii.nat_of_ascii a)) (String.list_ascii_of_string s).

End Text.

(** ** cli.js, serial.js and the capture logic of tabs/terminal.js *)

Module App.

Import Text.

(** The platform's [TextDecoder] used in streaming mode: its hidden state
    and [decode(data, { stream: true })]. *)
Class TextDecoder := {
  decoder_state : Type;
  decoder_new : decoder_state;
  decode_stream : decoder_state -> list Z -> decoder_state * string
}.

(** Where [serial.onReceive] sends a received chunk: the closures
    [(data) => parser.parse(data)] and [(data) => cliParse(data)]. *)
Inductive Route := RouteMsp | RouteCli.

(** The function terminal.js passes to [setCliReceiver]. *)
Inductive Receiver := OnCliText.

(** What the timers armed by terminal.js run when they fire. *)
Inductive Task :=
  | CaptureDeadline   (* () => { if (capturing) finishCapture(); } *)
  | DeferredLoad.     (* () => loadSettings(false, true) *)

Record Timer := mkTimer { timer_id : nat; timer_delay : Z; timer_task : Task }.

(** The calls the core makes on its collaborators, logged in order. *)
Inductive Event :=
  | EvSerialWrite (data : list Z)   (* serial.write(data) *)
  | EvSleep (ms : Z)                (* await sleep(ms) *)
  | EvTextReceive (text : string).  (* onTextReceive(text) *)

(** [Serial]: [writer] is [null] or the port's writer, with the chunks it
    has been given. *)
Record Serial := mkSerial {
  writer : option (list (list Z));
  onReceive : option Route
}.

(** The settings form: the rendered groups, each a title and its rows
    (parameter name, input value). *)
Definition Form := list (string * list (string * string)).

(** The module variables of terminal.js that the capture logic touches;
    [termOutput] and [settingsForm] are [None] while the element is
    [null]. *)
Record Terminal := mkTerminal {
  termOutput : option string;
  settingsForm : option Form;
  captureBuffer : string;
  capturing : bool;
  captureTimer : option nat;
  originalValues : list (string * string);
  autoLoadPending : bool;
  preserveOriginalsOnLoad : bool;
  silentLoad : bool
}.

(** The event loop's pending timers and the log of collaborator calls. *)
Record Runtime := mkRuntime {
  timers : list Timer;
  nextTimerId : nat;
  trace : list Event
}.

Definition EMDASH : string := strOfBytes [226; 128; 148]%nat.

(** [PARAM_GROUPS] *)
Definition PARAM_GROUPS : list (string * list string) :=
  [ ("PID " +:+ EMDASH +:+ " Angle Mode",
     ["Kp_roll_angle"; "Ki_roll_angle"; "Kd_roll_angle";
      "Kp_pitch_angle"; "Ki_pitch_angle"; "Kd_pitch_angle"]);
    ("PID " +:+ EMDASH +:+ " Yaw", ["Kp_yaw"; "Ki_yaw"; "Kd_yaw"]);
    ("PID " +:+ EMDASH +:+ " Rate Mode",
     ["Kp_roll_rate"; "Ki_roll_rate"; "Kd_roll_rate";
      "Kp_pitch_rate"; "Ki_pitch_rate"; "Kd_pitch_rate"]);
    ("Loop Damping", ["B_loop_roll"; "B_loop_pitch"]);
    ("Controller Limits", ["i_limit"; "maxRoll"; "maxPitch"; "maxYaw"]);
    ("Filter Coefficients", ["B_madgwick"; "B_accel"; "B_gyro"; "B_mag"]) ]%string.

(** A [Map] from names to values, in insertion order. *)
Definition mapGet (k : string) (m : list (string * string)) : option string :=
  snd <$> List.find (fun kv => String.eqb (fst kv) k) m.

Fixpoint mapSet (k v : string) (m : list (string * string))
  : list (string * string) :=
  match m with
  | [] => [(k, v)]
  | (k', v') :: m' =>
      if String.eqb k' k then (k, v) :: m' else (k', v') :: mapSet k v m'
  end.

(** The prompt marker. *)
Definition PROMPT : string := "# ".

(** [finishCapture], lines "Strip everything after last prompt" and
    "Strip command echo if present": the cleaned text. *)
Definition stripPrompt (content : string) : string :=
  match lastIndexOf PROMPT content with
  | Some promptIdx => substringTo promptIdx content
  | None => content
  end.

Definition stripEcho (content : string) : string :=
  match indexOf LF content with
  | Some echoEnd =>
      if includes "set" (substringTo echoEnd content)
      then substringFrom (echoEnd + 1) content
      else content
  | None => content
  end.

Definition cleanCapture (buffer : string) : string :=
  stripEcho (stripPrompt buffer).

(** [finishCapture], "Parse name = value lines into a Map". *)
Definition parseLine (params : list (string * string)) (line : string)
  : list (string * string) :=
  let trimmed := trim line in
  if String.eqb trimmed "" then params
  else match indexOf "=" trimmed with
       | None => params
       | Some eqIdx =>
           let name := trim (substringTo eqIdx trimmed) in
           let value := trim (substringFrom (eqIdx + 1) trimmed) in
           if negb (String.eqb name "") && negb (String.eqb value "")
           then mapSet name value params
           else params
       end.

Definition parseParams (content : string) : list (string * string) :=
  fold_left parseLine (splitLines content) [].

(** [renderForm], the groups it builds: the defined groups that have a
    parameter, then every parameter not placed, under "Other". *)
Definition renderGroups (params : list (string * string)) : Form :=
  let groups :=
    omap (fun g : string * list string =>
            let rows := omap (fun name => pair name <$> mapGet name params) (snd g) in
            if bool_decide (rows = []) then None else Some (fst g, rows))
         PARAM_GROUPS in
  let placed := concat (map (fun g => map fst (snd g)) groups) in
  let other := List.filter (fun kv => bool_decide (fst kv ∉ placed)) params in
  groups ++ (if bool_decide (other = []) then [] else [("Other"%string, other)]).

Section WithDecoder.

Context {textDecoder : TextDecoder}.

(** The module variables of cli.js. *)
Record Cli := mkCli {
  inCliMode : bool;
  onTextReceive : option Receiver;
  decoder : decoder_state
}.

(** Everything the protocol layer reads and writes: the one [Serial] and
    [MspParser] of app.js, the module state of cli.js and terminal.js, the
    messages handed to [handleMessage], and the runtime. *)
Record World := mkWorld {
  cli : Cli;
  serial : Serial;
  term : Terminal;
  parser : Msp.MspParser;
  dispatched : list Msp.Message;
  rt : Runtime
}.

(** The module variables as the modules initialise them, a [new Serial()],
    and the world before a connection is made. *)
Definition initialCli : Cli :=
  {| inCliMode := false; onTextReceive := None; decoder := decoder_new |}.

Definition initialTerminal : Terminal :=
  {| termOutput := None; settingsForm := None; captureBuffer := "";
     capturing := false; captureTimer := None; originalValues := [];
     autoLoadPending := false; preserveOriginalsOnLoad := false;
     silentLoad := false |}.

Definition newSerial : Serial := {| writer := None; onReceive := None |}.

Definition initialWorld : World :=
  {| cli := initialCli; serial := newSerial; term := initialTerminal;
     parser := Msp.constructor; dispatched := [];
     rt := {| timers := []; nextTimerId := 1; trace := [] |} |}.

Definition withCli (c : Cli) (w : World) : World :=
  mkWorld c (serial w) (term w) (parser w) (dispatched w) (rt w).
Definition withSerial (s : Serial) (w : World) : World :=
  mkWorld (cli w) s (term w) (parser w) (dispatched w) (rt w).
Definition withTerm (t : Terminal) (w : World) : World :=
  mkWorld (cli w) (serial w) t (parser w) (dispatched w) (rt w).
Definition withRt (r : Runtime) (w : World) : World :=
  mkWorld (cli w) (serial w) (term w) (parser w) (dispatched w) r.

Definition logEvent (e : Event) (w : World) : World :=
  withRt (mkRuntime (timers (rt w)) (nextTimerId (rt w)) (trace (rt w) ++ [e])) w.

(** util.js [sleep(ms)], awaited. *)
Definition sleep (ms : Z) (w : World) : World := logEvent (EvSleep ms) w.

(** [setTimeout(task, ms)]: the new handle and the world with the timer
    pending. *)
Definition setTimeout (task : Task) (ms : Z) (w : World) : nat * World :=
  let id := nextTimerId (rt w) in
  (id, withRt (mkRuntime (timers (rt w) ++ [mkTimer id ms task]) (S id)
                         (trace (rt w))) w).

(** [clearTimeout(id)] *)
Definition clearTimeout (id : nat) (w : World) : World :=
  withRt (mkRuntime
            (List.filter (fun t => negb (Nat.eqb (timer_id t) id)) (timers (rt w)))
            (nextTimerId (rt w)) (trace (rt w))) w.

(** serial.js [Serial.write(data)], awaited. *)
Definition serialWrite (data : list Z) (w : World) : World :=
  let w := logEvent (EvSerialWrite data) w in
  match writer (serial w) with
  | None => w
  | Some written =>
      withSerial (mkSerial (Some (written ++ [data])) (onReceive (serial w))) w
  end.

(** app.js [switchToMsp] and [switchToCli] *)
Definition setOnReceive (r : Route) (w : World) : World :=
  withSerial (mkSerial (writer (serial w)) (Some r)) w.
Definition switchToMsp : World -> World := setOnReceive RouteMsp.
Definition switchToCli : World -> World := setOnReceive RouteCli.

(** cli.js [sendCommand(serial, cmd)] *)
Definition sendCommand (cmd : string) (w : World) : World :=
  serialWrite (encode (cmd +:+ CRLF)) w.

(** terminal.js [appendOutput(text)] *)
Definition appendOutput (text : string) (w : World) : World :=
  let t := term w in
  match termOutput t with
  | None => w
  | Some shown =>
      withTerm (mkTerminal (Some (shown +:+ text)) (settingsForm t)
                  (captureBuffer t) (capturing t) (captureTimer t)
                  (originalValues t) (autoLoadPending t)
                  (preserveOriginalsOnLoad t) (silentLoad t)) w
  end.

(** terminal.js [renderForm(params)]: the originals kept for dirty
    tracking and the rebuilt form. *)
Definition renderForm (params : list (string * string)) (w : World) : World :=
  let t := term w in
  match settingsForm t with
  | None => w
  | Some _ =>
      withTerm (mkTerminal (termOutput t) (Some (renderGroups params))
                  (captureBuffer t) (capturing t) (captureTimer t)
                  (if preserveOriginalsOnLoad t then originalValues t
                   else fold_left (fun m kv => mapSet (fst kv) (snd kv) m) params [])
                  (autoLoadPending t) false (silentLoad t)) w
  end.

(** terminal.js [finishCapture()] *)
Definition finishCapture (w : World) : World :=
  let t := term w in
  let w := withTerm (mkTerminal (termOutput t) (settingsForm t)
                       (captureBuffer t) false (captureTimer t)
                       (originalValues t) (autoLoadPending t)
                       (preserveOriginalsOnLoad t) (silentLoad t)) w in
  let w :=
    match captureTimer t with
    | Some id =>
        let w := clearTimeout id w in
        let t := term w in
        withTerm (mkTerminal (termOutput t) (settingsForm t)
                    (captureBuffer t) (capturing t) None
                    (originalValues t) (autoLoadPending t)
                    (preserveOriginalsOnLoad t) (silentLoad t)) w
    | None => w
    end in
  let content := cleanCapture (captureBuffer (term w)) in
  let params := parseParams content in
  if (0 <? length params)%nat then
    let w := renderForm params w in
    if negb (silentLoad (term w))
    then appendOutput ("[Loaded " +:+ pretty (length params)
                         +:+ " parameters]" +:+ CRLF) w
    else w
  else
    appendOutput ("[No parameters received " +:+ EMDASH
                    +:+ " click Load to retry]" +:+ CRLF) w.

(** terminal.js [loadSettings(preserveOriginals, silent)], run to its end
    with nothing else scheduled at its [await]. *)
Definition loadSettings (preserveOriginals silent : bool) (w : World) : World :=
  let t := term w in
  if capturing t then w else
  let w := withTerm (mkTerminal (termOutput t) (settingsForm t)
                       "" true (captureTimer t)
                       (originalValues t) (autoLoadPending t)
                       preserveOriginals silent) w in
  let w := if negb silent then appendOutput ("> set" +:+ CRLF) w else w in
  let w := sendCommand "set" w in
  let '(id, w) := setTimeout CaptureDeadline 3000 w in
  let t := term w in
  withTerm (mkTerminal (termOutput t) (settingsForm t)
              (captureBuffer t) (capturing t) (Some id)
              (originalValues t) (autoLoadPending t)
              (preserveOriginalsOnLoad t) (silentLoad t)) w.

(** terminal.js [onCliText(text)] *)
Definition onCliText (text : string) (w : World) : World :=
  let t := term w in
  if capturing t then
    let w := withTerm (mkTerminal (termOutput t) (settingsForm t)
                         (captureBuffer t +:+ text) (capturing t)
                         (captureTimer t) (originalValues t)
                         (autoLoadPending t) (preserveOriginalsOnLoad t)
                         (silentLoad t)) w in
    if includes PROMPT (captureBuffer (term w)) then finishCapture w else w
  else
    let w := appendOutput text w in
    let t := term w in
    if autoLoadPending t && includes PROMPT text then
      let w := withTerm (mkTerminal (termOutput t) (settingsForm t)
                           (captureBuffer t) (capturing t) (captureTimer t)
                           (originalValues t) false
                           (preserveOriginalsOnLoad t) (silentLoad t)) w in
      snd (setTimeout DeferredLoad 0 w)
    else w.

(** terminal.js [onTerminalActivate()] and [onTerminalDeactivate()] *)
Definition onTerminalActivate (w : World) : World :=
  let t := term w in
  withTerm (mkTerminal (termOutput t) (settingsForm t) (captureBuffer t)
              (capturing t) (captureTimer t) (originalValues t) true
              (preserveOriginalsOnLoad t) (silentLoad t)) w.

Definition onTerminalDeactivate (w : World) : World :=
  let t := term w in
  let w := withTerm (mkTerminal (termOutput t) (settingsForm t) ""
                       false (captureTimer t) (originalValues t) false
                       (preserveOriginalsOnLoad t) (silentLoad t)) w in
  match captureTimer t with
  | Some id =>
      let w := clearTimeout id w in
      let t := term w in
      withTerm (mkTerminal (termOutput t) (settingsForm t) (captureBuffer t)
                  (capturing t) None (originalValues t) (autoLoadPending t)
                  (preserveOriginalsOnLoad t) (silentLoad t)) w
  | None => w
  end.



(** Calling the registered receiver. *)
Definition callReceiver (r : Receiver) (text : string) (w : World) : World :=
  match r with
  | OnCliText => onCliText text (logEvent (EvTextReceive text) w)
  end.

(** cli.js [cliParse(data)] *)
Definition cliParse (data : list Z) (w : World) : World :=
  if negb (inCliMode (cli w)) then w else
  let '(d, text) := decode_stream (decoder (cli w)) data in
  let w := withCli (mkCli (inCliMode (cli w)) (onTextReceive (cli w)) d) w in
  match onTextReceive (cli w) with
  | Some r => callReceiver r text w
  | None => w
  end.

(** cli.js [setCliReceiver(cb)] *)
Definition setCliReceiver (cb : option Receiver) (w : World) : World :=
  withCli (mkCli (inCliMode (cli w)) cb (decoder (cli w))) w.

Definition setInCliMode (b : bool) (w : World) : World :=
  withCli (mkCli b (onTextReceive (cli w)) (decoder (cli w))) w.

(** cli.js [enterCli(serial, switchReceiver)], run to its end. *)
Definition enterCli (switchReceiver : World -> World) (w : World) : World :=
  if inCliMode (cli w) then w else
  let w := setInCliMode true w in
  let w := switchReceiver w in
  let w := serialWrite [0x23] w in
  sleep 100 w.

(** cli.js [exitCli(serial, switchReceiver)], run to its end. *)
Definition exitCli (switchReceiver : World -> World) (w : World) : World :=
  if negb (inCliMode (cli w)) then w else
  let w := sendCommand "exit" w in
  let w := sleep 200 w in
  let w := setInCliMode false w in
  switchReceiver w.

(** cli.js [cliReset()] *)
Definition cliReset (w : World) : World := setInCliMode false w.

(** serial.js read loop, one chunk: [if (value && this.onReceive)
    this.onReceive(value)]. *)
Definition receive (data : list Z) (w : World) : World :=
  match onReceive (serial w) with
  | None => w
  | Some RouteCli => cliParse data w
  | Some RouteMsp =>
      let '(p, out) := Msp.parse (parser w) data in
      mkWorld (cli w) (serial w) (term w) p (dispatched w ++ out) (rt w)
  end.

(** The writes in a log of collaborator calls, in order. *)
Definition writesOf (tr : list Event) : list (list Z) :=
  omap (fun e => match e with EvSerialWrite d => Some d | _ => None end) tr.

(** The texts handed to the receiver in a log, in order. *)
Definition textsOf (tr : list Event) : list string :=
  omap (fun e => match e with EvTextReceive t => Some t | _ => None end) tr.

End WithDecoder.

(** A callback that only rebinds [serial.onReceive], as [switchToMsp] and
    [switchToCli] do. *)
Definition RoutingSwitch `{TextDecoder} (sw : World -> World) : Prop :=
  exists r, forall w, sw w = setOnReceive r w.

(** A decoder for 7-bit text, one character per byte and nothing held
    back; bytes above 127 become '?'. *)
Definition asciiDecoder : TextDecoder :=
  {| decoder_state := unit;
     decoder_new := tt;
     decode_stream := fun _ data =>
       (tt, String.string_of_list_ascii
              (map (fun b => if b <? 128 then Ascii.ascii_of_nat (Z.to_nat b)
                             else Ascii.ascii_of_nat 63) data)) |}.


(** A world to run the properties on: connected, terminal initialised,
    receiver registered, in telemetry mode. *)
Definition sampleWorld : @World asciiDecoder :=
  @mkWorld asciiDecoder
          (@mkCli asciiDecoder false (Some OnCliText) tt)
          (mkSerial (Some []) (Some RouteMsp))
          (mkTerminal (Some ""%string) (Some []) ""%string false None []
                      false false false)
          Msp.constructor [] (mkRuntime [] 1 []).

End App.

(** ** What the decoder has seen (for the stream properties) *)

Module MspTrack.

Import Msp.

(** The three bytes that open a response frame: [$M>]. *)
Definition sync : list Z := [0x24; 0x4D; 0x3E].

(** What the scratch fields say about the bytes read so far, [seen]: in
    every state past [S_IDLE] the parser is inside a frame whose bytes so far
    are the end of [seen]. *)
Definition tracks (p : MspParser) (seen : list Z) : Prop :=
  match state p with
  | S_IDLE => True
  | S_HEADER_M => exists pre, seen = pre ++ [0x24]
  | S_DIR => exists pre, seen = pre ++ [0x24; 0x4D]
  | S_LEN => exists pre, seen = pre ++ sync
  | S_CMD =>
      exists pre, seen = pre ++ sync ++ [len p] /\
        is_byte (len p) /\ checksum p = len p /\
        payload p = Uint8Array (replicate (Z.to_nat (len p)) 0) /\
        payloadIdx p = 0%nat
  | S_PAYLOAD =>
      exists pre stored, seen = pre ++ sync ++ [len p; cmd p] ++ stored /\
        is_byte (len p) /\ is_byte (cmd p) /\ Forall is_byte stored /\
        (length stored < Z.to_nat (len p))%nat /\
        checksum p = Z.lxor (Z.lxor (len p) (cmd p)) (xorAll stored) /\
        payload p =
          Uint8Array (stored ++ replicate (Z.to_nat (len p) - length stored) 0) /\
        payloadIdx p = length stored
  | S_CHECKSUM =>
      exists pre P, seen = pre ++ sync ++ [len p; cmd p] ++ P /\
        is_byte (cmd p) /\ Forall is_byte P /\
        len p = Z.of_nat (length P) /\ (length P <= 255)%nat /\
        checksum p = frameChecksum (cmd p) P /\
        payload p = Uint8Array P
  end.

(** A message is the frame that ends the bytes read so far. *)
Definition endsWithFrame (seen : list Z) (m : Message) : Prop :=
  exists pre P,
    seen = pre ++ responseFrame (msg_cmd m) P /\
    msg_payload m = Uint8Array P /\
    is_byte (msg_cmd m) /\ Forall is_byte P /\ (length P <= 255)%nat.

(** A stream made of response frames only, and the messages they carry. *)
Definition framesOf (fs : list (Z * list Z)) : list Z :=
  concat (map (fun f => responseFrame (fst f) (snd f)) fs).

Definition messagesOf (fs : list (Z * list Z)) : list Message :=
  map (fun f => mkMessage (fst f) (Uint8Array (snd f))) fs.

Definition validFrame (f : Z * list Z) : Prop :=
  is_byte (fst f) /\ Forall is_byte (snd f) /\ (length (snd f) <= 255)%nat.

(** [data instanceof Uint8Array ? data : new Uint8Array(data)], as
    [Serial.write] takes its argument: the bytes handed to the port. *)
Definition asUint8Array (b : Buffer) : list Z :=
  match b with
  | Uint8Array elems => elems
  | PlainArray elems => map (fun v => Js.toUint8 (default 0 v)) elems
  end.

(** The byte an accessor reads at an index: 0 past the end. *)
Definition byteAt (elems : list Z) (i : nat) : Z := default 0 (elems !! i).

End MspTrack.

(** ** util.js and the status bar of app.js *)

Module Util.

Import Text.

(** The document as [setText] sees it: the text content of the elements
    that exist, by id. *)
Abbreviation Dom := (gmap string string).

(** util.js [setText(id, text)] *)
Definition setText (id text : string) (d : Dom) : Dom :=
  match d !! id with
  | Some _ => <[id := text]> d
  | None => d
  end.

(** A number used as a condition: true unless it is 0. *)
Definition truthy (n : Z) : bool := negb (n =? 0).

(** [names.join(' ')] *)
Definition joinSpace (names : list string) : string := String.concat " " names.

(** util.js [sensorString(mask)] *)
Definition sensorString (mask : Z) : string :=
  let names :=
    (if truthy (Js.band mask 0x01) then ["ACC"%string] else []) ++
    (if truthy (Js.band mask 0x02) then ["BARO"%string] else []) ++
    (if truthy (Js.band mask 0x04) then ["MAG"%string] else []) ++
    (if truthy (Js.band mask 0x08) then ["GPS"%string] else []) ++
    (if truthy (Js.band mask 0x10) then ["GYRO"%string] else []) in
  if bool_decide (names = []) then "NONE"%string else joinSpace names.

Definition MICRO : string := strOfBytes [194; 181]%nat.

(** app.js [updateStatusBar(msg)] *)
Definition updateStatusBar (msg : Msp.Message) (d : Dom) : Dom :=
  if negb (Msp.msg_cmd msg =? 101) then d else
  let cycleTime := Msp.readU16 (Msp.msg_payload msg) 0 in
  let cpuLoad := Msp.readU16 (Msp.msg_payload msg) 2 in
  let sensors := Msp.readU16 (Msp.msg_payload msg) 4 in
  let flags := Msp.readU32 (Msp.msg_payload msg) 6 in
  let armed := negb (Js.band flags 1 =? 0) in
  let d := setText "bar-armed" (if armed then "YES" else "NO") d in
  let d := setText "bar-cycle" (pretty cycleTime +:+ " " +:+ MICRO +:+ "s") d in
  let d := setText "bar-cpu" (pretty cpuLoad +:+ "%") d in
  setText "bar-sensors" (sensorString sensors) d.

(** [sensorString] through the five bits it tests. *)
Definition sensorNames (acc baro mag gps gyro : bool) : string :=
  let names :=
    (if acc then ["ACC"%string] else []) ++
    (if baro then ["BARO"%string] else []) ++
    (if mag then ["MAG"%string] else []) ++
    (if gps then ["GPS"%string] else []) ++
    (if gyro then ["GYRO"%string] else []) in
  if bool_decide (names = []) then "NONE"%string else joinSpace names.

End Util.

(** ** tabs/sensors.js: the sample buffers *)

Module Sensors.

(** [MAX_SAMPLES] *)
Definition MAX_SAMPLES : nat := 300.

(** One of [graphData.acc], [graphData.gyro], [graphData.mag]: three
    arrays of samples. *)
Record Axes (A : Type) := mkAxes { x : list A; y : list A; z : list A }.
Arguments mkAxes {A}.
Arguments x {A}.
Arguments y {A}.
Arguments z {A}.

(** [arr.shift()] *)
Definition shift {A} (arr : list A) : list A := tail arr.

(** sensors.js [pushSample(buf, sample)] *)
Definition pushSample {A} (buf : Axes A) (sample : A * A * A) : Axes A :=
  let '(sx, sy, sz) := sample in
  let bx := x buf ++ [sx] in
  let by_ := y buf ++ [sy] in
  let bz := z buf ++ [sz] in
  if (MAX_SAMPLES <? length bx)%nat
  then mkAxes (shift bx) (shift by_) (shift bz)
  else mkAxes bx by_ bz.

(** The last [n] elements of a list. *)
Definition lastN {A} (n : nat) (l : list A) : list A := drop (length l - n) l.

End Sensors.

(** ** app.js polling and tab switching, terminal.js input and form *)

Module Shell.

Import Text App.

(** The platform's value sanitization of an [<input type="number">]: what
    [input.value] reads after a string was assigned or typed. *)
Class NumberInput := { sanitizeNumber : string -> string }.

(** A live [setInterval]: its handle and its delay ([None] when the delay
    is [NaN]); every interval app.js arms runs [pollActiveTab]. *)
Record Interval := mkInterval { interval_id : nat; interval_delay : option Z }.

(** The module variables of app.js, the [port] and [reader] fields of the
    [Serial] ([true] when not [null]), the live intervals, and the parsed
    value of the 'sensor-refresh' select ([None] when the element is missing,
    [Some None] when [parseInt] gives [NaN]). *)
Record AppVars := mkAppVars {
  pollTimer : option nat;
  activeTab : string;
  port : bool;
  reader : bool;
  intervals : list Interval;
  sensorRefresh : option (option Z)
}.

(** The input line and the Save button of terminal.js: [history],
    [historyIdx], [termInput.value], and the label of [btnSave] ([None] when
    the button is missing). *)
Record Console := mkConsole {
  history : list string;
  historyIdx : Z;
  inputValue : string;
  btnSave : option string
}.

(** Keys [onInputKey] tells apart. *)
Inductive Key := Enter | ArrowUp | ArrowDown | OtherKey.

(** The commands [pollActiveTab] adds for a tab, after [MSP.STATUS]. *)
Definition tabCommands (tab : string) : list Z :=
  if String.eqb tab "status" then [108; 110]
  else if String.eqb tab "receiver" then [105]
  else if String.eqb tab "sensors" then [102]
  else [].

(** [history[historyIdx]] assigned to [termInput.value]: an index outside
    the array reads [undefined], which the input shows as text. *)
Definition historyAt (h : list string) (i : Z) : string :=
  if i <? 0 then "undefined"%string
  else default "undefined"%string (h !! Z.to_nat i).

(** [settingsForm.querySelectorAll('.param-input')]: the inputs in
    document order, each with its parameter name and assigned value. *)
Definition formInputs (f : Form) : list (string * string) :=
  concat (map snd f).

Section WithPlatform.

Context {textDecoder : TextDecoder} {numberInput : NumberInput}.

(** One connection's state: the variables of app.js and the [World]. *)
Record Session := mkSession { vars : AppVars; world : World }.

Definition withWorld (w : World) (s : Session) : Session := mkSession (vars s) w.
Definition withVars (v : AppVars) (s : Session) : Session := mkSession v (world s).

Definition setPollTimer (t : option nat) (s : Session) : Session :=
  let v := vars s in
  withVars (mkAppVars t (activeTab v) (port v) (reader v) (intervals v)
              (sensorRefresh v)) s.

(** [serial.connected] *)
Definition connected (s : Session) : bool := port (vars s) && reader (vars s).

(** app.js [getPollInterval()] *)
Definition getPollInterval (s : Session) : option Z :=
  if String.eqb (activeTab (vars s)) "sensors" then
    match sensorRefresh (vars s) with
    | Some parsed => parsed
    | None => Some 100
    end
  else Some 250.

(** [setInterval(() => pollActiveTab(), delay)]: handles come from the same
    counter as those of [setTimeout]. *)
Definition setInterval (delay : option Z) (s : Session) : nat * Session :=
  let w := world s in
  let v := vars s in
  let id := nextTimerId (rt w) in
  (id,
   mkSession
     (mkAppVars (pollTimer v) (activeTab v) (port v) (reader v)
                (intervals v ++ [mkInterval id delay]) (sensorRefresh v))
     (withRt (mkRuntime (timers (rt w)) (S id) (trace (rt w))) w)).

(** [clearInterval(id)] *)
Definition clearInterval (id : nat) (s : Session) : Session :=
  let v := vars s in
  withVars (mkAppVars (pollTimer v) (activeTab v) (port v) (reader v)
              (List.filter (fun i => negb (Nat.eqb (interval_id i) id))
                           (intervals v))
              (sensorRefresh v)) s.

(** [parser.reset()] on the parser of app.js. *)
Definition resetParser (s : Session) : Session :=
  let w := world s in
  withWorld (mkWorld (cli w) (serial w) (term w) (Msp.reset (parser w))
                     (dispatched w) (rt w)) s.

(** app.js [startPolling()] *)
Definition startPolling (s : Session) : Session :=
  match pollTimer (vars s) with
  | Some _ => s
  | None =>
      let '(id, s) := setInterval (getPollInterval s) s in
      setPollTimer (Some id) s
  end.

(** app.js [stopPolling()] *)
Definition stopPolling (s : Session) : Session :=
  let s :=
    match pollTimer (vars s) with
    | Some id => setPollTimer None (clearInterval id s)
    | None => s
    end in
  resetParser s.

(** app.js [restartPolling()] *)
Definition restartPolling (s : Session) : Session :=
  if negb (connected s) || String.eqb (activeTab (vars s)) "terminal" then s
  else
    let s :=
      match pollTimer (vars s) with
      | Some id => clearInterval id s
      | None => s
      end in
    let '(id, s) := setInterval (getPollInterval s) s in
    setPollTimer (Some id) s.

(** app.js [pollActiveTab()], run to its end. *)
Definition pollActiveTab (s : Session) : Session :=
  if negb (connected s) then s
  else
    let commands := 101 :: tabCommands (activeTab (vars s)) in
    withWorld
      (fold_left
         (fun w cmd => serialWrite (MspTrack.asUint8Array (Msp.mspEncode cmd)) w)
         commands (world s))
      s.

(** A live interval coming due. *)
Definition fireInterval (id : nat) (s : Session) : Session :=
  if existsb (fun i => Nat.eqb (interval_id i) id) (intervals (vars s))
  then pollActiveTab s else s.

(** app.js [activateTab(target)]: the module variable; the class changes
    on the tab buttons and sections are display only and not modelled. *)
Definition activateTab (target : string) (s : Session) : Session :=
  let v := vars s in
  withVars (mkAppVars (pollTimer v) target (port v) (reader v) (intervals v)
              (sensorRefresh v)) s.

(** app.js, the click handler of a tab whose [data-tab] is [target], run to
    its end. *)
Definition tabClick (target : string) (s : Session) : Session :=
  if String.eqb target (activeTab (vars s)) then s
  else
    let wasTerminal := String.eqb (activeTab (vars s)) "terminal" in
    let goingToTerminal := String.eqb target "terminal" in
    let s :=
      if wasTerminal && connected s then
        let s := withWorld (onTerminalDeactivate (world s)) s in
        let s := withWorld (exitCli switchToMsp (world s)) s in
        let s := resetParser s in
        startPolling s
      else s in
    let s := activateTab target s in
    let s :=
      if goingToTerminal && connected s then
        let s := stopPolling s in
        let s := withWorld (onTerminalActivate (world s)) s in
        withWorld (enterCli switchToCli (world s)) s
      else s in
    if negb wasTerminal && negb goingToTerminal && connected s
    then restartPolling s
    else s.

(** terminal.js [getDirtyCount()] *)
Definition isDirty (originals : list (string * string)) (input : string * string)
  : bool :=
  negb (bool_decide (Some (sanitizeNumber (snd input))
                     = mapGet (fst input) originals)).

Definition getDirtyCount (w : World) : nat :=
  match settingsForm (term w) with
  | None => 0
  | Some form =>
      length (List.filter (isDirty (originalValues (term w))) (formInputs form))
  end.

(** terminal.js [updateSaveButton()] *)
Definition updateSaveButton (c : Console) (w : World) : Console :=
  match btnSave c with
  | None => c
  | Some _ =>
      let count := getDirtyCount w in
      mkConsole (history c) (historyIdx c) (inputValue c)
        (Some (if (0 <? count)%nat then "Save (" +:+ pretty count +:+ ")"
               else "Save"))
  end.

Definition setOriginalValues (o : list (string * string)) (w : World) : World :=
  let t := term w in
  withTerm (mkTerminal (termOutput t) (settingsForm t) (captureBuffer t)
              (capturing t) (captureTimer t) o (autoLoadPending t)
              (preserveOriginalsOnLoad t) (silentLoad t)) w.

(** terminal.js [saveSettings()], run to its end; the [dirty] class of the
    rows is display only and not modelled. *)
Definition saveSettings (cw : Console * World) : Console * World :=
  let '(c, w) := cw in
  match settingsForm (term w) with
  | None => (c, w)
  | Some form =>
      let inputs := formInputs form in
      let changed := List.filter (isDirty (originalValues (term w))) inputs in
      if (length changed =? 0)%nat then
        (c, appendOutput ("[No changes to save]" +:+ CRLF) w)
      else
        let w :=
          fold_left
            (fun w input =>
               sleep 50
                 (sendCommand ("set " +:+ fst input +:+ " "
                               +:+ sanitizeNumber (snd input)) w))
            changed w in
        let w := appendOutput ("> save (" +:+ pretty (length changed)
                               +:+ " parameters)" +:+ CRLF) w in
        let w := sendCommand "save" w in
        let w :=
          setOriginalValues
            (fold_left
               (fun o input => mapSet (fst input) (sanitizeNumber (snd input)) o)
               inputs (originalValues (term w)))
            w in
        (updateSaveButton c w, w)
  end.


(** terminal.js [onInputKey(e)] *)
Definition onInputKey (key : Key) (cw : Console * World) : Console * World :=
  let '(c, w) := cw in
  match key with
  | Enter =>
      let cmd := trim (inputValue c) in
      let c := mkConsole (history c) (historyIdx c) "" (btnSave c) in
      if String.eqb cmd "" then (c, w)
      else if String.eqb cmd "exit" then
        (c, appendOutput ("Click a tab on the left to exit the terminal."
                          +:+ CRLF) w)
      else
        let h := history c ++ [cmd] in
        (mkConsole h (Z.of_nat (length h)) (inputValue c) (btnSave c),
         sendCommand cmd w)
  | ArrowUp =>
      if 0 <? historyIdx c then
        let i := historyIdx c - 1 in
        (mkConsole (history c) i (historyAt (history c) i) (btnSave c), w)
      else (c, w)
  | ArrowDown =>
      if historyIdx c <? Z.of_nat (length (history c)) - 1 then
        let i := historyIdx c + 1 in
        (mkConsole (history c) i (historyAt (history c) i) (btnSave c), w)
      else
        (mkConsole (history c) (Z.of_nat (length (history c))) "" (btnSave c), w)
  | OtherKey => (c, w)
  end.

(** The user typing: the input line holds [text]. *)
Definition typeText (text : string) (cw : Console * World) : Console * World :=
  let '(c, w) := cw in
  (mkConsole (history c) (historyIdx c) text (btnSave c), w).

(** What happens at the input line: a key goes to [onInputKey], typed text
    changes the line. *)
Inductive InputEvent := KeyDown (k : Key) | Typed (text : string).

Definition inputStep (cw : Console * World) (e : InputEvent) : Console * World :=
  match e with
  | KeyDown k => onInputKey k cw
  | Typed text => typeText text cw
  end.

(** The input line as terminal.js initialises it. *)
Definition initialConsole (button : option string) : Console :=
  mkConsole [] (-1) "" button.

End WithPlatform.

(** A stand-in that leaves every string as it is. *)
Definition plainInput : NumberInput := {| sanitizeNumber := fun s => s |}.

End Shell.

(** ** Invariants of the tab and polling logic *)

Module ShellInv.
Import Text App Shell.

Section WithPlatform.
Context {textDecoder : TextDecoder} {numberInput : NumberInput}.

(** While connected: the terminal tab, CLI mode and the text route go
    together, every other tab goes with telemetry mode, the binary route and
    a poll timer, and the poll timer is the only live interval. *)
Definition TabsInSync (s : Session) : Prop :=
  connected s = true /\
  map interval_id (intervals (vars s)) = option_list (pollTimer (vars s)) /\
  if String.eqb (activeTab (vars s)) "terminal"
  then inCliMode (cli (world s)) = true /\
       pollTimer (vars s) = None /\
       onReceive (serial (world s)) = Some RouteCli
  else inCliMode (cli (world s)) = false /\
       is_Some (pollTimer (vars s)) /\
       onReceive (serial (world s)) = Some RouteMsp.


Definition writesIn (s : Session) : list (list Z) :=
  writesOf (trace (rt (world s))).


(** The poll timer is the only live interval. *)
Definition OneTimer (s : Session) : Prop :=
  map interval_id (intervals (vars s)) = option_list (pollTimer (vars s)).

(** The two halves of a tab click that touch the link. *)
Definition leaveTerminal (s : Session) : Session :=
  startPolling
    (resetParser
       (withWorld (exitCli switchToMsp (onTerminalDeactivate (world s))) s)).

Definition enterTerminal (s : Session) : Session :=
  withWorld (enterCli switchToCli (onTerminalActivate (world (stopPolling s))))
            (stopPolling s).

(** The request frame for a command. *)
Definition requestFrame (c : Z) : list Z := [0x24; 0x4D; 0x3C; 0x00; c; c].

End WithPlatform.

(** A connected session on the status tab, polling. *)
Definition sampleSession : @Session asciiDecoder :=
  @startPolling asciiDecoder
    (@mkSession asciiDecoder
       (mkAppVars None "status" true true [] None) sampleWorld).

End ShellInv.

(** ** Invariants of the input line *)

Module ConsoleInv.
Import Text App Shell.

(** The history index stays between -1 (nothing entered yet) and the
    length of the history. *)
Definition ConsoleOk (c : Console) : Prop :=
  -1 <= historyIdx c <= Z.of_nat (length (history c)).

(** A command the input line sends. *)
Definition sendable (cmd : string) : Prop :=
  cmd <> ""%string /\ cmd <> "exit"%string.

(** The bytes written for a command. *)
Definition commandBytes (cmd : string) : list Z := encode (cmd +:+ CRLF).

End ConsoleInv.

(** ** The settings form as a map *)

Module FormInv.
Import Text App Shell.

(** The names of a [Map] in insertion order. *)
Definition keys (m : list (string * string)) : list string := map fst m.

(** Every parameter name of [PARAM_GROUPS], in order. *)
Definition groupNames : list string := concat (map snd PARAM_GROUPS).

(** The row [renderForm] builds for a name, when the parameter exists. *)
Definition rowFor (params : list (string * string)) (name : string)
  : option (string * string) :=
  pair name <$> mapGet name params.

End FormInv.

(** ** Saving and sample captures *)

Module CaptureInv.
Import Text App Shell.

(** The command [saveSettings] sends for an input. *)
Definition setCommand `{NumberInput} (input : string * string) : string :=
  "set " +:+ fst input +:+ " " +:+ sanitizeNumber (snd input).

(** A capture whose reply is complete. *)
Definition sampleCapture : @World asciiDecoder :=
  withTerm (mkTerminal (Some ""%string) (Some [])
              ("set" +:+ CRLF +:+ "Kp_yaw = 0.3" +:+ CRLF
               +:+ "foo = 1" +:+ CRLF +:+ PROMPT)
              true None [] false false false) sampleWorld.

(** A form with one edited input. *)
Definition sampleEdited : @World asciiDecoder :=
  withTerm (mkTerminal (Some ""%string)
              (Some [("Yaw PID", [("Kp_yaw", "0.5")]); ("Other", [("foo", "1")])]%string)
              ""%string false None [("Kp_yaw", "0.3"); ("foo", "1")]%string
              false false false) sampleWorld.

End CaptureInv.

(** ** A reply arriving in chunks *)

Module LoadInv.
Import Text App.

(** The text of a reply that arrived in chunks. *)
Definition joinChunks (chunks : list string) : string :=
  fold_right String.append ""%string chunks.

Section WithDecoder.
Context {textDecoder : TextDecoder}.

(** The world with another capture buffer. *)
Definition withBuffer (buf : string) (w : World) : World :=
  let t := term w in
  withTerm (mkTerminal (termOutput t) (settingsForm t) buf (capturing t)
              (captureTimer t) (originalValues t) (autoLoadPending t)
              (preserveOriginalsOnLoad t) (silentLoad t)) w.

(** The receiver called once per chunk. *)
Definition deliver (chunks : list string) (w : World) : World :=
  fold_left (fun w chunk => onCliText chunk w) chunks w.

(** terminal.js registers [loadSettings] itself as the click listener of
    the Load button, so the click event arrives as [preserveOriginals]: an
    object, which [renderForm] tests as true; [silent] keeps its default. *)
Definition onLoadClick (w : World) : World := loadSettings true false w.

End WithDecoder.

(** A reply to [set] in two chunks, the prompt in the second. *)
Definition replyHead : list string :=
  ["set" +:+ CRLF +:+ "Kp_yaw = 0.3" +:+ CRLF].
Definition replyTail : string := "foo = 1" +:+ CRLF +:+ PROMPT.

End LoadInv.

(** ** The capture deadline *)

Module TimerInv.
Import Text App Shell LoadInv.


(** The pending timers after [clearTimeout(id)]. *)
Definition without (id : nat) (tms : list Timer) : list Timer :=
  List.filter (fun t => negb (Nat.eqb (timer_id t) id)) tms.


Section WithDecoder.
Context {textDecoder : TextDecoder} {numberInput : NumberInput}.



End WithDecoder.
End TimerInv.

(** ** The read loop *)

Module RouteInv.
Import Text App.

Section WithDecoder.
Context {textDecoder : TextDecoder}.

(** The read loop handing over chunk after chunk. *)
Definition receiveAll (chunks : list (list Z)) (w : World) : World :=
  fold_left (fun w data => receive data w) chunks w.

(** One streaming decoder run over the chunks: the final state and the
    text of each chunk. *)
Fixpoint decodeChunks (d : decoder_state) (chunks : list (list Z))
  : decoder_state * list string :=
  match chunks with
  | [] => (d, [])
  | data :: rest =>
      let '(d1, text) := decode_stream d data in
      let '(d2, texts) := decodeChunks d1 rest in
      (d2, text :: texts)
  end.

End WithDecoder.

(** The sample world after the terminal tab was entered. *)
Definition sampleCli : @World asciiDecoder := enterCli switchToCli sampleWorld.

End RouteInv.

(** ** serial.js: the port list *)

Module Ports.
Import Text.

(** What [port.getInfo()] returns: both fields are [undefined] for a port
    that is not a USB device, and 16-bit numbers otherwise. *)
Record PortInfo := mkPortInfo {
  usbVendorId : option Z;
  usbProductId : option Z
}.

(** The two tables, keyed by number as the object literals are. *)
Definition VENDOR_NAMES : list (Z * string) :=
  [(0x0403, "FTDI"); (0x0483, "STM32"); (0x10C4, "CP210x"); (0x1366, "SEGGER");
   (0x1A86, "CH340"); (0x2341, "Arduino"); (0x28E9, "GD32"); (0x2E3C, "AT32");
   (0x314B, "APM32"); (0x2E8A, "RP2040")]%string.

Definition PRODUCT_NAMES : list (Z * string) :=
  [(0x04835740, "STM32 VCP"); (0x0483374E, "STM32 ST-Link");
   (0x04833256, "STM32 HID"); (0x13660105, "J-Link"); (0x13661015, "J-Link");
   (0x04036001, "FTDI"); (0x10C4EA60, "CP210x")]%string.

(** [table[key]] for a numeric key. *)
Definition nameOf (table : list (Z * string)) (key : Z) : option string :=
  snd <$> List.find (fun e => fst e =? key) table.

Definition hexDigit (d : Z) : Ascii.ascii :=
  nth (Z.to_nat d)
      (String.list_ascii_of_string "0123456789ABCDEF") (Ascii.ascii_of_nat 48).

Fixpoint hexGo (fuel : nat) (n : Z) (acc : string) : string :=
  match fuel with
  | O => acc
  | S fuel' =>
      if n =? 0 then acc
      else hexGo fuel' (n / 16) (String (hexDigit (n mod 16)) acc)
  end.

(** [n.toString(16).toUpperCase()] for an integer [n]. *)
Definition toStringHexUpper (n : Z) : string :=
  if n =? 0 then "0"
  else if n <? 0 then "-" +:+ hexGo (S (Z.to_nat (Z.log2 (- n)))) (- n) ""
  else hexGo (S (Z.to_nat (Z.log2 n))) n "".

(** [s.padStart(n, '0')] *)
Definition padStart0 (n : nat) (s : string) : string :=
  String.string_of_list_ascii
    (replicate (n - String.length s) (Ascii.ascii_of_nat 48)) +:+ s.

(** serial.js [Serial._portLabel(port, index)], on the port's info. *)
Definition _portLabel (info : PortInfo) (index : nat) : string :=
  match usbVendorId info with
  | Some vid =>
      if vid =? 0 then "Serial port " +:+ pretty (index + 1)%nat
      else
        let key := Js.bor (Js.shl vid 16)
                          (Js.band (Js.int32_of (usbProductId info)) 0xFFFF) in
        match nameOf PRODUCT_NAMES key with
        | Some name => name
        | None =>
            match nameOf VENDOR_NAMES vid with
            | Some name => name
            | None => "VID:" +:+ padStart0 4 (toStringHexUpper vid)
            end
        end
  | None => "Serial port " +:+ pretty (index + 1)%nat
  end.

(** The first loop of [scanPorts]: how often each label occurs. *)
Definition countLabels (labels : list string) : gmap string nat :=
  fold_left (fun counts l => <[l := S (default 0%nat (counts !! l))]> counts)
            labels ∅.

Section WithPorts.

(** The port objects, whatever they are, and their [getInfo()]. *)
Context {Port : Type} (getInfo : Port -> PortInfo).

(** The second loop of [scanPorts], one result. *)
Definition numberStep (counts : gmap string nat)
    (acc : gmap string nat * list (Port * string)) (r : Port * string)
  : gmap string nat * list (Port * string) :=
  let '(seen, out) := acc in
  if (1 <? default 0 (counts !! snd r))%nat then
    let n := S (default 0%nat (seen !! snd r)) in
    (<[snd r := n]> seen, out ++ [(fst r, snd r +:+ " #" +:+ pretty n)])
  else (seen, out ++ [r]).

(** serial.js [Serial.scanPorts()]; [granted] is [None] when the browser
    has no [navigator.serial], and the ports [getPorts()] resolves to
    otherwise.  The labels are never names of [Object.prototype], so the two
    counting objects behave as maps. *)
Definition scanPorts (granted : option (list Port)) : list (Port * string) :=
  match granted with
  | None => []
  | Some ports =>
      let results := imap (fun i port => (port, _portLabel (getInfo port) i)) ports in
      let counts := countLabels (map snd results) in
      snd (fold_left (numberStep counts) results (∅, []))
  end.

End WithPorts.

End Ports.

(** ** Labels of the port list *)

Module PortsInv.
Import Text Ports.

(** The labels before numbering. *)
Definition baseLabels (infos : list PortInfo) : list string :=
  imap (fun i info => _portLabel info i) infos.

Definition occurrences (l : string) (labels : list string) : nat :=
  count_occ String.string_dec labels l.

(** The label numbering gives to the [i]-th result, whose own label is
    [l]. *)
Definition numbered (labels : list string) (i : nat) (l : string) : string :=
  if (1 <? occurrences l labels)%nat
  then l +:+ " #" +:+ pretty (S (occurrences l (take i labels)))
  else l.

Fixpoint hasHash (s : string) : bool :=
  match s with
  | EmptyString => false
  | String a s' => Ascii.eqb a (Ascii.ascii_of_nat 35) || hasHash s'
  end.

(** Three ports: two boards of one kind and a port that is no USB device. *)
Definition samplePorts : list PortInfo :=
  [mkPortInfo (Some 0x0483) (Some 0x5740); mkPortInfo None None;
   mkPortInfo (Some 0x0483) (Some 0x5740)].

End PortsInv.

(** * The text helpers against the JavaScript methods they stand for *)

Module TextProofs.

Import Text.

Local Open Scope nat_scope.

Example indexOf_first : indexOf "# " "a# b# c" = Some 1.
Proof. reflexivity. Qed.

Example lastIndexOf_last : lastIndexOf "# " "a# b# c" = Some 4.
Proof. reflexivity. Qed.

Example lastIndexOf_absent : lastIndexOf "# " "abc #" = None.
Proof. reflexivity. Qed.

Example splitLines_keeps_empty : splitLines ("a" +:+ LF +:+ LF +:+ "b") = ["a"; ""; "b"]%string.
Proof. reflexivity. Qed.

Example trim_both_ends :
  trim (" " +:+ CRLF +:+ "a b" +:+ strOfBytes [194; 160] +:+ CRLF) = "a b"%string.
Proof. reflexivity. Qed.

Lemma prefix_length w s :
  String.prefix w s = true -> String.length w <= String.length s.
Proof.
  revert w. induction s as [|b s IH]; intros [|a w]; cbn; intros Hp; try lia.
  destruct (Ascii.ascii_dec a b); [|discriminate Hp].
  apply IH in Hp. lia.
Qed.

Lemma length_substring n m s :
  n + m <= String.length s -> String.length (String.substring n m s) = m.
Proof.
  revert n m. induction s as [|c s IH]; intros [|n] [|m]; cbn; try lia.
  - intros Hl. rewrite (IH 0 m) by lia. reflexivity.
  - intros Hl. apply (IH n 0). lia.
  - intros Hl. apply (IH n (S m)). lia.
Qed.

Lemma stripOne_shorter ws s s' :
  Forall (fun w => w <> EmptyString) ws -> stripOne ws s = Some s' ->
  String.length s' < String.length s.
Proof.
  induction 1 as [|w ws Hw _ IH]; cbn; [discriminate|].
  destruct (String.prefix w s) eqn:Hp; [|exact IH].
  intros [= <-]. apply prefix_length in Hp.
  unfold substringFrom. rewrite length_substring by lia.
  destruct w; [congruence|]. cbn in *. lia.
Qed.

Lemma stripOne_empty ws :
  Forall (fun w => w <> EmptyString) ws -> stripOne ws EmptyString = None.
Proof.
  induction 1 as [|w ws Hw _ IH]; cbn; [reflexivity|].
  destruct w; [congruence|]. exact IH.
Qed.

(** The fuel [stripAll] is given is enough: nothing is left to strip. *)
Lemma stripAll_done ws fuel : forall s,
  Forall (fun w => w <> EmptyString) ws -> String.length s <= fuel ->
  stripOne ws (stripAll fuel ws s) = None.
Proof.
  induction fuel as [|fuel IH]; intros s Hws Hlen; cbn.
  - destruct s; [|cbn in Hlen; lia]. apply stripOne_empty. exact Hws.
  - destruct (stripOne ws s) as [s'|] eqn:Hs; [|exact Hs].
    apply IH; [exact Hws|]. apply stripOne_shorter in Hs; [lia | exact Hws].
Qed.

Lemma whiteSpace_nonempty : Forall (fun w => w <> EmptyString) whiteSpace.
Proof. repeat constructor; discriminate. Qed.

Lemma trimStart_done s : stripOne whiteSpace (trimStart s) = None.
Proof. apply stripAll_done; [apply whiteSpace_nonempty | reflexivity]. Qed.

Lemma substringFrom_0 s : substringFrom 0 s = s.
Proof.
  unfold substringFrom. rewrite Nat.sub_0_r.
  induction s as [|a s IH]; cbn; [reflexivity|]. rewrite IH. reflexivity.
Qed.

Lemma substringFrom_S n a s :
  substringFrom (S n) (String a s) = substringFrom n s.
Proof. reflexivity. Qed.

Lemma occursAt_S needle a s i :
  occursAt needle (String a s) (S i) <-> occursAt needle s i.
Proof.
  unfold occursAt. rewrite substringFrom_S. cbn [String.length]. intuition lia.
Qed.

Lemma occursAt_0 needle s :
  occursAt needle s 0 <-> String.prefix needle s = true.
Proof.
  unfold occursAt. rewrite substringFrom_0. intuition lia.
Qed.

(** [lastIndexOf] is the last index at which the needle occurs, and [None]
    when it occurs nowhere. *)
Lemma lastIndexOfFrom_spec needle s : forall i,
  match lastIndexOfFrom i needle s with
  | Some k =>
      exists j, k = i + j /\ occursAt needle s j /\
        forall j', j < j' -> ~ occursAt needle s j'
  | None => forall j', ~ occursAt needle s j'
  end.
Proof.
  induction s as [|a s IH]; intros i.
  - cbn [lastIndexOfFrom].
    destruct (String.prefix needle EmptyString) eqn:Hp.
    + exists 0. split; [lia|]. split; [apply occursAt_0; exact Hp|].
      intros j' Hj [Hle _]. cbn in Hle. lia.
    + intros [|j'] Hocc.
      * apply occursAt_0 in Hocc. congruence.
      * destruct Hocc as [Hle _]. cbn in Hle. lia.
  - cbn [lastIndexOfFrom]. specialize (IH (S i)).
    destruct (lastIndexOfFrom (S i) needle s) as [k|].
    + destruct IH as (j & -> & Hocc & Hmax).
      exists (S j). split; [lia|]. split; [apply occursAt_S; exact Hocc|].
      intros [|j'] Hj; [lia|]. rewrite occursAt_S. apply Hmax. lia.
    + destruct (String.prefix needle (String a s)) eqn:Hp.
      * exists 0. split; [lia|]. split; [apply occursAt_0; exact Hp|].
        intros [|j'] Hj; [lia|]. rewrite occursAt_S. apply IH.
      * intros [|j'].
        -- rewrite occursAt_0. congruence.
        -- rewrite occursAt_S. apply IH.
Qed.

Lemma lastIndexOf_spec needle s :
  match lastIndexOf needle s with
  | Some k => occursAt needle s k /\ forall j, k < j -> ~ occursAt needle s j
  | None => forall j, ~ occursAt needle s j
  end.
Proof.
  unfold lastIndexOf. pose proof (lastIndexOfFrom_spec needle s 0) as H.
  destruct (lastIndexOfFrom 0 needle s) as [k|]; [|exact H].
  destruct H as (j & -> & Hocc & Hmax). split; assumption.
Qed.

(** [indexOf] is the first index at which the needle occurs. *)
Lemma indexOfFrom_spec needle s : forall i,
  match indexOfFrom i needle s with
  | Some k =>
      exists j, k = i + j /\ occursAt needle s j /\
        forall j', j' < j -> ~ occursAt needle s j'
  | None => forall j', ~ occursAt needle s j'
  end.
Proof.
  induction s as [|a s IH]; intros i; cbn [indexOfFrom].
  - destruct (String.prefix needle EmptyString) eqn:Hp.
    + exists 0. split; [lia|]. split; [apply occursAt_0; exact Hp|]. lia.
    + intros [|j'] Hocc.
      * apply occursAt_0 in Hocc. congruence.
      * destruct Hocc as [Hle _]. cbn in Hle. lia.
  - destruct (String.prefix needle (String a s)) eqn:Hp.
    + exists 0. split; [lia|]. split; [apply occursAt_0; exact Hp|]. lia.
    + specialize (IH (S i)).
      destruct (indexOfFrom (S i) needle s) as [k|].
      * destruct IH as (j & -> & Hocc & Hmin).
        exists (S j). split; [lia|]. split; [apply occursAt_S; exact Hocc|].
        intros [|j'] Hj.
        -- rewrite occursAt_0. congruence.
        -- rewrite occursAt_S. apply Hmin. lia.
      * intros [|j'].
        -- rewrite occursAt_0. congruence.
        -- rewrite occursAt_S. apply IH.
Qed.

End TextProofs.

(** * Properties of msp.js *)

Module MspProofs.
Import Msp MspInv.

(** *** Bytes and the 32-bit operators *)

Lemma toInt32_signed x : - 2 ^ 31 <= x < 2 ^ 31 -> Js.toInt32 x = x.
Proof. intros Hx. unfold Js.toInt32. rewrite Z.mod_small; lia. Qed.

Ltac byte_range := unfold is_byte in *; lia.

Lemma toUint8_byte b : is_byte b -> Js.toUint8 b = b.
Proof. intros Hb. unfold Js.toUint8. apply Z.mod_small. exact Hb. Qed.

Lemma byte_mod b : is_byte b <-> b mod 256 = b.
Proof.
  unfold is_byte. split.
  - intros Hb. apply Z.mod_small. exact Hb.
  - intros <-. apply Z.mod_pos_bound. lia.
Qed.

Lemma byte_high_bits b n : is_byte b -> 8 <= n -> Z.testbit b n = false.
Proof.
  intros Hb Hn. apply byte_mod in Hb. rewrite <- Hb.
  change 256 with (2 ^ 8). apply Z.mod_pow2_bits_high. lia.
Qed.

Lemma lxor_byte a b : is_byte a -> is_byte b -> is_byte (Z.lxor a b).
Proof.
  intros Ha Hb. apply byte_mod. change 256 with (2 ^ 8).
  apply Z.bits_inj'. intros n Hn.
  destruct (Z.lt_ge_cases n 8) as [Hlt | Hge].
  - apply Z.mod_pow2_bits_low. exact Hlt.
  - rewrite Z.mod_pow2_bits_high by lia.
    rewrite Z.lxor_spec, !byte_high_bits by assumption. reflexivity.
Qed.

Lemma bxor_byte a b : is_byte a -> is_byte b -> Js.bxor a b = Z.lxor a b.
Proof.
  intros Ha Hb. unfold Js.bxor, is_byte in *.
  rewrite !toInt32_signed by lia. reflexivity.
Qed.

Lemma band_byte a : is_byte a -> Js.band a 0xFF = a.
Proof.
  intros Ha. unfold Js.band.
  rewrite !toInt32_signed by byte_range.
  change 255 with (Z.ones 8). rewrite Z.land_ones by lia.
  apply byte_mod. exact Ha.
Qed.

Lemma xorAll_byte l : Forall is_byte l -> is_byte (xorAll l).
Proof.
  induction 1 as [|b l Hb _ IH]; simpl.
  - byte_range.
  - apply lxor_byte; assumption.
Qed.

Lemma length_byte (P : list Z) :
  (length P <= 255)%nat -> is_byte (Z.of_nat (length P)).
Proof. intros HP. byte_range. Qed.

Create HintDb bytes.
#[local] Hint Resolve lxor_byte xorAll_byte length_byte : bytes.
#[local] Hint Constructors Forall : bytes.

(** *** Running the parser *)

(** One step of [processByte] on a parser given by its fields. *)
Ltac step_parser :=
  unfold processByte;
  cbn [state len cmd checksum payload payloadIdx onMessage setState].

Lemma parse_app p a b :
  parse p (a ++ b) =
  let '(p1, out1) := parse p a in
  let '(p2, out2) := parse p1 b in (p2, out1 ++ out2).
Proof.
  revert p. induction a as [|c a IH]; intros p; simpl.
  - destruct (parse p b). reflexivity.
  - destruct (processByte p c) as [p1 o1]. rewrite IH.
    destruct (parse p1 a) as [p2 o2]. destruct (parse p2 b) as [p3 o3].
    rewrite app_assoc. reflexivity.
Qed.

Lemma feed_concat p chunks : feed p chunks = parse p (concat chunks).
Proof.
  revert p. induction chunks as [|d chunks IH]; intros p; simpl.
  - reflexivity.
  - rewrite parse_app. destruct (parse p d) as [p1 o1]. rewrite IH. reflexivity.
Qed.

(** Filling the payload: from [S_PAYLOAD] with [stored] stored and room for
    exactly [rest], the bytes of [rest] are stored in order and the parser
    waits for the checksum. *)
Lemma parse_payload rest : forall stored c0 ck h,
  rest <> [] -> Forall is_byte rest -> is_byte ck ->
  parse (mkParser S_PAYLOAD (Z.of_nat (length stored + length rest)) c0 ck
           (Uint8Array (stored ++ replicate (length rest) 0)) (length stored) h) rest
  = (mkParser S_CHECKSUM (Z.of_nat (length stored + length rest)) c0
       (Z.lxor ck (xorAll rest))
       (Uint8Array (stored ++ rest)) (length stored + length rest) h, []).
Proof.
  induction rest as [|b rest IH]; intros stored c0 ck h Hne Hbytes Hck;
    [congruence|].
  apply Forall_cons in Hbytes as [Hb Hbytes].
  cbn [parse]. unfold processByte at 1.
  cbn [state len cmd checksum payload payloadIdx onMessage].
  rewrite bxor_byte by assumption.
  assert (Hstore :
    bufferSet (Uint8Array (stored ++ replicate (length (b :: rest)) 0))
              (length stored) b
    = Uint8Array ((stored ++ [b]) ++ replicate (length rest) 0)).
  { cbn [bufferSet length replicate]. rewrite toUint8_byte by assumption.
    f_equal. rewrite insert_app_r_alt by lia.
    replace (length stored - length stored)%nat with 0%nat by lia.
    cbn. rewrite <- app_assoc. reflexivity. }
  rewrite Hstore.
  assert (Hlen : (length stored + length (b :: rest) =
                  length (stored ++ [b]) + length rest)%nat).
  { rewrite length_app. cbn. lia. }
  assert (Hidx : S (length stored) = length (stored ++ [b])).
  { rewrite length_app. cbn. lia. }
  destruct rest as [|b' rest].
  - cbn [parse length replicate xorAll foldr].
    rewrite Z.lxor_0_r, app_nil_r.
    replace (Z.of_nat (S (length stored)) >=? Z.of_nat (length stored + 1))
      with true by (symmetry; rewrite Z.geb_leb; apply Z.leb_le; lia).
    replace (S (length stored)) with (length stored + 1)%nat by lia.
    reflexivity.
  - replace (Z.of_nat (S (length stored)) >=?
             Z.of_nat (length stored + length (b :: b' :: rest)))
      with false by (symmetry; rewrite Z.geb_leb; apply Z.leb_gt; cbn [length]; lia).
    rewrite Hlen, Hidx.
    rewrite IH; [| congruence | assumption | apply lxor_byte; assumption ].
    rewrite <- (app_assoc stored [b]). cbn [app xorAll foldr].
    rewrite Z.lxor_assoc. reflexivity.
Qed.

Lemma parse_silent p c p' rest :
  processByte p c = (p', []) -> parse p (c :: rest) = parse p' rest.
Proof.
  intros Hstep. cbn [parse]. rewrite Hstep.
  destruct (parse p' rest). reflexivity.
Qed.

Lemma parse_last p c : parse p [c] = processByte p c.
Proof.
  cbn [parse]. destruct (processByte p c) as [p' out].
  rewrite app_nil_r. reflexivity.
Qed.

(** A whole frame with any checksum byte [x], from [S_IDLE]: it is handed to
    the handler exactly when [x] is the frame's checksum and a handler is
    registered, and the parser is back in [S_IDLE] either way. *)
Lemma parse_frameWith p c P x :
  state p = S_IDLE -> is_byte c -> Forall is_byte P -> (length P <= 255)%nat ->
  parse p (frameWith c P x)
  = (mkParser S_IDLE (Z.of_nat (length P)) c (frameChecksum c P)
       (Uint8Array P) (length P) (onMessage p),
     if (frameChecksum c P =? x) && bool_decide (is_Some (onMessage p))
     then [mkMessage c (Uint8Array P)] else []).
Proof.
  intros Hidle Hc HP Hlen.
  assert (Hl : is_byte (Z.of_nat (length P))) by auto with bytes.
  assert (Hck : is_byte (frameChecksum c P))
    by (unfold frameChecksum; auto with bytes).
  destruct p as [st l0 c0 ck0 pl0 idx0 h]. cbn in Hidle. subst st.
  unfold frameWith. cbn [app].
  do 5 (erewrite parse_silent by (unfold processByte; cbn; reflexivity)).
  rewrite Nat2Z.id, bxor_byte by assumption.
  destruct P as [|b P].
  - cbn [length app]. change (0 <? Z.of_nat 0) with false. cbv iota.
    rewrite parse_last. step_parser. cbn [replicate].
    rewrite band_byte by auto with bytes.
    unfold frameChecksum, xorAll. cbn [length foldr]. rewrite Z.lxor_0_r.
    reflexivity.
  - replace (0 <? Z.of_nat (length (b :: P))) with true
      by (symmetry; apply Z.ltb_lt; cbn [length]; lia).
    cbv iota. rewrite parse_app.
    rewrite (parse_payload (b :: P) [] c _ h);
      [| congruence | assumption | auto with bytes].
    rewrite parse_last. step_parser. cbn [app length Nat.add].
    replace (Z.lxor (Z.lxor (Z.of_nat (S (length P))) c) (xorAll (b :: P)))
      with (frameChecksum c (b :: P))
      by (unfold frameChecksum; cbn [xorAll foldr length];
          rewrite Z.lxor_assoc; reflexivity).
    rewrite band_byte by assumption.
    reflexivity.
Qed.

Lemma parse_cons_fst p c rest :
  (parse p (c :: rest)).1 = (parse (processByte p c).1 rest).1.
Proof.
  cbn [parse]. destruct (processByte p c) as [p1 o1]. cbn [fst snd].
  destruct (parse p1 rest) as [p2 o2]. reflexivity.
Qed.

Lemma parse_cons_snd p c rest :
  (parse p (c :: rest)).2 = (processByte p c).2 ++ (parse (processByte p c).1 rest).2.
Proof.
  cbn [parse]. destruct (processByte p c) as [p1 o1]. cbn [fst snd].
  destruct (parse p1 rest) as [p2 o2]. reflexivity.
Qed.

Lemma parse_app_fst p a b : (parse p (a ++ b)).1 = (parse (parse p a).1 b).1.
Proof.
  rewrite parse_app. destruct (parse p a) as [p1 o1]. cbn [fst snd].
  destruct (parse p1 b) as [p2 o2]. reflexivity.
Qed.

Lemma parse_app_snd p a b :
  (parse p (a ++ b)).2 = (parse p a).2 ++ (parse (parse p a).1 b).2.
Proof.
  rewrite parse_app. destruct (parse p a) as [p1 o1]. cbn [fst snd].
  destruct (parse p1 b) as [p2 o2]. reflexivity.
Qed.

Lemma state_constructor : state constructor = S_IDLE.
Proof. reflexivity. Qed.

Lemma state_reset p : state (reset p) = S_IDLE.
Proof. reflexivity. Qed.

(** *** Reset against a new parser *)

Lemma sameFrom_step p q c :
  sameFrom p q ->
  (processByte p c).2 = (processByte q c).2 /\
  sameFrom (processByte p c).1 (processByte q c).1.
Proof.
  destruct p as [sp lp cp kp bp ip hp], q as [sq lq cq kq bq iq hq].
  unfold sameFrom. cbn [state len cmd checksum payload payloadIdx onMessage].
  intros (Hs & Hh & Hrest). subst sq hq.
  destruct sp; unfold processByte;
    cbn [state len cmd checksum payload payloadIdx onMessage setState fst snd].
  - destruct (c =? 36); cbn; auto.
  - destruct (c =? 77); cbn; auto.
  - destruct (c =? 62); cbn; auto.
  - cbn. auto 10.
  - destruct Hrest as (-> & -> & -> & ->).
    destruct (0 <? lq); cbn; auto 10.
  - destruct Hrest as (-> & -> & -> & -> & ->).
    destruct (_ >=? lq); cbn; auto 10.
  - destruct Hrest as (-> & -> & -> & -> & ->). cbn. auto.
Qed.

Lemma sameFrom_parse data : forall p q,
  sameFrom p q -> (parse p data).2 = (parse q data).2.
Proof.
  induction data as [|c data IH]; intros p q Hpq; [reflexivity|].
  rewrite !parse_cons_snd.
  destruct (sameFrom_step p q c Hpq) as [Hout Hnext].
  rewrite Hout, (IH _ _ Hnext). reflexivity.
Qed.

Lemma sameFrom_reset_new p :
  sameFrom (reset p) (setOnMessage (onMessage p) constructor).
Proof. unfold sameFrom. cbn. auto. Qed.

(** *** The payload store stays inside the buffer *)

Lemma bufferOk_idle p : state p = S_IDLE -> bufferOk p.
Proof. unfold bufferOk. intros ->. exact I. Qed.

Lemma bufferOk_step p c :
  is_byte c -> bufferOk p -> bufferOk (processByte p c).1.
Proof.
  intros Hc. destruct p as [sp lp cp kp bp ip hp].
  unfold bufferOk, processByte.
  cbn [state len cmd checksum payload payloadIdx onMessage setState fst].
  destruct sp; cbn [fst state len cmd checksum payload payloadIdx setState].
  - intros _. destruct (c =? 36); exact I.
  - intros _. destruct (c =? 77); exact I.
  - intros _. destruct (c =? 62); exact I.
  - intros _. eexists. split; [reflexivity|]. split; [|reflexivity].
    rewrite length_replicate. unfold is_byte in Hc. lia.
  - intros (elems & -> & Hlen & ->).
    destruct (Z.ltb_spec 0 lp); [|exact I].
    exists elems. cbn. auto with lia.
  - intros (elems & -> & Hlen & Hidx).
    destruct (Z.geb_spec (Z.of_nat (S ip)) lp) as [Hge | Hlt]; [exact I|].
    exists (<[ip := Js.toUint8 c]> elems). cbn [bufferSet].
    rewrite length_insert. auto.
  - intros _. exact I.
Qed.

Lemma bufferOk_parse data : forall p,
  Forall is_byte data -> bufferOk p -> bufferOk (parse p data).1.
Proof.
  induction data as [|c data IH]; intros p Hbytes Hok; [exact Hok|].
  apply Forall_cons in Hbytes as [Hc Hbytes].
  rewrite parse_cons_fst. apply IH; [assumption|].
  apply bufferOk_step; assumption.
Qed.

(** *** Return to [S_IDLE] *)

Lemma bytesToIdle_step p c :
  is_byte c -> bufferOk p -> state p <> S_IDLE ->
  (bytesToIdle (processByte p c).1 < bytesToIdle p)%nat.
Proof.
  intros Hc. destruct p as [sp lp cp kp bp ip hp].
  unfold bufferOk, bytesToIdle, processByte. unfold is_byte in Hc.
  cbn [state len cmd checksum payload payloadIdx onMessage setState fst].
  destruct sp; cbn [fst state len cmd checksum payload payloadIdx setState];
    intros Hok Hne; try congruence.
  - destruct (c =? 77); lia.
  - destruct (c =? 62); cbn; lia.
  - lia.
  - destruct (0 <? lp); lia.
  - destruct Hok as (elems & _ & _ & Hidx).
    destruct (Z.geb_spec (Z.of_nat (S ip)) lp); lia.
  - lia.
Qed.

Lemma idle_within n : forall p data,
  bufferOk p -> Forall is_byte data ->
  (bytesToIdle p <= n)%nat -> (n <= length data)%nat ->
  exists k, (k <= n)%nat /\ state (parse p (take k data)).1 = S_IDLE.
Proof.
  induction n as [|n IH]; intros p data Hok Hbytes Hdist Hlen.
  - exists 0%nat. split; [lia|]. rewrite take_0. cbn.
    destruct p as [sp lp cp kp bp ip hp]. unfold bytesToIdle in Hdist.
    cbn [state len payloadIdx] in *. destruct sp; (reflexivity || lia).
  - assert (Hcases : state p = S_IDLE \/ state p <> S_IDLE)
      by (destruct (state p); auto; right; discriminate).
    destruct Hcases as [Hidle | Hbusy].
    { exists 0%nat. split; [lia|]. rewrite take_0. exact Hidle. }
    destruct data as [|c data]; [cbn in Hlen; lia|].
    apply Forall_cons in Hbytes as [Hc Hbytes].
    pose proof (bytesToIdle_step p c Hc Hok Hbusy) as Hless.
    destruct (IH (processByte p c).1 data) as (k & Hk & Hst).
    + apply bufferOk_step; assumption.
    + assumption.
    + lia.
    + cbn in Hlen. lia.
    + exists (S k). split; [lia|].
      rewrite firstn_cons, parse_cons_fst. exact Hst.
Qed.

Lemma lenOk_step p c : is_byte c -> lenOk p -> lenOk (processByte p c).1.
Proof.
  intros Hc. destruct p as [sp lp cp kp bp ip hp].
  unfold lenOk, processByte. unfold is_byte in Hc.
  cbn [state len cmd checksum payload payloadIdx onMessage setState fst].
  destruct sp; cbn [fst state len setState]; intros Hok.
  - destruct (c =? 36); exact I.
  - destruct (c =? 77); exact I.
  - destruct (c =? 62); exact I.
  - lia.
  - destruct (0 <? lp); [exact Hok | exact I].
  - destruct (_ >=? lp); [exact I | exact Hok].
  - exact I.
Qed.

Lemma lenOk_parse data : forall p,
  Forall is_byte data -> lenOk p -> lenOk (parse p data).1.
Proof.
  induction data as [|c data IH]; intros p Hbytes Hok; [exact Hok|].
  apply Forall_cons in Hbytes as [Hc Hbytes].
  rewrite parse_cons_fst. apply IH; [assumption|].
  apply lenOk_step; assumption.
Qed.

Lemma bytesToIdle_bound p : lenOk p -> (bytesToIdle p <= 260)%nat.
Proof.
  destruct p as [sp lp cp kp bp ip hp]. unfold bytesToIdle, lenOk.
  cbn [state len payloadIdx]. destruct sp; intros Hl; lia.
Qed.

(** From [S_IDLE], after any bytes, the parser is in [S_IDLE] again within
    the next 260 bytes. *)
Lemma idle_within_frame p junk data :
  state p = S_IDLE -> Forall is_byte junk -> Forall is_byte data ->
  (260 <= length data)%nat ->
  exists k, (k <= 260)%nat /\
    state (parse p (junk ++ take k data)).1 = S_IDLE.
Proof.
  intros Hidle Hjunk Hdata Hlen.
  destruct (idle_within 260 (parse p junk).1 data) as (k & Hk & Hst).
  - apply bufferOk_parse; [assumption | apply bufferOk_idle; assumption].
  - assumption.
  - apply bytesToIdle_bound, lenOk_parse; [assumption|].
    unfold lenOk. rewrite Hidle. exact I.
  - assumption.
  - exists k. split; [assumption|]. rewrite parse_app_fst. exact Hst.
Qed.

(** *** The decoder *)

(** C1.  A valid response frame for command [c] and payload [P], delivered
    to a parser that is in [S_IDLE] with a handler registered, cut into
    chunks at any points, is handed to the handler exactly once, as the
    message with command [c] and payload [P]. *)
Theorem parse_response_frame_chunked p c P chunks :
  state p = S_IDLE -> is_Some (onMessage p) ->
  is_byte c -> Forall is_byte P -> (length P <= 255)%nat ->
  concat chunks = responseFrame c P ->
  (feed p chunks).2 = [mkMessage c (Uint8Array P)].
Proof.
  intros Hidle Hh Hc HP Hlen Hsplit.
  rewrite feed_concat, Hsplit. unfold responseFrame.
  rewrite parse_frameWith by assumption. cbn [snd].
  rewrite Z.eqb_refl, bool_decide_eq_true_2 by assumption. reflexivity.
Qed.

Lemma parse_response_frame_chunked_witness :
  (feed (setOnMessage (Some handleMessage) constructor)
        [[0x24; 0x4D]; [0x3E; 6; 108; 1; 2]; []; [3; 4; 5; 6; 109]]).2
  = [mkMessage 108 (Uint8Array [1; 2; 3; 4; 5; 6])].
Proof.
  apply (parse_response_frame_chunked
           (setOnMessage (Some handleMessage) constructor) 108 [1; 2; 3; 4; 5; 6]).
  - reflexivity.
  - exists handleMessage. reflexivity.
  - unfold is_byte. lia.
  - repeat constructor; unfold is_byte; lia.
  - cbn. lia.
  - reflexivity.
Defined.

(** C2.  For a command code that is a byte, [mspEncode] returns the six
    bytes '$' 'M' '<' 0 cmd cmd. *)
Theorem mspEncode_bytes c :
  is_byte c -> mspEncode c = Uint8Array [0x24; 0x4D; 0x3C; 0x00; c; c].
Proof.
  intros Hc. unfold mspEncode. cbn [map].
  assert (H0 : is_byte 0) by (unfold is_byte; lia).
  rewrite bxor_byte, Z.lxor_0_l, band_byte by assumption.
  rewrite (toUint8_byte c) by assumption. reflexivity.
Qed.

Lemma mspEncode_bytes_witness :
  is_byte 108 /\
  mspEncode 108 = Uint8Array [0x24; 0x4D; 0x3C; 0x00; 0x6C; 0x6C].
Proof.
  split; [unfold is_byte; lia|].
  apply (mspEncode_bytes 108). unfold is_byte. lia.
Defined.

(** C3, as the specification states it, fails: one stray sync byte, or a
    misframed header declaring five payload bytes, in front of a valid
    frame makes the decoder consume that frame without handing it over. *)
Lemma stray_bytes_swallow_next_frame :
  let p := setOnMessage (Some handleMessage) constructor in
  (parse p (responseFrame 1 [])).2 = [mkMessage 1 (Uint8Array [])] /\
  (parse p ([0x24] ++ responseFrame 1 [])).2 = [] /\
  (parse p ([0x24; 0x4D; 0x3E; 5] ++ responseFrame 1 [])).2 = [].
Proof. repeat split; vm_compute; reflexivity. Qed.

(** C3, amended.  Whatever bytes came before, a valid response frame that
    begins when the decoder is in [S_IDLE] is handed to the handler and
    leaves the decoder in [S_IDLE]; the decoder is put in [S_IDLE] by the
    very byte that breaks the sync sequence and by any checksum byte; and
    from there on, after any bytes, it is in [S_IDLE] again within the next
    260 bytes (the length of the longest frame after its sync byte). *)
Theorem frame_from_idle_is_decoded p pre c P :
  is_Some (onMessage p) -> state (parse p pre).1 = S_IDLE ->
  is_byte c -> Forall is_byte P -> (length P <= 255)%nat ->
  (parse p (pre ++ responseFrame c P)).2
    = (parse p pre).2 ++ [mkMessage c (Uint8Array P)] /\
  state (parse p (pre ++ responseFrame c P)).1 = S_IDLE /\
  (forall q b,
     (state q = S_HEADER_M /\ b <> 0x4D) \/ (state q = S_DIR /\ b <> 0x3E)
     \/ state q = S_CHECKSUM ->
     state (processByte q b).1 = S_IDLE) /\
  (forall junk data,
     Forall is_byte junk -> Forall is_byte data -> (260 <= length data)%nat ->
     exists k, (k <= 260)%nat /\
       state (parse (parse p pre).1 (junk ++ take k data)).1 = S_IDLE).
Proof.
  intros Hh Hidle Hc HP Hlen.
  assert (Hkeep : forall data q, onMessage (parse q data).1 = onMessage q).
  { induction data as [|b data IH]; intros q; [reflexivity|].
    rewrite parse_cons_fst, IH.
    destruct q as [sq lq cq kq bq iq hq]. unfold processByte.
    cbn [state onMessage]. destruct sq; cbn;
      repeat match goal with |- context [if ?x then _ else _] => destruct x end;
      reflexivity. }
  rewrite parse_app_snd, parse_app_fst. unfold responseFrame.
  rewrite parse_frameWith by assumption. cbn [fst snd state].
  rewrite Hkeep, Z.eqb_refl, bool_decide_eq_true_2 by assumption.
  split; [reflexivity|]. split; [reflexivity|]. split.
  - intros q b Hq. destruct q as [sq lq cq kq bq iq hq]. cbn [state] in Hq.
    unfold processByte. cbn [state].
    destruct Hq as [[-> Hb] | [[-> Hb] | ->]]; cbn.
    + apply Z.eqb_neq in Hb. rewrite Hb. reflexivity.
    + apply Z.eqb_neq in Hb. rewrite Hb. reflexivity.
    + reflexivity.
  - intros junk data Hjunk Hdata Hlong.
    apply idle_within_frame; assumption.
Qed.

Lemma frame_from_idle_is_decoded_witness :
  let p := setOnMessage (Some handleMessage) constructor in
  let pre := [0x24; 0x24; 0x4D; 0x3E; 0; 7; 9] in
  (parse p (pre ++ responseFrame 1 [])).2 = [mkMessage 1 (Uint8Array [])].
Proof.
  intros p pre.
  apply (frame_from_idle_is_decoded p pre 1 []).
  - exists handleMessage. reflexivity.
  - reflexivity.
  - unfold is_byte. lia.
  - constructor.
  - cbn. lia.
Defined.

(** C5.  A byte other than the low eight bits of the accumulator, received
    in [S_CHECKSUM], puts the parser in [S_IDLE] without calling the handler;
    a frame whose checksum byte is wrong yields no message, and a valid
    frame fed right after it is decoded. *)
Theorem bad_checksum_drops_frame p c P x c' P' :
  state p = S_IDLE -> is_Some (onMessage p) ->
  is_byte c -> Forall is_byte P -> (length P <= 255)%nat ->
  is_byte c' -> Forall is_byte P' -> (length P' <= 255)%nat ->
  x <> frameChecksum c P ->
  (forall q b, state q = S_CHECKSUM -> b <> Js.band (checksum q) 0xFF ->
     processByte q b = (setState S_IDLE q, [])) /\
  (parse p (frameWith c P x)).2 = [] /\
  state (parse p (frameWith c P x)).1 = S_IDLE /\
  (parse p (frameWith c P x ++ responseFrame c' P')).2
    = [mkMessage c' (Uint8Array P')].
Proof.
  intros Hidle Hh Hc HP Hlen Hc' HP' Hlen' Hx.
  assert (Hne : (frameChecksum c P =? x) = false) by (apply Z.eqb_neq; congruence).
  split.
  { intros q b Hq Hb. unfold processByte. rewrite Hq.
    replace (Js.band (checksum q) 255 =? b) with false
      by (symmetry; apply Z.eqb_neq; congruence).
    reflexivity. }
  rewrite parse_app_snd. unfold responseFrame.
  rewrite (parse_frameWith p c P x) by assumption. cbn [fst snd state].
  rewrite Hne. cbn [andb]. split; [reflexivity|]. split; [reflexivity|].
  rewrite parse_frameWith by (assumption || reflexivity). cbn [snd onMessage].
  rewrite Z.eqb_refl, bool_decide_eq_true_2 by assumption. reflexivity.
Qed.

Lemma bad_checksum_drops_frame_witness :
  let p := setOnMessage (Some handleMessage) constructor in
  (parse p (frameWith 108 [1; 2] 0)).2 = [] /\
  (parse p (frameWith 108 [1; 2] 0 ++ responseFrame 105 [7])).2
    = [mkMessage 105 (Uint8Array [7])].
Proof.
  intros p.
  assert (H : is_byte 108 /\ is_byte 105 /\ Forall is_byte [1; 2]
              /\ Forall is_byte [7]).
  { repeat split; repeat constructor; unfold is_byte; lia. }
  destruct H as (H1 & H2 & H3 & H4).
  destruct (bad_checksum_drops_frame p 108 [1; 2] 0 105 [7]) as (_ & Ha & _ & Hb).
  - reflexivity.
  - exists handleMessage. reflexivity.
  - exact H1.
  - exact H3.
  - cbn. lia.
  - exact H2.
  - exact H4.
  - cbn. lia.
  - vm_compute. discriminate.
  - split; [exact Ha | exact Hb].
Defined.

(** C8.  [reset] only sets the state to [S_IDLE] and leaves the length,
    command, checksum, payload and index of the interrupted frame in place;
    all the same, whatever state and scratch fields the parser had, after
    [reset] it hands its handler the same messages, for every later input,
    as a newly constructed parser with that handler registered. *)
Theorem reset_behaves_as_new p data :
  (parse (reset p) data).2
    = (parse (setOnMessage (onMessage p) constructor) data).2 /\
  state (reset p) = S_IDLE /\
  len (reset p) = len p /\ cmd (reset p) = cmd p /\
  checksum (reset p) = checksum p /\ payload (reset p) = payload p /\
  payloadIdx (reset p) = payloadIdx p.
Proof.
  split; [apply sameFrom_parse, sameFrom_reset_new|].
  repeat split.
Qed.

(** C9.  Fed bytes from [S_IDLE] (a new parser, or any parser after
    [reset]), whenever the parser is in [S_PAYLOAD] its payload is a
    [Uint8Array] of exactly the declared length and the write index is below
    it, so the byte processed next is stored inside the buffer.  [S_PAYLOAD]
    is entered only from [S_CMD] with a positive declared length, and
    [S_CMD] only from [S_LEN], which allocates the buffer and zeroes the
    index. *)
Theorem payload_store_in_bounds p data :
  state p = S_IDLE -> Forall is_byte data ->
  (state (parse p data).1 = S_PAYLOAD ->
   exists elems,
     payload (parse p data).1 = Uint8Array elems /\
     Z.of_nat (length elems) = len (parse p data).1 /\
     (payloadIdx (parse p data).1 < length elems)%nat /\
     forall c,
       payload (processByte (parse p data).1 c).1
       = Uint8Array (<[payloadIdx (parse p data).1 := Js.toUint8 c]> elems)) /\
  (forall q b, state (processByte q b).1 = S_PAYLOAD ->
     (state q = S_CMD /\ 0 < len q) \/ state q = S_PAYLOAD) /\
  (forall q b, state (processByte q b).1 = S_CMD ->
     state q = S_LEN /\ len (processByte q b).1 = b /\
     payload (processByte q b).1 = Uint8Array (replicate (Z.to_nat b) 0) /\
     payloadIdx (processByte q b).1 = 0%nat).
Proof.
  intros Hidle Hbytes. split; [|split].
  - intros Hst.
    pose proof (bufferOk_parse data p Hbytes (bufferOk_idle p Hidle)) as Hok.
    unfold bufferOk in Hok. rewrite Hst in Hok.
    destruct Hok as (elems & Hbuf & Hlen & Hidx).
    exists elems. repeat split; [assumption | assumption | lia |].
    intros c. unfold processByte. rewrite Hst. cbn [fst payload].
    rewrite Hbuf. reflexivity.
  - intros q b. destruct q as [sq lq cq kq bq iq hq]. unfold processByte.
    cbn [state len]. destruct sq; cbn [fst state setState];
      repeat match goal with
             | |- context [if ?x then _ else _] => destruct x eqn:?
             end; cbn [state]; try discriminate; intros _.
    + left. split; [reflexivity|]. apply Z.ltb_lt. assumption.
    + right. reflexivity.
  - intros q b. destruct q as [sq lq cq kq bq iq hq]. unfold processByte.
    cbn [state len]. destruct sq; cbn [fst state setState len payload payloadIdx];
      repeat match goal with
             | |- context [if ?x then _ else _] => destruct x eqn:?
             end; cbn [state]; try discriminate; intros _.
    repeat split.
Qed.

Lemma payload_store_in_bounds_witness :
  let q := (parse (reset constructor) [0x24; 0x4D; 0x3E; 3; 108; 9]).1 in
  exists elems,
    payload q = Uint8Array elems /\ (payloadIdx q < length elems)%nat.
Proof.
  intros q. subst q.
  destruct (payload_store_in_bounds (reset constructor)
              [0x24; 0x4D; 0x3E; 3; 108; 9]) as (Hstore & _ & _).
  - reflexivity.
  - repeat constructor; unfold is_byte; lia.
  - destruct Hstore as (elems & H1 & _ & H2 & _); [reflexivity|].
    exists elems. split; assumption.
Defined.

(** *** The payload accessors *)

Lemma lor_shiftl_add a b n :
  0 <= n -> 0 <= a < 2 ^ n -> Z.lor a (Z.shiftl b n) = a + b * 2 ^ n.
Proof.
  intros Hn Ha.
  assert (Hdisj : Z.land a (Z.shiftl b n) = 0).
  { apply Z.bits_inj'. intros m Hm. rewrite Z.land_spec, Z.bits_0.
    destruct (Z.lt_ge_cases m n) as [Hlt | Hge].
    - rewrite (Z.shiftl_spec_low b n m Hlt). apply andb_false_r.
    - replace a with (a mod 2 ^ n) by (apply Z.mod_small; exact Ha).
      rewrite Z.mod_pow2_bits_high by lia. reflexivity. }
  rewrite <- Z.lxor_lor by exact Hdisj.
  rewrite <- Z.add_nocarry_lxor by exact Hdisj.
  rewrite Z.shiftl_mul_pow2 by exact Hn. reflexivity.
Qed.

Lemma shl_byte b n :
  is_byte b -> 0 <= n <= 16 -> Js.shl b n = b * 2 ^ n.
Proof.
  intros Hb Hn. unfold Js.shl, is_byte in *.
  rewrite (Z.mod_small n 32) by lia.
  rewrite (toInt32_signed b) by lia.
  rewrite Z.shiftl_mul_pow2 by lia.
  assert (0 < 2 ^ n <= 2 ^ 16) by (split; [apply Z.pow_pos_nonneg; lia | apply Z.pow_le_mono_r; lia]).
  apply toInt32_signed. nia.
Qed.

(** [b << 24] on a byte: the top bit of [b] becomes the sign. *)
Lemma shl24_byte b :
  is_byte b ->
  Js.shl b 24 = Z.shiftl (if b <? 128 then b else b - 256) 24.
Proof.
  intros Hb. unfold Js.shl, is_byte in *.
  change (24 mod 32) with 24.
  rewrite (toInt32_signed b) by lia.
  rewrite !Z.shiftl_mul_pow2 by lia.
  unfold Js.toInt32. destruct (Z.ltb_spec b 128).
  - rewrite Z.mod_small; lia.
  - replace (b * 2 ^ 24 + 2 ^ 31) with ((b * 2 ^ 24 - 2 ^ 31) + 1 * 2 ^ 32) by lia.
    rewrite Z.mod_add by lia. rewrite Z.mod_small; lia.
Qed.

Section Accessors.

Variables (elems : list Z) (offset : nat).
Hypothesis elems_bytes : Forall is_byte elems.

Lemma lookup_byte i b : elems !! i = Some b -> is_byte b.
Proof.
  intros Hi. eapply (proj1 (Forall_lookup _ _)); eassumption.
Qed.

Lemma readU8_value b0 :
  elems !! offset = Some b0 ->
  readU8 (Uint8Array elems) offset = Some b0 /\ is_byte b0.
Proof. intros H0. split; [exact H0 | eapply lookup_byte; exact H0]. Qed.

Lemma readU16_value b0 b1 :
  elems !! offset = Some b0 -> elems !! (offset + 1)%nat = Some b1 ->
  readU16 (Uint8Array elems) offset = b0 + 256 * b1.
Proof.
  intros H0 H1. unfold readU16. cbn [bufferGet]. rewrite H0, H1.
  pose proof (lookup_byte _ _ H0) as Hb0. pose proof (lookup_byte _ _ H1) as Hb1.
  cbn [Js.int32_of]. unfold is_byte in *.
  rewrite !toInt32_signed by lia.
  rewrite shl_byte by (unfold is_byte; lia).
  unfold Js.bor. rewrite !toInt32_signed by lia.
  rewrite <- (Z.shiftl_mul_pow2 b1 8) by lia.
  rewrite lor_shiftl_add by lia. lia.
Qed.

Lemma readS16_value b0 b1 :
  elems !! offset = Some b0 -> elems !! (offset + 1)%nat = Some b1 ->
  readS16 (Uint8Array elems) offset
  = if 32767 <? b0 + 256 * b1 then b0 + 256 * b1 - 65536 else b0 + 256 * b1.
Proof.
  intros H0 H1. unfold readS16. rewrite (readU16_value b0 b1) by assumption.
  reflexivity.
Qed.

(** [readU32] assembles the four bytes, but as a signed 32-bit value: with
    the top bit of the last byte set the result is the little-endian value
    minus 2^32. *)
Lemma readU32_value b0 b1 b2 b3 :
  elems !! offset = Some b0 -> elems !! (offset + 1)%nat = Some b1 ->
  elems !! (offset + 2)%nat = Some b2 -> elems !! (offset + 3)%nat = Some b3 ->
  readU32 (Uint8Array elems) offset
  = if b3 <? 128
    then b0 + 256 * b1 + 65536 * b2 + 16777216 * b3
    else b0 + 256 * b1 + 65536 * b2 + 16777216 * b3 - 2 ^ 32.
Proof.
  intros H0 H1 H2 H3. unfold readU32. cbn [bufferGet].
  rewrite H0, H1, H2, H3.
  pose proof (lookup_byte _ _ H0) as Hb0. pose proof (lookup_byte _ _ H1) as Hb1.
  pose proof (lookup_byte _ _ H2) as Hb2. pose proof (lookup_byte _ _ H3) as Hb3.
  cbn [Js.int32_of]. unfold is_byte in *.
  rewrite !toInt32_signed by lia.
  rewrite (shl_byte b1 8), (shl_byte b2 16), (shl24_byte b3)
    by (unfold is_byte; lia).
  unfold Js.bor.
  rewrite (toInt32_signed b0), (toInt32_signed (b1 * 2 ^ 8)) by lia.
  rewrite <- (Z.shiftl_mul_pow2 b1 8) by lia.
  rewrite lor_shiftl_add by lia.
  rewrite (toInt32_signed (b0 + b1 * 2 ^ 8)),
          (toInt32_signed (b2 * 2 ^ 16)) by lia.
  rewrite <- (Z.shiftl_mul_pow2 b2 16) by lia.
  rewrite lor_shiftl_add by lia.
  rewrite (toInt32_signed (b0 + b1 * 2 ^ 8 + b2 * 2 ^ 16)) by lia.
  destruct (Z.ltb_spec b3 128).
  - rewrite (toInt32_signed (Z.shiftl b3 24))
      by (rewrite Z.shiftl_mul_pow2; lia).
    rewrite lor_shiftl_add by lia. lia.
  - rewrite (toInt32_signed (Z.shiftl (b3 - 256) 24))
      by (rewrite Z.shiftl_mul_pow2; lia).
    rewrite lor_shiftl_add by lia. lia.
Qed.

End Accessors.

(** C4, where the code departs from it: on the payload [0, 0, 0, 128] at
    offset 0, whose unsigned little-endian value is 2147483648, [readU32]
    returns -2147483648. *)
Theorem readU32_top_bit_is_sign :
  readU32 (Uint8Array [0; 0; 0; 128]) 0 = -2147483648 /\
  0 + 256 * 0 + 65536 * 0 + 16777216 * 128 = 2147483648.
Proof. split; reflexivity. Qed.

End MspProofs.

(** * Properties of cli.js and the capture logic *)

Module AppProofs.
Import Text App.






Section Protocol.

Context {textDecoder : TextDecoder}.

Lemma switchToCli_routing : RoutingSwitch switchToCli.
Proof. exists RouteCli. reflexivity. Qed.

Lemma switchToMsp_routing : RoutingSwitch switchToMsp.
Proof. exists RouteMsp. reflexivity. Qed.

(** How each step of a mode switch acts on the mode, the log and the
    writer. *)
Lemma cli_sleep ms w : cli (sleep ms w) = cli w.
Proof. reflexivity. Qed.

Lemma cli_serialWrite data w : cli (serialWrite data w) = cli w.
Proof. destruct w as [c [wr orc] t p d r]. destruct wr; reflexivity. Qed.

Lemma cli_setOnReceive r w : cli (setOnReceive r w) = cli w.
Proof. reflexivity. Qed.

Lemma inCliMode_setInCliMode b w : inCliMode (cli (setInCliMode b w)) = b.
Proof. reflexivity. Qed.

Lemma trace_sleep ms w : trace (rt (sleep ms w)) = trace (rt w) ++ [EvSleep ms].
Proof. reflexivity. Qed.

Lemma trace_serialWrite data w :
  trace (rt (serialWrite data w)) = trace (rt w) ++ [EvSerialWrite data].
Proof. destruct w as [c [wr orc] t p d r]. destruct wr; reflexivity. Qed.

Lemma trace_setOnReceive r w : trace (rt (setOnReceive r w)) = trace (rt w).
Proof. reflexivity. Qed.

Lemma trace_setInCliMode b w : trace (rt (setInCliMode b w)) = trace (rt w).
Proof. reflexivity. Qed.

Lemma writer_sleep ms w : writer (serial (sleep ms w)) = writer (serial w).
Proof. reflexivity. Qed.

Lemma writer_serialWrite data w :
  writer (serial (serialWrite data w))
  = (fun written => written ++ [data]) <$> writer (serial w).
Proof. destruct w as [c [wr orc] t p d r]. destruct wr; reflexivity. Qed.

Lemma writer_setOnReceive r w :
  writer (serial (setOnReceive r w)) = writer (serial w).
Proof. reflexivity. Qed.

Lemma writer_setInCliMode b w :
  writer (serial (setInCliMode b w)) = writer (serial w).
Proof. reflexivity. Qed.

Lemma encode_exit : encode ("exit" +:+ CRLF) = [0x65; 0x78; 0x69; 0x74; 0x0D; 0x0A].
Proof. reflexivity. Qed.

Lemma enterCli_from_telemetry sw w :
  inCliMode (cli w) = false ->
  enterCli sw w = sleep 100 (serialWrite [0x23] (sw (setInCliMode true w))).
Proof. intros Hmode. unfold enterCli. rewrite Hmode. reflexivity. Qed.

Lemma exitCli_from_cli sw w :
  inCliMode (cli w) = true ->
  exitCli sw w = sw (setInCliMode false (sleep 200 (sendCommand "exit" w))).
Proof. intros Hmode. unfold exitCli. rewrite Hmode. reflexivity. Qed.

(** C6.  From telemetry mode, [enterCli] then [exitCli] with nothing in
    between leaves [inCliMode] as it was and makes exactly two writes on the
    transport, first the byte 0x23 and then "exit" CR LF (each followed by
    its settle delay); and each of the two is a no-op when the module is
    already in the mode it leads to. *)
Theorem enter_then_exit sw1 sw2 w :
  RoutingSwitch sw1 -> RoutingSwitch sw2 -> inCliMode (cli w) = false ->
  let w' := exitCli sw2 (enterCli sw1 w) in
  inCliMode (cli w') = inCliMode (cli w) /\
  trace (rt w') = trace (rt w) ++
    [EvSerialWrite [0x23]; EvSleep 100;
     EvSerialWrite [0x65; 0x78; 0x69; 0x74; 0x0D; 0x0A]; EvSleep 200] /\
  writesOf (trace (rt w')) = writesOf (trace (rt w)) ++
    [[0x23]; [0x65; 0x78; 0x69; 0x74; 0x0D; 0x0A]] /\
  (forall written, writer (serial w) = Some written ->
     writer (serial w') =
     Some (written ++ [[0x23]; [0x65; 0x78; 0x69; 0x74; 0x0D; 0x0A]])) /\
  (forall v, inCliMode (cli v) = true -> enterCli sw1 v = v) /\
  (forall v, inCliMode (cli v) = false -> exitCli sw2 v = v).
Proof.
  intros [r1 Hsw1] [r2 Hsw2] Hmode w'.
  assert (Hw' : w' = setOnReceive r2 (setInCliMode false (sleep 200
                  (serialWrite [0x65; 0x78; 0x69; 0x74; 0x0D; 0x0A]
                  (sleep 100 (serialWrite [0x23]
                  (setOnReceive r1 (setInCliMode true w)))))))).
  { subst w'. rewrite (enterCli_from_telemetry sw1 w Hmode), Hsw1.
    rewrite exitCli_from_cli, Hsw2.
    - unfold sendCommand. rewrite encode_exit. reflexivity.
    - rewrite cli_sleep, cli_serialWrite, cli_setOnReceive.
      apply inCliMode_setInCliMode. }
  assert (Htrace : trace (rt w') = trace (rt w) ++
    [EvSerialWrite [0x23]; EvSleep 100;
     EvSerialWrite [0x65; 0x78; 0x69; 0x74; 0x0D; 0x0A]; EvSleep 200]).
  { rewrite Hw'.
    rewrite trace_setOnReceive, trace_setInCliMode, trace_sleep,
      trace_serialWrite, trace_sleep, trace_serialWrite, trace_setOnReceive,
      trace_setInCliMode.
    rewrite <- !app_assoc. reflexivity. }
  split; [|split; [exact Htrace|split; [|split; [|split]]]].
  - rewrite Hw', cli_setOnReceive, inCliMode_setInCliMode. congruence.
  - rewrite Htrace. unfold writesOf. rewrite omap_app. reflexivity.
  - intros written Hwr. rewrite Hw'.
    rewrite writer_setOnReceive, writer_setInCliMode, writer_sleep,
      writer_serialWrite, writer_sleep, writer_serialWrite,
      writer_setOnReceive, writer_setInCliMode, Hwr.
    cbn. rewrite <- app_assoc. reflexivity.
  - intros v Hv. unfold enterCli. rewrite Hv. reflexivity.
  - intros v Hv. unfold exitCli. rewrite Hv. reflexivity.
Qed.


(** C10.  While [inCliMode] is false, [cliParse] does nothing with the
    bytes it is given: the world is unchanged, so the receiver is not
    called, nothing is decoded and the decoder keeps its state. *)
Theorem cliParse_ignored_in_telemetry data w :
  inCliMode (cli w) = false ->
  cliParse data w = w /\
  textsOf (trace (rt (cliParse data w))) = textsOf (trace (rt w)) /\
  decoder (cli (cliParse data w)) = decoder (cli w) /\
  term (cliParse data w) = term w.
Proof.
  intros Hmode.
  assert (Hsame : cliParse data w = w).
  { unfold cliParse. rewrite Hmode. reflexivity. }
  rewrite Hsame. auto.
Qed.

End Protocol.

Lemma enter_then_exit_witness :
  writer (serial (exitCli switchToMsp (enterCli switchToCli sampleWorld)))
  = Some [[0x23]; [0x65; 0x78; 0x69; 0x74; 0x0D; 0x0A]].
Proof.
  destruct (@enter_then_exit asciiDecoder switchToCli switchToMsp sampleWorld)
    as (_ & _ & _ & Hw & _).
  - apply switchToCli_routing.
  - apply switchToMsp_routing.
  - reflexivity.
  - apply (Hw []). reflexivity.
Defined.


Lemma cliParse_ignored_in_telemetry_witness :
  cliParse (encode "status") sampleWorld = sampleWorld.
Proof.
  apply (@cliParse_ignored_in_telemetry asciiDecoder (encode "status") sampleWorld).
  reflexivity.
Defined.

End AppProofs.

(** * The decoder on whole streams, and the accessors at any offset *)

Module MspMore.
Import Msp MspInv MspTrack MspProofs.

Lemma xorAll_snoc l c : xorAll (l ++ [c]) = Z.lxor (xorAll l) c.
Proof.
  induction l as [|a l IH]; cbn.
  - rewrite Z.lxor_0_r, Z.lxor_0_l. reflexivity.
  - unfold xorAll in IH. rewrite IH, Z.lxor_assoc. reflexivity.
Qed.

Lemma frameChecksum_alt c P :
  frameChecksum c P = Z.lxor (Z.lxor (Z.of_nat (length P)) c) (xorAll P).
Proof. unfold frameChecksum. cbn. rewrite Z.lxor_assoc. reflexivity. Qed.

Lemma tracks_step p seen c :
  is_byte c -> tracks p seen ->
  tracks (processByte p c).1 (seen ++ [c]) /\
  Forall (endsWithFrame (seen ++ [c])) (processByte p c).2.
Proof.
  intros Hc. destruct p as [sp lp cp kp bp ip hp].
  unfold tracks, processByte, sync.
  cbn [state len cmd checksum payload payloadIdx onMessage setState].
  destruct sp; cbn [fst snd state len cmd checksum payload payloadIdx setState].
  - intros _. split; [|constructor].
    destruct (Z.eqb_spec c 36) as [->|]; cbn; [eauto | exact I].
  - intros [pre ->]. split; [|constructor].
    destruct (Z.eqb_spec c 77) as [->|]; cbn; [|exact I].
    exists pre. rewrite <- app_assoc. reflexivity.
  - intros [pre ->]. split; [|constructor].
    destruct (Z.eqb_spec c 62) as [->|]; cbn; [|exact I].
    exists pre. rewrite <- app_assoc. reflexivity.
  - intros [pre ->]. split; [|constructor].
    exists pre. rewrite <- app_assoc. auto.
  - intros (pre & -> & Hl & -> & -> & ->). split; [|constructor].
    assert (Hx : Js.bxor lp c = Z.lxor lp c) by (apply bxor_byte; assumption).
    destruct (Z.ltb_spec 0 lp) as [Hpos | Hzero].
    + exists pre, []. rewrite Hx, <- !app_assoc. cbn [app length xorAll foldr].
      rewrite Z.lxor_0_r, Nat.sub_0_r.
      split; [reflexivity|]. repeat (split; [solve [auto | lia]|]). reflexivity.
    + assert (lp = 0) by byte_range. subst lp.
      exists pre, []. rewrite Hx, <- !app_assoc. cbn [app length replicate Z.to_nat].
      split; [reflexivity|]. repeat (split; [solve [auto | lia]|]).
      split; [|reflexivity]. unfold frameChecksum. cbn. rewrite Z.lxor_0_r. reflexivity.
  - intros (pre & stored & -> & Hl & Hcmd & Hst & Hlt & -> & -> & ->).
    split; [|constructor].
    assert (Hck : is_byte (Z.lxor (Z.lxor lp cp) (xorAll stored)))
      by auto using lxor_byte, xorAll_byte.
    rewrite bxor_byte by assumption.
    assert (Hstore :
      bufferSet (Uint8Array (stored ++ replicate (Z.to_nat lp - length stored) 0))
                (length stored) c
      = Uint8Array ((stored ++ [c]) ++
                    replicate (Z.to_nat lp - length (stored ++ [c])) 0)).
    { cbn [bufferSet]. rewrite toUint8_byte by assumption. f_equal.
      rewrite insert_app_r_alt by lia.
      replace (length stored - length stored)%nat with 0%nat by lia.
      rewrite length_app. cbn [length].
      replace (Z.to_nat lp - length stored)%nat
        with (S (Z.to_nat lp - (length stored + 1)))%nat by lia.
      cbn. rewrite <- app_assoc. reflexivity. }
    rewrite Hstore.
    destruct (Z.geb_spec (Z.of_nat (S (length stored))) lp) as [Hfull | Hmore].
    + exists pre, (stored ++ [c]).
      assert (Hlen : length (stored ++ [c]) = Z.to_nat lp)
        by (rewrite length_app; cbn; lia).
      rewrite Hlen, Nat.sub_diag. cbn [replicate]. rewrite app_nil_r.
      rewrite <- !app_assoc. cbn [app].
      assert (Hall : Forall is_byte (stored ++ [c])) by (apply Forall_app; auto).
      split; [reflexivity|]. split; [assumption|]. split; [assumption|].
      split; [byte_range|]. split; [byte_range|]. split; [|reflexivity].
      rewrite frameChecksum_alt, xorAll_snoc, Hlen, Z2Nat.id by byte_range.
      rewrite !Z.lxor_assoc. reflexivity.
    + exists pre, (stored ++ [c]).
      rewrite <- !app_assoc. cbn [app].
      assert (Hall : Forall is_byte (stored ++ [c])) by (apply Forall_app; auto).
      assert (Hlen : length (stored ++ [c]) = S (length stored))
        by (rewrite length_app; cbn; lia).
      split; [reflexivity|]. split; [assumption|]. split; [assumption|].
      split; [assumption|]. split; [lia|]. split; [|split; [reflexivity|lia]].
      rewrite xorAll_snoc, !Z.lxor_assoc. reflexivity.
  - intros (pre & P & -> & Hcmd & HP & -> & Hlen & -> & ->).
    split; [exact I|].
    assert (Hck : is_byte (frameChecksum cp P)).
    { unfold frameChecksum. apply xorAll_byte.
      constructor; [byte_range|]. constructor; assumption. }
    rewrite band_byte by assumption.
    destruct (Z.eqb_spec (frameChecksum cp P) c) as [<-|]; cbn [andb];
      [|constructor].
    destruct (bool_decide _); constructor; [|constructor].
    exists pre, P. cbn [msg_cmd msg_payload]. unfold responseFrame, frameWith.
    rewrite <- !app_assoc. cbn [app]. auto.
Qed.

Lemma tracks_parse data : forall p seen,
  Forall is_byte data -> tracks p seen ->
  Forall (fun m => exists k, endsWithFrame (seen ++ take k data) m)
         (parse p data).2.
Proof.
  induction data as [|c data IH]; intros p seen Hbytes Htr; [constructor|].
  apply Forall_cons in Hbytes as [Hc Hbytes].
  rewrite parse_cons_snd.
  destruct (tracks_step p seen c Hc Htr) as [Hnext Hout].
  apply Forall_app. split.
  - eapply Forall_impl; [exact Hout|]. intros m Hm. exists 1%nat. exact Hm.
  - eapply Forall_impl; [apply (IH _ _ Hbytes Hnext)|].
    intros m [k Hm]. exists (S k). cbn [take].
    rewrite <- app_assoc in Hm. exact Hm.
Qed.

(** X1. Starting from Idle and fed bytes, the MSP decoder only hands over
    messages that are in the stream: for every emitted message the input
    contains a complete response frame ($M>, length, command, payload, XOR
    checksum) with that command and payload; the command and payload are
    bytes and the payload has at most 255 of them. *)
Theorem emitted_frames_are_in_stream p data m :
  state p = S_IDLE -> Forall is_byte data -> m ∈ (parse p data).2 ->
  exists pre P post,
    data = pre ++ responseFrame (msg_cmd m) P ++ post /\
    msg_payload m = Uint8Array P /\
    is_byte (msg_cmd m) /\ Forall is_byte P /\ (length P <= 255)%nat.
Proof.
  intros Hidle Hbytes Hm.
  assert (Htr : tracks p []) by (unfold tracks; rewrite Hidle; exact I).
  pose proof (tracks_parse data p [] Hbytes Htr) as Hall.
  rewrite Forall_forall in Hall. destruct (Hall m Hm) as (k & pre & P & Heq & Hrest).
  exists pre, P, (drop k data). split; [|exact Hrest].
  rewrite app_assoc, <- Heq. cbn [app]. rewrite take_drop. reflexivity.
Qed.

Lemma emitted_frames_are_in_stream_witness :
  exists pre P post,
    [7; 0x24; 0x4D; 0x3E; 1; 108; 9; 100; 8]
      = pre ++ responseFrame 108 P ++ post /\
    Uint8Array [9] = Uint8Array P.
Proof.
  destruct (emitted_frames_are_in_stream
              (setOnMessage (Some handleMessage) constructor)
              [7; 0x24; 0x4D; 0x3E; 1; 108; 9; 100; 8]
              (mkMessage 108 (Uint8Array [9])))
    as (pre & P & post & H1 & H2 & _).
  - reflexivity.
  - repeat constructor; unfold is_byte; lia.
  - vm_compute. apply list_elem_of_here.
  - exists pre, P, post. split; assumption.
Defined.

(** X2. A stream of valid response frames sent back to back, fed to an Idle
    decoder that has a message handler, yields exactly one message per
    frame, in order, with the frame's command and payload, and leaves the
    decoder Idle. *)
Theorem parse_frames fs : forall p,
  state p = S_IDLE -> is_Some (onMessage p) -> Forall validFrame fs ->
  (parse p (framesOf fs)).2 = messagesOf fs /\
  state (parse p (framesOf fs)).1 = S_IDLE.
Proof.
  induction fs as [|[c P] fs IH]; intros p Hidle Hh Hvalid;
    [split; [reflexivity | exact Hidle]|].
  apply Forall_cons in Hvalid as [(Hc & HP & Hlen) Hvalid]. cbn [fst snd] in *.
  unfold framesOf, messagesOf. cbn [map concat fst snd].
  fold (framesOf fs). fold (messagesOf fs).
  rewrite parse_app_snd, parse_app_fst. unfold responseFrame at 1 2 3.
  rewrite parse_frameWith by assumption. cbn [fst snd].
  rewrite Z.eqb_refl, bool_decide_eq_true_2 by assumption. cbn [andb].
  destruct (IH (mkParser S_IDLE (Z.of_nat (length P)) c (frameChecksum c P)
                  (Uint8Array P) (length P) (onMessage p))) as [Hout Hst];
    [reflexivity | assumption | assumption |].
  rewrite Hout. split; [reflexivity | exact Hst].
Qed.

Lemma parse_frames_witness :
  (parse (setOnMessage (Some handleMessage) constructor)
         (framesOf [(108, [1; 2]); (105, []); (101, [7])])).2
  = messagesOf [(108, [1; 2]); (105, []); (101, [7])].
Proof.
  apply (parse_frames [(108, [1; 2]); (105, []); (101, [7])]).
  - reflexivity.
  - exists handleMessage. reflexivity.
  - repeat constructor; cbn; unfold is_byte; lia.
Defined.

(** X3. The decoder's result depends only on the byte stream, not on how it
    is cut into chunks: two chunk sequences with the same concatenation
    leave the same parser state and emit the same messages. *)
Theorem feed_ignores_chunking p chunks1 chunks2 :
  concat chunks1 = concat chunks2 -> feed p chunks1 = feed p chunks2.
Proof. intros Heq. rewrite !feed_concat, Heq. reflexivity. Qed.

Lemma feed_ignores_chunking_witness :
  feed constructor [[0x24; 0x4D]; [0x3E; 0]; [7; 7]]
  = feed constructor [[0x24]; []; [0x4D; 0x3E; 0; 7]; [7]].
Proof. apply feed_ignores_chunking. reflexivity. Defined.

Lemma mspEncode_elems c :
  is_byte c -> asUint8Array (mspEncode c) = [0x24; 0x4D; 0x3C; 0x00; c; c].
Proof.
  intros Hc. unfold mspEncode. cbn [asUint8Array map].
  assert (H0 : is_byte 0) by byte_range.
  rewrite bxor_byte, Z.lxor_0_l, band_byte by assumption.
  rewrite (toUint8_byte c) by assumption. reflexivity.
Qed.

(** X4. The frame mspEncode builds for a command byte is never taken for a
    response: fed to an Idle decoder it emits nothing and leaves the decoder
    exactly as it was (the direction byte '<' sends it back to Idle). *)
Theorem requests_are_not_decoded p c :
  state p = S_IDLE -> is_byte c ->
  (parse p (asUint8Array (mspEncode c))).2 = [] /\
  (parse p (asUint8Array (mspEncode c))).1 = p.
Proof.
  intros Hidle Hc. rewrite mspEncode_elems by assumption.
  destruct p as [sp lp cp kp bp ip hp]. cbn in Hidle. subst sp.
  do 4 (erewrite parse_silent by (unfold processByte; cbn; reflexivity)).
  destruct (Z.eqb_spec c 0x24) as [->|Hne].
  - vm_compute. auto.
  - apply Z.eqb_neq in Hne.
    erewrite parse_silent
      by (unfold processByte; cbn [state setState]; rewrite Hne; reflexivity).
    rewrite parse_last. unfold processByte. cbn [state setState].
    rewrite Hne. auto.
Qed.

Lemma requests_are_not_decoded_witness :
  (parse (setOnMessage (Some handleMessage) constructor)
         (asUint8Array (mspEncode 0x24))).2 = [].
Proof.
  apply (requests_are_not_decoded
           (setOnMessage (Some handleMessage) constructor) 0x24).
  - reflexivity.
  - unfold is_byte. lia.
Defined.

(** *** The accessors at any offset *)

Lemma byteAt_byte elems i : Forall is_byte elems -> is_byte (byteAt elems i).
Proof.
  intros Hall. unfold byteAt. destruct (elems !! i) as [b|] eqn:Hi; cbn.
  - eapply (proj1 (Forall_lookup _ _)); eassumption.
  - byte_range.
Qed.

Lemma int32_of_lookup elems i :
  Forall is_byte elems -> Js.int32_of (elems !! i) = byteAt elems i.
Proof.
  intros Hall. pose proof (byteAt_byte elems i Hall) as Hb. unfold byteAt in *.
  destruct (elems !! i) as [b|]; cbn in *; [|reflexivity].
  apply toInt32_signed. byte_range.
Qed.

Lemma bor_shl8 b0 b1 :
  is_byte b0 -> is_byte b1 -> Js.bor b0 (Js.shl b1 8) = b0 + 256 * b1.
Proof.
  intros H0 H1. rewrite shl_byte by (assumption || lia).
  unfold Js.bor. rewrite !toInt32_signed by byte_range.
  rewrite <- (Z.shiftl_mul_pow2 b1 8) by lia.
  rewrite lor_shiftl_add by byte_range. lia.
Qed.

Lemma bor_shl_u32 b0 b1 b2 b3 :
  is_byte b0 -> is_byte b1 -> is_byte b2 -> is_byte b3 ->
  Js.bor (Js.bor (Js.bor b0 (Js.shl b1 8)) (Js.shl b2 16)) (Js.shl b3 24)
  = Js.toInt32 (b0 + 256 * b1 + 65536 * b2 + 16777216 * b3).
Proof.
  intros H0 H1 H2 H3. rewrite bor_shl8 by assumption.
  rewrite (shl_byte b2 16), (shl24_byte b3) by (assumption || lia).
  unfold is_byte in *. unfold Js.bor at 2.
  rewrite (toInt32_signed (b0 + 256 * b1)), (toInt32_signed (b2 * 2 ^ 16)) by lia.
  rewrite <- (Z.shiftl_mul_pow2 b2 16) by lia.
  rewrite lor_shiftl_add by lia.
  unfold Js.bor.
  rewrite (toInt32_signed (b0 + 256 * b1 + b2 * 2 ^ 16)) by lia.
  destruct (Z.ltb_spec b3 128).
  - rewrite (toInt32_signed (Z.shiftl b3 24))
      by (rewrite Z.shiftl_mul_pow2; lia).
    rewrite lor_shiftl_add by lia.
    rewrite toInt32_signed by lia. lia.
  - rewrite (toInt32_signed (Z.shiftl (b3 - 256) 24))
      by (rewrite Z.shiftl_mul_pow2; lia).
    rewrite lor_shiftl_add by lia.
    unfold Js.toInt32.
    replace (b0 + 256 * b1 + 65536 * b2 + 16777216 * b3 + 2 ^ 31)
      with ((b0 + 256 * b1 + 65536 * b2 + 16777216 * b3 - 2 ^ 31) + 1 * 2 ^ 32)
      by lia.
    rewrite Z.mod_add by lia. rewrite Z.mod_small by lia. lia.
Qed.

Lemma readU16_byteAt elems offset :
  Forall is_byte elems ->
  readU16 (Uint8Array elems) offset
    = byteAt elems offset + 256 * byteAt elems (offset + 1).
Proof.
  intros Hall. unfold readU16. cbn [bufferGet].
  rewrite !int32_of_lookup by assumption.
  apply bor_shl8; apply byteAt_byte; assumption.
Qed.

(** X5. On a Uint8Array, at any offset, readU16 is byte[offset] +
    256*byte[offset+1] with a missing byte counting as 0, so it lies in
    0..65535; readS16 lies in -32768..32767 and is congruent to readU16
    modulo 65536; readU8 is undefined exactly when the offset is at or past
    the end. *)
Theorem read16_any_offset elems offset :
  Forall is_byte elems ->
  readU16 (Uint8Array elems) offset
    = byteAt elems offset + 256 * byteAt elems (offset + 1) /\
  0 <= readU16 (Uint8Array elems) offset <= 65535 /\
  - 32768 <= readS16 (Uint8Array elems) offset <= 32767 /\
  (readS16 (Uint8Array elems) offset) mod 65536
    = readU16 (Uint8Array elems) offset /\
  (readU8 (Uint8Array elems) offset = None <-> (length elems <= offset)%nat).
Proof.
  intros Hall.
  pose proof (byteAt_byte elems offset Hall) as H0.
  pose proof (byteAt_byte elems (offset + 1) Hall) as H1.
  pose proof (readU16_byteAt elems offset Hall) as HU.
  unfold readS16. rewrite HU. unfold is_byte in *.
  split; [reflexivity|]. split; [lia|].
  destruct (Z.ltb_spec 32767 (byteAt elems offset + 256 * byteAt elems (offset + 1))).
  - split; [lia|]. split.
    + replace (byteAt elems offset + 256 * byteAt elems (offset + 1) - 65536)
        with (byteAt elems offset + 256 * byteAt elems (offset + 1) + (-1) * 65536)
        by lia.
      rewrite Z.mod_add by lia. apply Z.mod_small. lia.
    + unfold readU8. cbn [bufferGet]. apply lookup_ge_None.
  - split; [lia|]. split.
    + apply Z.mod_small. lia.
    + unfold readU8. cbn [bufferGet]. apply lookup_ge_None.
Qed.

Lemma read16_any_offset_witness :
  readU16 (Uint8Array [1; 2; 3]) 2 = 3 /\ readS16 (Uint8Array [0; 128]) 0 = -32768.
Proof.
  split.
  - apply (read16_any_offset [1; 2; 3] 2). repeat constructor; unfold is_byte; lia.
  - reflexivity.
Defined.

(** The little-endian value of the four bytes at an offset. *)
Lemma readU32_byteAt elems offset :
  Forall is_byte elems ->
  readU32 (Uint8Array elems) offset
  = Js.toInt32 (byteAt elems offset + 256 * byteAt elems (offset + 1)
                + 65536 * byteAt elems (offset + 2)
                + 16777216 * byteAt elems (offset + 3)).
Proof.
  intros Hall. unfold readU32. cbn [bufferGet].
  rewrite !int32_of_lookup by assumption.
  apply bor_shl_u32; apply byteAt_byte; assumption.
Qed.

Lemma toInt32_range v : - 2 ^ 31 <= Js.toInt32 v < 2 ^ 31.
Proof.
  unfold Js.toInt32. pose proof (Z.mod_pos_bound (v + 2 ^ 31) (2 ^ 32)). lia.
Qed.

Lemma toInt32_mod v : Js.toInt32 v mod 2 ^ 32 = v mod 2 ^ 32.
Proof.
  unfold Js.toInt32. rewrite Zminus_mod_idemp_l. f_equal. lia.
Qed.

(** [flags & 1] is the low bit of the first byte, whatever the sign. *)
Lemma readU32_low_bit elems offset :
  Forall is_byte elems ->
  (Js.band (readU32 (Uint8Array elems) offset) 1 =? 0)
  = negb (Z.odd (byteAt elems offset)).
Proof.
  intros Hall. rewrite readU32_byteAt by assumption.
  set (value := byteAt elems offset + 256 * byteAt elems (offset + 1)
                + 65536 * byteAt elems (offset + 2)
                + 16777216 * byteAt elems (offset + 3)).
  unfold Js.band.
  rewrite (toInt32_signed (Js.toInt32 value)) by apply toInt32_range.
  rewrite (toInt32_signed 1) by lia.
  change 1 with (Z.ones 1). rewrite Z.land_ones by lia. change (2 ^ 1) with 2.
  assert (Hpar : Js.toInt32 value mod 2 = byteAt elems offset mod 2).
  { rewrite <- (Z.mod_mod_divide (Js.toInt32 value) (2 ^ 32) 2)
      by (exists (2 ^ 31); lia).
    rewrite toInt32_mod.
    rewrite (Z.mod_mod_divide value (2 ^ 32) 2) by (exists (2 ^ 31); lia).
    subst value.
    replace (byteAt elems offset + 256 * byteAt elems (offset + 1)
             + 65536 * byteAt elems (offset + 2)
             + 16777216 * byteAt elems (offset + 3))
      with (byteAt elems offset
            + (128 * byteAt elems (offset + 1) + 32768 * byteAt elems (offset + 2)
               + 8388608 * byteAt elems (offset + 3)) * 2) by lia.
    apply Z.mod_add. lia. }
  rewrite Hpar, Zmod_odd. destruct (Z.odd (byteAt elems offset)); reflexivity.
Qed.

(** X6. On a Uint8Array, at any offset, readU32 returns the little-endian
    value of the four bytes (missing bytes counting as 0) converted to a
    signed 32-bit number: it lies in -2^31..2^31-1, is congruent to the
    unsigned value modulo 2^32, and equals the unsigned value exactly when
    the fourth byte is below 128. *)
Theorem readU32_signed elems offset :
  Forall is_byte elems ->
  let value := byteAt elems offset + 256 * byteAt elems (offset + 1)
               + 65536 * byteAt elems (offset + 2)
               + 16777216 * byteAt elems (offset + 3) in
  readU32 (Uint8Array elems) offset = Js.toInt32 value /\
  - 2 ^ 31 <= readU32 (Uint8Array elems) offset < 2 ^ 31 /\
  (readU32 (Uint8Array elems) offset) mod 2 ^ 32 = value /\
  (readU32 (Uint8Array elems) offset = value <-> byteAt elems (offset + 3) < 128).
Proof.
  intros Hall value.
  pose proof (byteAt_byte elems offset Hall) as H0.
  pose proof (byteAt_byte elems (offset + 1) Hall) as H1.
  pose proof (byteAt_byte elems (offset + 2) Hall) as H2.
  pose proof (byteAt_byte elems (offset + 3) Hall) as H3.
  rewrite readU32_byteAt by assumption. fold value.
  assert (Hv : 0 <= value < 2 ^ 32) by (subst value; unfold is_byte in *; lia).
  pose proof (toInt32_range value) as Hrange.
  split; [reflexivity|]. split; [exact Hrange|]. split.
  - rewrite toInt32_mod. apply Z.mod_small. exact Hv.
  - split.
    + intros Heq. rewrite Heq in Hrange. subst value. unfold is_byte in *. lia.
    + intros Hlow. apply toInt32_signed. subst value. unfold is_byte in *. lia.
Qed.

Lemma readU32_signed_witness :
  readU32 (Uint8Array [1; 0; 0; 255]) 0 = Js.toInt32 4278190081.
Proof.
  apply (readU32_signed [1; 0; 0; 255] 0).
  repeat constructor; unfold is_byte; lia.
Defined.

End MspMore.

(** * The status bar *)

Module UtilProofs.
Import Text Util.

Lemma dom_setText id text (d : Dom) : dom (setText id text d) = dom d.
Proof.
  unfold setText. destruct (d !! id) as [old|] eqn:Hid; [|reflexivity].
  rewrite dom_insert_L.
  apply subseteq_union_1_L, singleton_subseteq_l, elem_of_dom. eauto.
Qed.

Lemma lookup_setText_ne id id' text (d : Dom) :
  id <> id' -> setText id text d !! id' = d !! id'.
Proof.
  intros Hne. unfold setText. destruct (d !! id); [|reflexivity].
  apply lookup_insert_ne. exact Hne.
Qed.

Lemma lookup_setText id text (d : Dom) :
  setText id text d !! id = (fun _ => text) <$> d !! id.
Proof.
  unfold setText. destruct (d !! id) eqn:Hid; cbn.
  - apply lookup_insert_eq.
  - exact Hid.
Qed.

(** X7. updateStatusBar never creates or removes an element and changes the
    text of no element other than bar-armed, bar-cycle, bar-cpu and
    bar-sensors; for a message whose command is not MSP_STATUS (101) it
    changes nothing. *)
Theorem updateStatusBar_frame msg (d : Dom) :
  dom (updateStatusBar msg d) = dom d /\
  (forall id, id ∉ ["bar-armed"; "bar-cycle"; "bar-cpu"; "bar-sensors"]%string ->
     updateStatusBar msg d !! id = d !! id) /\
  (Msp.msg_cmd msg <> 101 -> updateStatusBar msg d = d).
Proof.
  unfold updateStatusBar. split; [|split].
  - destruct (negb _); [reflexivity|]. cbv zeta. rewrite !dom_setText. reflexivity.
  - intros id Hid. destruct (negb _); [reflexivity|]. cbv zeta.
    rewrite !lookup_setText_ne; [reflexivity | | | |];
      intros <-; apply Hid; set_solver.
  - intros Hne. apply Z.eqb_neq in Hne. rewrite Hne. reflexivity.
Qed.

(** *** sensorString *)

Lemma land_pow2_testbit x k :
  0 <= k -> (Z.land x (2 ^ k) =? 0) = negb (Z.testbit x k).
Proof.
  intros Hk. destruct (Z.testbit x k) eqn:Hbit; cbn.
  - apply Z.eqb_neq. intros Hz.
    assert (Hb : Z.testbit (Z.land x (2 ^ k)) k = true).
    { rewrite Z.land_spec, Hbit, Z.pow2_bits_true by lia. reflexivity. }
    rewrite Hz, Z.bits_0 in Hb. discriminate.
  - apply Z.eqb_eq. apply Z.bits_inj'. intros n Hn.
    rewrite Z.land_spec, Z.bits_0, Z.pow2_bits_eqb by lia.
    destruct (Z.eqb_spec k n) as [<-|]; [rewrite Hbit|]; apply andb_false_r || reflexivity.
Qed.

Lemma truthy_band_bit m k :
  0 <= k < 31 -> truthy (Js.band m (2 ^ k)) = Z.testbit (Js.toInt32 m) k.
Proof.
  intros Hk. unfold truthy, Js.band.
  assert (Hp : 0 < 2 ^ k < 2 ^ 31).
  { split; [apply Z.pow_pos_nonneg; lia | apply Z.pow_lt_mono_r; lia]. }
  rewrite (MspProofs.toInt32_signed (2 ^ k)) by lia.
  rewrite land_pow2_testbit by lia. apply negb_involutive.
Qed.

Lemma sensorString_bits mask :
  sensorString mask =
  sensorNames (Z.testbit (Js.toInt32 mask) 0) (Z.testbit (Js.toInt32 mask) 1)
              (Z.testbit (Js.toInt32 mask) 2) (Z.testbit (Js.toInt32 mask) 3)
              (Z.testbit (Js.toInt32 mask) 4).
Proof.
  unfold sensorString, sensorNames.
  rewrite <- (truthy_band_bit mask 0), <- (truthy_band_bit mask 1),
    <- (truthy_band_bit mask 2), <- (truthy_band_bit mask 3),
    <- (truthy_band_bit mask 4) by lia.
  reflexivity.
Qed.

Lemma low_bits_zero x :
  x mod 32 = 0 <->
  Z.testbit x 0 = false /\ Z.testbit x 1 = false /\ Z.testbit x 2 = false /\
  Z.testbit x 3 = false /\ Z.testbit x 4 = false.
Proof.
  change 32 with (2 ^ 5). split.
  - intros Hz.
    assert (Hlow : forall k, 0 <= k < 5 -> Z.testbit x k = false).
    { intros k Hk. rewrite <- (Z.mod_pow2_bits_low x 5 k) by lia.
      rewrite Hz. apply Z.bits_0. }
    repeat split; apply Hlow; lia.
  - intros (H0 & H1 & H2 & H3 & H4). apply Z.bits_inj'. intros n Hn.
    rewrite Z.bits_0. destruct (Z.lt_ge_cases n 5) as [Hlt | Hge].
    + rewrite Z.mod_pow2_bits_low by lia.
      assert (Hcases : n = 0 \/ n = 1 \/ n = 2 \/ n = 3 \/ n = 4) by lia.
      destruct Hcases as [-> | [-> | [-> | [-> | ->]]]]; assumption.
    + apply Z.mod_pow2_bits_high. lia.
Qed.

(** X8. sensorString depends only on the low five bits of the mask (as a
    32-bit integer): it returns NONE exactly when they are all zero, and two
    masks that agree on them give the same string. *)
Theorem sensorString_low_five_bits mask :
  (sensorString mask = "NONE"%string <-> Js.toInt32 mask mod 32 = 0) /\
  (forall mask', Js.toInt32 mask mod 32 = Js.toInt32 mask' mod 32 ->
     sensorString mask = sensorString mask').
Proof.
  split.
  - rewrite sensorString_bits, low_bits_zero.
    destruct (Z.testbit _ 0), (Z.testbit _ 1), (Z.testbit _ 2),
      (Z.testbit _ 3), (Z.testbit _ 4); vm_compute; intuition congruence.
  - intros mask' Heq. rewrite !sensorString_bits.
    assert (Hbit : forall k, 0 <= k < 5 ->
              Z.testbit (Js.toInt32 mask) k = Z.testbit (Js.toInt32 mask') k).
    { intros k Hk.
      rewrite <- (Z.mod_pow2_bits_low (Js.toInt32 mask) 5 k),
        <- (Z.mod_pow2_bits_low (Js.toInt32 mask') 5 k) by lia.
      change (2 ^ 5) with 32. rewrite Heq. reflexivity. }
    rewrite (Hbit 0), (Hbit 1), (Hbit 2), (Hbit 3), (Hbit 4) by lia.
    reflexivity.
Qed.

(** X9. For an MSP_STATUS message with a byte payload, each status bar field
    that exists is set as follows: bar-armed to YES or NO by bit 0 of
    payload byte 6, bar-cycle to the 16-bit value at offset 0 followed by "
    µs", bar-cpu to the 16-bit value at offset 2 followed by "%",
    bar-sensors to sensorString of the 16-bit value at offset 4; a field
    that does not exist stays absent. *)
Theorem updateStatusBar_shows elems (d : Dom) :
  Forall is_byte elems ->
  let d' := updateStatusBar (Msp.mkMessage 101 (Msp.Uint8Array elems)) d in
  d' !! "bar-armed"%string
    = (fun _ => if Z.odd (MspTrack.byteAt elems 6) then "YES" else "NO")%string
        <$> d !! "bar-armed"%string /\
  d' !! "bar-cycle"%string
    = (fun _ => pretty (MspTrack.byteAt elems 0 + 256 * MspTrack.byteAt elems 1)
                +:+ " " +:+ MICRO +:+ "s") <$> d !! "bar-cycle"%string /\
  d' !! "bar-cpu"%string
    = (fun _ => pretty (MspTrack.byteAt elems 2 + 256 * MspTrack.byteAt elems 3)
                +:+ "%") <$> d !! "bar-cpu"%string /\
  d' !! "bar-sensors"%string
    = (fun _ => sensorString
                  (MspTrack.byteAt elems 4 + 256 * MspTrack.byteAt elems 5))
        <$> d !! "bar-sensors"%string.
Proof.
  intros Hall d'. subst d'. unfold updateStatusBar.
  cbn [Msp.msg_cmd Msp.msg_payload]. change (negb (101 =? 101)) with false.
  cbv iota zeta.
  rewrite (MspMore.readU32_low_bit elems 6 Hall), negb_involutive.
  rewrite !(MspMore.readU16_byteAt elems) by assumption.
  repeat split.
  - rewrite !lookup_setText_ne by discriminate. apply lookup_setText.
  - rewrite !lookup_setText_ne by discriminate. rewrite lookup_setText.
    rewrite lookup_setText_ne by discriminate. reflexivity.
  - rewrite lookup_setText_ne by discriminate. rewrite lookup_setText.
    rewrite !lookup_setText_ne by discriminate. reflexivity.
  - rewrite lookup_setText. rewrite !lookup_setText_ne by discriminate.
    reflexivity.
Qed.

Lemma updateStatusBar_shows_witness :
  updateStatusBar
    (Msp.mkMessage 101 (Msp.Uint8Array [232; 3; 12; 0; 17; 0; 1; 0; 0; 128]))
    {[ "bar-armed"%string := "--"%string ]} !! "bar-armed"%string
  = Some "YES"%string.
Proof.
  destruct (updateStatusBar_shows [232; 3; 12; 0; 17; 0; 1; 0; 0; 128]
              {[ "bar-armed"%string := "--"%string ]}) as (H & _).
  - repeat constructor; unfold is_byte; lia.
  - rewrite H. reflexivity.
Defined.

End UtilProofs.

(** * The sample buffers *)

Module SensorsProofs.
Import Sensors.

Lemma shift_drop_snoc {A} (l : list A) (a : A) : forall k,
  (k < length l)%nat -> shift (drop k l ++ [a]) = drop (S k) (l ++ [a]).
Proof.
  induction l as [|b l IH]; intros k Hk; [cbn in Hk; lia|].
  destruct k as [|k].
  - reflexivity.
  - cbn [drop app]. apply IH. cbn in Hk. lia.
Qed.

Lemma lastN_snoc {A} (n : nat) (l : list A) (a : A) :
  (0 < n)%nat ->
  lastN n (l ++ [a]) =
  if (n <? length (lastN n l ++ [a]))%nat then shift (lastN n l ++ [a])
  else lastN n l ++ [a].
Proof.
  intros Hn. unfold lastN. rewrite !length_app, !length_drop. cbn [length].
  destruct (Nat.ltb_spec n (length l - (length l - n) + 1)) as [Hfull | Hroom].
  - rewrite shift_drop_snoc by lia. f_equal. lia.
  - replace (length l + 1 - n)%nat with 0%nat by lia.
    replace (length l - n)%nat with 0%nat by lia. reflexivity.
Qed.

Lemma length_lastN {A} n (l : list A) : (length (lastN n l) <= n)%nat.
Proof. unfold lastN. rewrite length_drop. lia. Qed.

(** X10. After any number of pushSample calls on an empty buffer, each of
    the x, y and z arrays holds the last MAX_SAMPLES (300) pushed components
    in order (all of them if fewer were pushed); the three arrays have the
    same length, never more than 300. *)
Theorem pushSample_keeps_latest {A} (samples : list (A * A * A)) :
  let buf := fold_left pushSample samples (mkAxes [] [] []) in
  x buf = lastN MAX_SAMPLES (map (fun s => fst (fst s)) samples) /\
  y buf = lastN MAX_SAMPLES (map (fun s => snd (fst s)) samples) /\
  z buf = lastN MAX_SAMPLES (map snd samples) /\
  (length (x buf) <= MAX_SAMPLES)%nat /\
  length (y buf) = length (x buf) /\ length (z buf) = length (x buf).
Proof.
  cbv zeta.
  assert (Hmain :
    x (fold_left pushSample samples (mkAxes [] [] []))
      = lastN MAX_SAMPLES (map (fun s => fst (fst s)) samples) /\
    y (fold_left pushSample samples (mkAxes [] [] []))
      = lastN MAX_SAMPLES (map (fun s => snd (fst s)) samples) /\
    z (fold_left pushSample samples (mkAxes [] [] []))
      = lastN MAX_SAMPLES (map snd samples)).
  { induction samples as [|[[sx sy] sz] samples IH] using rev_ind;
      [repeat split|].
    rewrite fold_left_app. cbn [fold_left].
    destruct IH as (Hx & Hy & Hz). rewrite !map_app. cbn [map fst snd].
    assert (Hpos : (0 < MAX_SAMPLES)%nat) by (unfold MAX_SAMPLES; lia).
    rewrite !(lastN_snoc MAX_SAMPLES) by exact Hpos.
    remember (fold_left pushSample samples (mkAxes [] [] [])) as buf eqn:Hbuf.
    unfold pushSample. cbv beta iota zeta. rewrite Hx, Hy, Hz.
    assert (Hlen : forall (B : Type) (f : A * A * A -> B) (b : B),
              length (lastN MAX_SAMPLES (map f samples) ++ [b])
              = S (length samples - (length samples - MAX_SAMPLES))).
    { intros B f b. unfold lastN.
      rewrite length_app, length_drop, length_map. cbn [length]. lia. }
    rewrite !Hlen.
    destruct (_ <? _)%nat; cbn [x y z]; repeat split. }
  destruct Hmain as (Hx & Hy & Hz). rewrite Hx, Hy, Hz.
  repeat split; try apply length_lastN.
  - unfold lastN. rewrite !length_drop, !length_map. reflexivity.
  - unfold lastN. rewrite !length_drop, !length_map. reflexivity.
Qed.

End SensorsProofs.

(** * Tabs and polling *)

Module ShellProofs.
Import Text App Shell ShellInv.

Section WithPlatform.
Context {textDecoder : TextDecoder} {numberInput : NumberInput}.



(** *** Polling *)

Lemma OneTimer_startPolling s : OneTimer s -> OneTimer (startPolling s).
Proof.
  destruct s as [[pt tab prt rdr ivs sr] w]. unfold OneTimer, startPolling.
  cbn [vars pollTimer intervals]. destruct pt as [id|]; [auto|].
  destruct ivs; [|discriminate]. intros _. reflexivity.
Qed.

Lemma OneTimer_stopPolling s : OneTimer s -> OneTimer (stopPolling s).
Proof.
  destruct s as [[pt tab prt rdr ivs sr] w]. unfold OneTimer, stopPolling.
  cbn [vars pollTimer intervals]. destruct pt as [id|].
  - destruct ivs as [|[i0 d0] [|? ?]]; try discriminate.
    intros [= ->]. cbn. rewrite Nat.eqb_refl. reflexivity.
  - auto.
Qed.

Lemma OneTimer_restartPolling s : OneTimer s -> OneTimer (restartPolling s).
Proof.
  destruct s as [[pt tab prt rdr ivs sr] w]. unfold OneTimer, restartPolling.
  cbn [vars pollTimer intervals]. destruct (_ || _); [auto|].
  destruct pt as [id|].
  - destruct ivs as [|[i0 d0] [|? ?]]; try discriminate.
    intros [= ->]. cbn. rewrite Nat.eqb_refl. reflexivity.
  - destruct ivs; [|discriminate]. intros _. reflexivity.
Qed.

Lemma vars_withWorld w s : vars (withWorld w s) = vars s.
Proof. reflexivity. Qed.

Lemma OneTimer_withWorld w s : OneTimer (withWorld w s) <-> OneTimer s.
Proof. reflexivity. Qed.

Lemma OneTimer_activateTab t s : OneTimer (activateTab t s) <-> OneTimer s.
Proof. reflexivity. Qed.

Lemma OneTimer_resetParser s : OneTimer (resetParser s) <-> OneTimer s.
Proof. reflexivity. Qed.

Lemma tabClick_eq target s :
  tabClick target s =
  if String.eqb target (activeTab (vars s)) then s
  else
    let wasTerminal := String.eqb (activeTab (vars s)) "terminal" in
    let goingToTerminal := String.eqb target "terminal" in
    let s1 := if wasTerminal && connected s then leaveTerminal s else s in
    let s2 := activateTab target s1 in
    let s3 := if goingToTerminal && connected s2 then enterTerminal s2 else s2 in
    if negb wasTerminal && negb goingToTerminal && connected s3
    then restartPolling s3 else s3.
Proof. reflexivity. Qed.

Lemma OneTimer_leaveTerminal s : OneTimer s -> OneTimer (leaveTerminal s).
Proof.
  intros Hs. unfold leaveTerminal.
  apply OneTimer_startPolling, OneTimer_resetParser, OneTimer_withWorld. exact Hs.
Qed.

Lemma OneTimer_enterTerminal s : OneTimer s -> OneTimer (enterTerminal s).
Proof.
  intros Hs. unfold enterTerminal.
  apply OneTimer_withWorld, OneTimer_stopPolling. exact Hs.
Qed.

Lemma OneTimer_tabClick target s : OneTimer s -> OneTimer (tabClick target s).
Proof.
  intros Hs. rewrite tabClick_eq. cbv zeta.
  repeat match goal with
         | |- context [if ?b then _ else _] => destruct b
         end;
    repeat first [ exact Hs
                 | apply OneTimer_restartPolling
                 | apply OneTimer_enterTerminal
                 | apply OneTimer_activateTab
                 | apply OneTimer_leaveTerminal ].
Qed.

(** X12. If the poll timer is the only live interval, it still is after
    startPolling, stopPolling, restartPolling and any tab click; stopPolling
    leaves no timer at all and the MSP parser Idle. *)
Theorem one_poll_timer s :
  OneTimer s ->
  OneTimer (startPolling s) /\ OneTimer (stopPolling s) /\
  OneTimer (restartPolling s) /\
  (forall target, OneTimer (tabClick target s)) /\
  pollTimer (vars (stopPolling s)) = None /\
  intervals (vars (stopPolling s)) = [] /\
  Msp.state (parser (world (stopPolling s))) = Msp.S_IDLE.
Proof.
  intros Hs.
  split; [apply OneTimer_startPolling; exact Hs|].
  split; [apply OneTimer_stopPolling; exact Hs|].
  split; [apply OneTimer_restartPolling; exact Hs|].
  split; [intros target; apply OneTimer_tabClick; exact Hs|].
  pose proof (OneTimer_stopPolling s Hs) as Hstop.
  assert (Hnone : pollTimer (vars (stopPolling s)) = None).
  { destruct s as [[pt tab prt rdr ivs sr] w]. unfold stopPolling.
    cbn [vars pollTimer]. destruct pt; reflexivity. }
  split; [exact Hnone|]. split.
  - unfold OneTimer in Hstop. rewrite Hnone in Hstop.
    destruct (intervals (vars (stopPolling s))); [reflexivity | discriminate].
  - destruct s as [[pt tab prt rdr ivs sr] w]. unfold stopPolling.
    cbn [vars pollTimer]. destruct pt; reflexivity.
Qed.

Lemma writesOf_app tr1 tr2 : writesOf (tr1 ++ tr2) = writesOf tr1 ++ writesOf tr2.
Proof. unfold writesOf. apply omap_app. Qed.

Lemma writes_serialWrite data (w : World) :
  writesOf (trace (rt (serialWrite data w))) = writesOf (trace (rt w)) ++ [data].
Proof.
  destruct w as [c [wr orc] t p d r]. destruct wr; cbn; apply writesOf_app.
Qed.

Lemma writes_poll commands : forall w : World,
  Forall is_byte commands ->
  writesOf (trace (rt (fold_left
     (fun w cmd => serialWrite (MspTrack.asUint8Array (Msp.mspEncode cmd)) w)
     commands w)))
  = writesOf (trace (rt w)) ++ map requestFrame commands.
Proof.
  induction commands as [|c commands IH]; intros w Hall; cbn [fold_left map].
  - rewrite app_nil_r. reflexivity.
  - apply Forall_cons in Hall as [Hc Hall].
    rewrite IH, writes_serialWrite, MspMore.mspEncode_elems by assumption.
    rewrite <- app_assoc. reflexivity.
Qed.

Lemma tabCommands_bytes tab : Forall is_byte (101 :: tabCommands tab).
Proof.
  unfold tabCommands.
  repeat match goal with |- context [if ?b then _ else _] => destruct b end;
    repeat constructor; unfold is_byte; lia.
Qed.

(** X13. While tab, mode and routing are in step, a tick of the poll timer
    sends the request frame for MSP_STATUS followed by the request frames of
    the active tab (ATTITUDE and ANALOG on status, RC on receiver, RAW_IMU
    on sensors) and nothing else; a tick of any other timer id sends
    nothing, and on the terminal tab no tick changes anything. *)
Theorem poll_tick_writes id s :
  TabsInSync s ->
  writesIn (fireInterval id s)
  = writesIn s ++
    (if bool_decide (pollTimer (vars s) = Some id)
     then map requestFrame (101 :: tabCommands (activeTab (vars s)))
     else []) /\
  (activeTab (vars s) = "terminal"%string -> fireInterval id s = s).
Proof.
  intros (Hconn & Hivs & Hmode). unfold fireInterval, writesIn.
  assert (Hlive : existsb (fun i => Nat.eqb (interval_id i) id) (intervals (vars s))
                  = bool_decide (pollTimer (vars s) = Some id)).
  { destruct (pollTimer (vars s)) as [pid|];
      destruct (intervals (vars s)) as [|[i0 d0] [|? ?]]; try discriminate.
    - injection Hivs as ->. cbn. rewrite orb_false_r.
      destruct (Nat.eqb_spec pid id) as [->|Hne].
      + rewrite bool_decide_eq_true_2; reflexivity.
      + rewrite bool_decide_eq_false_2; [reflexivity | congruence].
    - reflexivity. }
  rewrite Hlive. split.
  - destruct (bool_decide _); [|rewrite app_nil_r; reflexivity].
    unfold pollActiveTab. rewrite Hconn. cbn [negb world withWorld].
    apply writes_poll, tabCommands_bytes.
  - intros Hterm. rewrite Hterm in Hmode. cbn in Hmode.
    destruct Hmode as (_ & -> & _). reflexivity.
Qed.

End WithPlatform.

Lemma poll_tick_writes_witness :
  writesIn (@fireInterval asciiDecoder 1 sampleSession)
  = [[0x24; 0x4D; 0x3C; 0; 101; 101]; [0x24; 0x4D; 0x3C; 0; 108; 108];
     [0x24; 0x4D; 0x3C; 0; 110; 110]].
Proof.
  destruct (@poll_tick_writes asciiDecoder 1 sampleSession) as [Hw _].
  - repeat split. exists 1%nat. reflexivity.
  - rewrite Hw. reflexivity.
Defined.

Lemma one_poll_timer_witness :
  intervals (vars (@stopPolling asciiDecoder sampleSession)) = [].
Proof.
  apply (@one_poll_timer asciiDecoder sampleSession). reflexivity.
Defined.


End ShellProofs.

(** * The input line *)

Module ConsoleProofs.
Import Text App Shell ShellInv ConsoleInv ShellProofs.

Section WithPlatform.
Context {textDecoder : TextDecoder} {numberInput : NumberInput}.

Lemma trace_appendOutput text (w : World) :
  trace (rt (appendOutput text w)) = trace (rt w).
Proof. unfold appendOutput. destruct (termOutput (term w)); reflexivity. Qed.

Lemma writes_sendCommand cmd (w : World) :
  writesOf (trace (rt (sendCommand cmd w)))
  = writesOf (trace (rt w)) ++ [commandBytes cmd].
Proof. unfold sendCommand. apply writes_serialWrite. Qed.

Lemma inputStep_ok c w e :
  ConsoleOk c ->
  ConsoleOk (inputStep (c, w) e).1 /\
  exists sent,
    history (inputStep (c, w) e).1 = history c ++ sent /\
    writesOf (trace (rt (inputStep (c, w) e).2))
      = writesOf (trace (rt w)) ++ map commandBytes sent /\
    Forall sendable sent.
Proof.
  unfold ConsoleOk. intros Hok. destruct c as [h i v b].
  cbn [history historyIdx] in Hok.
  destruct e as [[| | |]|text];
    cbn [inputStep onInputKey typeText inputValue history historyIdx btnSave].
  -
    destruct (String.eqb_spec (trim v) "") as [Hempty|Hne].
    { cbn [fst snd history historyIdx]. split; [exact Hok|].
      exists []. rewrite !app_nil_r. auto. }
    destruct (String.eqb_spec (trim v) "exit") as [Hexit|Hne'].
    { cbn [fst snd history historyIdx]. split; [exact Hok|].
      exists []. rewrite !app_nil_r, trace_appendOutput. auto. }
    cbn [fst snd history historyIdx].
    split; [split; [lia | apply Z.le_refl]|].
    exists [trim v]. split; [reflexivity|]. split.
    + apply writes_sendCommand.
    + constructor; [split; assumption | constructor].
  - destruct (Z.ltb_spec 0 i); cbn [fst snd history historyIdx];
      (split; [lia|]); exists []; rewrite !app_nil_r; auto.
  - destruct (Z.ltb_spec i (Z.of_nat (length h) - 1));
      cbn [fst snd history historyIdx];
      (split; [lia|]); exists []; rewrite !app_nil_r; auto.
  - cbn [fst snd history historyIdx]. split; [exact Hok|].
    exists []. rewrite !app_nil_r. auto.
  - cbn [fst snd history historyIdx]. split; [exact Hok|].
    exists []. rewrite !app_nil_r. auto.
Qed.

(** X14. Over any sequence of typing and key presses in the terminal input,
    the history only grows, the commands sent to the port are exactly the
    commands appended to the history, in order and each followed by CR LF,
    none of them is empty or "exit", and the history index stays between -1
    and the history length. *)
Theorem input_line_sends_history events : forall c w,
  ConsoleOk c ->
  ConsoleOk (fold_left inputStep events (c, w)).1 /\
  exists sent,
    history (fold_left inputStep events (c, w)).1 = history c ++ sent /\
    writesOf (trace (rt (fold_left inputStep events (c, w)).2))
      = writesOf (trace (rt w)) ++ map commandBytes sent /\
    Forall sendable sent.
Proof.
  induction events as [|e events IH]; intros c w Hok; cbn [fold_left].
  - split; [exact Hok|]. exists []. rewrite !app_nil_r. auto.
  - destruct (inputStep_ok c w e Hok) as (Hok1 & sent1 & Hh1 & Hw1 & Hs1).
    destruct (inputStep (c, w) e) as [c1 w1]. cbn [fst snd] in *.
    destruct (IH c1 w1 Hok1) as (Hok2 & sent2 & Hh2 & Hw2 & Hs2).
    split; [exact Hok2|]. exists (sent1 ++ sent2).
    rewrite Hh2, Hh1, Hw2, Hw1, map_app, <- !app_assoc.
    split; [reflexivity|]. split; [reflexivity|]. apply Forall_app. auto.
Qed.

(** X15. With the history index within -1..length, ArrowUp and ArrowDown
    send nothing and do not change the history; they either leave the input
    line alone, or clear it and put the index at the end, or move the index
    by one to an existing entry and show that entry. *)
Theorem arrows_stay_in_history key c w :
  ConsoleOk c -> key = ArrowUp \/ key = ArrowDown ->
  let c' := (onInputKey key (c, w)).1 in
  (onInputKey key (c, w)).2 = w /\ history c' = history c /\
  (c' = c \/
   (inputValue c' = ""%string /\
    historyIdx c' = Z.of_nat (length (history c))) \/
   (0 <= historyIdx c' /\ (historyIdx c' - historyIdx c = 1 \/
                           historyIdx c' - historyIdx c = -1) /\
    history c !! Z.to_nat (historyIdx c') = Some (inputValue c'))).
Proof.
  unfold ConsoleOk. intros Hok Hkey. destruct c as [h i v b].
  cbn [history historyIdx] in Hok.
  assert (Hat : forall j, 0 <= j < Z.of_nat (length h) ->
            h !! Z.to_nat j = Some (historyAt h j)).
  { intros j Hj. unfold historyAt.
    destruct (Z.ltb_spec j 0); [lia|].
    destruct (lookup_lt_is_Some_2 h (Z.to_nat j)) as [e He]; [lia|].
    rewrite He. reflexivity. }
  destruct Hkey as [-> | ->]; cbn [onInputKey history historyIdx inputValue btnSave].
  - destruct (Z.ltb_spec 0 i); cbn [fst snd history historyIdx inputValue];
      (split; [reflexivity|]); (split; [reflexivity|]); [|left; reflexivity].
    right. right. split; [lia|]. split; [lia|]. apply Hat. lia.
  - destruct (Z.ltb_spec i (Z.of_nat (length h) - 1));
      cbn [fst snd history historyIdx inputValue];
      (split; [reflexivity|]); (split; [reflexivity|]).
    + right. right. split; [lia|]. split; [lia|]. apply Hat. lia.
    + right. left. auto.
Qed.

End WithPlatform.

Lemma input_line_sends_history_witness :
  exists sent,
    history (fold_left (@inputStep asciiDecoder)
               [Typed " status "; KeyDown Enter; Typed "exit"; KeyDown Enter;
                KeyDown ArrowUp]%string
               (initialConsole None, sampleWorld)).1 = [] ++ sent.
Proof.
  destruct (@input_line_sends_history asciiDecoder
              [Typed " status "; KeyDown Enter; Typed "exit"; KeyDown Enter;
               KeyDown ArrowUp]%string
              (initialConsole None) sampleWorld) as (_ & sent & H & _).
  - unfold ConsoleOk. cbn. lia.
  - exists sent. exact H.
Defined.

Lemma arrows_stay_in_history_witness :
  history (@onInputKey asciiDecoder ArrowUp
             (mkConsole ["set"; "status"]%string 2 ""%string None, sampleWorld)).1
  = ["set"; "status"]%string.
Proof.
  apply (@arrows_stay_in_history asciiDecoder ArrowUp
           (mkConsole ["set"; "status"]%string 2 ""%string None) sampleWorld).
  - unfold ConsoleOk. cbn. lia.
  - left. reflexivity.
Defined.

End ConsoleProofs.

(** * The settings form *)

Module FormProofs.
Import Text App Shell FormInv.

(** *** The [Map] model *)

Lemma mapGet_cons k k' v m :
  mapGet k ((k', v) :: m) = if String.eqb k' k then Some v else mapGet k m.
Proof. unfold mapGet. cbn. destruct (String.eqb k' k); reflexivity. Qed.

Lemma mapGet_mapSet_eq k v m : mapGet k (mapSet k v m) = Some v.
Proof.
  induction m as [|[k' v'] m IH]; cbn [mapSet].
  - rewrite mapGet_cons, String.eqb_refl. reflexivity.
  - destruct (String.eqb_spec k' k) as [->|Hne].
    + rewrite mapGet_cons, String.eqb_refl. reflexivity.
    + rewrite mapGet_cons. rewrite (proj2 (String.eqb_neq _ _) Hne). exact IH.
Qed.

Lemma mapGet_mapSet_ne k k' v m :
  k <> k' -> mapGet k (mapSet k' v m) = mapGet k m.
Proof.
  intros Hne. induction m as [|[k0 v0] m IH]; cbn [mapSet].
  - rewrite mapGet_cons.
    rewrite (proj2 (String.eqb_neq k' k)) by congruence. reflexivity.
  - destruct (String.eqb_spec k0 k') as [->|Hne0].
    + rewrite !mapGet_cons.
      rewrite (proj2 (String.eqb_neq k' k)) by congruence. reflexivity.
    + rewrite !mapGet_cons. destruct (String.eqb k0 k); [reflexivity | exact IH].
Qed.

Lemma mapSet_fresh k v m : k ∉ keys m -> mapSet k v m = m ++ [(k, v)].
Proof.
  induction m as [|[k' v'] m IH]; intros Hk; cbn [mapSet app]; [reflexivity|].
  cbn in Hk. apply not_elem_of_cons in Hk as [Hne Hk].
  rewrite (proj2 (String.eqb_neq k' k)) by congruence.
  rewrite IH by exact Hk. reflexivity.
Qed.

Lemma keys_mapSet_in k v m : k ∈ keys m -> keys (mapSet k v m) = keys m.
Proof.
  induction m as [|[k' v'] m IH]; intros Hk; [inversion Hk|].
  cbn [mapSet]. destruct (String.eqb_spec k' k) as [->|Hne]; [reflexivity|].
  cbn. f_equal. apply IH. cbn in Hk. apply elem_of_cons in Hk as [?|?];
    [congruence | assumption].
Qed.

Lemma NoDup_keys_mapSet k v m : NoDup (keys m) -> NoDup (keys (mapSet k v m)).
Proof.
  intros Hm. destruct (decide (k ∈ keys m)) as [Hin|Hout].
  - rewrite keys_mapSet_in by exact Hin. exact Hm.
  - rewrite mapSet_fresh by exact Hout. unfold keys. rewrite map_app. cbn.
    apply NoDup_app. split; [exact Hm|]. split.
    + intros x Hx Hx'. apply list_elem_of_singleton in Hx'. subst x. auto.
    + apply NoDup_singleton.
Qed.

Lemma elem_mapSet kv k v m :
  kv ∈ mapSet k v m -> kv = (k, v) \/ kv ∈ m.
Proof.
  induction m as [|[k' v'] m IH]; cbn [mapSet].
  - intros Hin. apply list_elem_of_singleton in Hin. auto.
  - destruct (String.eqb k' k).
    + intros Hin. apply elem_of_cons in Hin as [?|?]; [auto|].
      right. apply elem_of_cons. auto.
    + intros Hin. apply elem_of_cons in Hin as [->|Hin].
      * right. apply list_elem_of_here.
      * destruct (IH Hin); [auto|]. right. apply elem_of_cons. auto.
Qed.

Lemma mapGet_elem k v m :
  NoDup (keys m) -> (mapGet k m = Some v <-> (k, v) ∈ m).
Proof.
  induction m as [|[k' v'] m IH]; intros Hm.
  - split; [discriminate | inversion 1].
  - cbn in Hm. apply NoDup_cons in Hm as [Hk' Hm]. rewrite mapGet_cons.
    destruct (String.eqb_spec k' k) as [->|Hne].
    + split.
      * intros [= ->]. apply list_elem_of_here.
      * intros Hin. apply elem_of_cons in Hin as [[= ->]|Hin]; [reflexivity|].
        exfalso. apply Hk'. apply list_elem_of_fmap. exists (k, v). auto.
    + rewrite IH by exact Hm. split.
      * intros Hin. apply elem_of_cons. auto.
      * intros Hin. apply elem_of_cons in Hin as [[= -> ->]|Hin];
          [congruence | exact Hin].
Qed.

(** *** parseParams *)

Lemma parseLine_ok params line :
  NoDup (keys params) ->
  Forall (fun kv => fst kv <> ""%string /\ snd kv <> ""%string) params ->
  NoDup (keys (parseLine params line)) /\
  Forall (fun kv => fst kv <> ""%string /\ snd kv <> ""%string)
         (parseLine params line).
Proof.
  intros Hnd Hall. unfold parseLine.
  destruct (String.eqb (trim line) ""); [auto|].
  destruct (indexOf "=" (trim line)) as [eqIdx|]; [|auto].
  cbv zeta.
  destruct (String.eqb_spec (trim (substringTo eqIdx (trim line))) "")
    as [|Hname]; [auto|].
  destruct (String.eqb_spec
              (trim (substringFrom (eqIdx + 1) (trim line))) "")
    as [|Hvalue]; [auto|].
  cbn [negb andb]. split; [apply NoDup_keys_mapSet; exact Hnd|].
  apply Forall_forall. intros kv Hin.
  apply elem_mapSet in Hin as [->|Hin]; [auto|].
  rewrite Forall_forall in Hall. auto.
Qed.

Lemma fold_parseLine_ok lines : forall params,
  NoDup (keys params) ->
  Forall (fun kv => fst kv <> ""%string /\ snd kv <> ""%string) params ->
  NoDup (keys (fold_left parseLine lines params)) /\
  Forall (fun kv => fst kv <> ""%string /\ snd kv <> ""%string)
         (fold_left parseLine lines params).
Proof.
  induction lines as [|line lines IH]; intros params Hnd Hall; [auto|].
  cbn [fold_left]. destruct (parseLine_ok params line Hnd Hall).
  apply IH; assumption.
Qed.

Lemma parseParams_keys content : NoDup (keys (parseParams content)).
Proof. unfold parseParams. apply fold_parseLine_ok; constructor. Qed.

(** X16. The parameters finishCapture parses from a capture have pairwise
    distinct names, and every name and every value is non-empty. *)
Theorem parseParams_is_a_map content :
  NoDup (keys (parseParams content)) /\
  Forall (fun kv => fst kv <> ""%string /\ snd kv <> ""%string)
         (parseParams content).
Proof. unfold parseParams. apply fold_parseLine_ok; constructor. Qed.

(** *** renderForm *)

Lemma formInputs_groups params (G : list (string * list string)) :
  concat (map snd
    (omap (fun g : string * list string =>
             if bool_decide (omap (rowFor params) (snd g) = []) then None
             else Some (fst g, omap (rowFor params) (snd g))) G))
  = omap (rowFor params) (concat (map snd G)).
Proof.
  induction G as [|g G IH]; [reflexivity|].
  cbn [map concat omap list_omap]. rewrite omap_app, <- IH.
  destruct (bool_decide_reflect (omap (rowFor params) g.2 = [])) as [Hnil|Hne].
  - rewrite Hnil. reflexivity.
  - reflexivity.
Qed.

Lemma formInputs_renderGroups params :
  formInputs (renderGroups params)
  = omap (rowFor params) groupNames ++
    List.filter
      (fun kv => bool_decide
                   (fst kv ∉ map fst (omap (rowFor params) groupNames)))
      params.
Proof.
  unfold renderGroups, formInputs. cbv zeta.
  fold (rowFor params).
  rewrite map_app, concat_app.
  replace (concat (map (fun g : string * list (string * string) => map fst g.2)
             (omap (fun g : string * list string =>
                      if bool_decide (omap (rowFor params) g.2 = []) then None
                      else Some (g.1, omap (rowFor params) g.2)) PARAM_GROUPS)))
    with (map fst (omap (rowFor params) groupNames)).
  2:{ unfold groupNames. rewrite <- (formInputs_groups params PARAM_GROUPS).
      generalize (omap (fun g : string * list string =>
                      if bool_decide (omap (rowFor params) g.2 = []) then None
                      else Some (g.1, omap (rowFor params) g.2)) PARAM_GROUPS).
      intros l. induction l as [|g l IH]; [reflexivity|].
      cbn [map concat]. rewrite map_app, IH. reflexivity. }
  rewrite (formInputs_groups params PARAM_GROUPS). fold groupNames.
  f_equal. destruct (bool_decide _) eqn:Hother; cbn [map concat].
  - apply bool_decide_eq_true_1 in Hother. rewrite Hother. reflexivity.
  - rewrite app_nil_r. reflexivity.
Qed.

Lemma elem_rowFor params (names : list string) (x : string * string) :
  x ∈ omap (rowFor params) names <->
  fst x ∈ names /\ mapGet (fst x) params = Some (snd x).
Proof.
  rewrite list_elem_of_omap. unfold rowFor. split.
  - intros (n & Hn & Hrow). destruct (mapGet n params) as [v|] eqn:Hv;
      [|discriminate]. cbn in Hrow. injection Hrow as <-. cbn. auto.
  - intros [Hn Hv]. exists (fst x). split; [exact Hn|].
    rewrite Hv. destruct x; reflexivity.
Qed.

Lemma NoDup_rowFor params (names : list string) :
  NoDup names -> NoDup (omap (rowFor params) names).
Proof.
  induction 1 as [|n names Hn Hnd IH]; [constructor|].
  cbn [omap list_omap]. unfold rowFor at 1.
  destruct (mapGet n params) as [v|]; cbn; [|exact IH].
  constructor; [|exact IH].
  intros Hin. apply elem_rowFor in Hin as [Hin _]. auto.
Qed.

Lemma groupNames_NoDup : NoDup groupNames.
Proof. apply (bool_decide_unpack _). vm_compute. exact I. Qed.

Lemma elem_filter {A} (f : A -> bool) (l : list A) x :
  x ∈ List.filter f l <-> x ∈ l /\ f x = true.
Proof. rewrite !list_elem_of_In. apply filter_In. Qed.

Lemma renderGroups_perm params :
  NoDup (keys params) -> formInputs (renderGroups params) ≡ₚ params.
Proof.
  intros Hkeys.
  assert (Hpairs : NoDup params) by (eapply NoDup_fmap_1; exact Hkeys).
  rewrite formInputs_renderGroups.
  set (rowsG := omap (rowFor params) groupNames).
  set (other := List.filter _ params).
  assert (HndG : NoDup rowsG) by (apply NoDup_rowFor, groupNames_NoDup).
  assert (HndO : NoDup other) by (apply NoDup_ListNoDup, List.NoDup_filter,
                                  NoDup_ListNoDup; exact Hpairs).
  assert (Hdisj : forall x, x ∈ rowsG -> x ∉ other).
  { intros x Hx Hx'. apply elem_filter in Hx' as [_ Hx'].
    apply bool_decide_eq_true_1 in Hx'. apply Hx'.
    apply list_elem_of_fmap. exists x. auto. }
  apply NoDup_Permutation.
    - apply NoDup_app. auto.
    - exact Hpairs.
    - intros [n v]. rewrite elem_of_app. split.
      + intros [Hx|Hx].
        * apply elem_rowFor in Hx as [_ Hx]. apply mapGet_elem; assumption.
        * apply elem_filter in Hx as [Hx _]. exact Hx.
      + intros Hx.
        destruct (decide (n ∈ map fst rowsG)) as [Hin|Hout].
        * left. apply list_elem_of_fmap in Hin as ([n' v'] & Heq & Hrow).
          cbn in Heq. subst n'.
          pose proof Hrow as Hrow'. apply elem_rowFor in Hrow' as [_ Hv'].
          cbn in Hv'. apply (mapGet_elem n v params Hkeys) in Hx.
          rewrite Hx in Hv'. injection Hv' as ->. exact Hrow.
        * right. apply elem_filter. split; [exact Hx|].
          apply bool_decide_eq_true_2. exact Hout.
Qed.

(** X17. For parameters with distinct names, the form renderForm builds has
    exactly one input per parameter, holding its name and value (the inputs
    are a permutation of the parameters), and no name occurs twice. *)
Theorem renderGroups_shows_all params :
  NoDup (keys params) ->
  formInputs (renderGroups params) ≡ₚ params /\
  NoDup (map fst (formInputs (renderGroups params))).
Proof.
  intros Hkeys. pose proof (renderGroups_perm params Hkeys) as Hperm.
  split; [exact Hperm|].
  unfold keys in Hkeys. change (NoDup (fst <$> formInputs (renderGroups params))).
  change (NoDup (fst <$> params)) in Hkeys.
  rewrite Hperm. exact Hkeys.
Qed.

Lemma renderGroups_shows_all_witness :
  formInputs (renderGroups [("foo", "1"); ("Kp_yaw", "0.3")]%string)
    ≡ₚ [("foo", "1"); ("Kp_yaw", "0.3")]%string.
Proof.
  apply (renderGroups_shows_all [("foo", "1"); ("Kp_yaw", "0.3")]%string).
  apply (bool_decide_unpack _). vm_compute. exact I.
Defined.

End FormProofs.

(** * Loading and saving *)

Module CaptureProofs.
Import Text App Shell ShellInv ConsoleInv FormInv CaptureInv ShellProofs ConsoleProofs FormProofs.

Lemma fold_mapSet_fresh (l : list (string * string)) : forall acc,
  NoDup (keys (acc ++ l)) ->
  fold_left (fun m kv => mapSet (fst kv) (snd kv) m) l acc = acc ++ l.
Proof.
  induction l as [|[k v] l IH]; intros acc Hnd; cbn [fold_left fst snd].
  - rewrite app_nil_r. reflexivity.
  - assert (Hk : k ∉ keys acc).
    { unfold keys in Hnd. rewrite map_app in Hnd. cbn in Hnd.
      apply NoDup_app in Hnd as (_ & Hdisj & _). intros Hin.
      apply (Hdisj k Hin). apply list_elem_of_here. }
    rewrite mapSet_fresh by exact Hk. rewrite IH.
    + rewrite <- app_assoc. reflexivity.
    + rewrite <- app_assoc. exact Hnd.
Qed.

Section WithPlatform.
Context {textDecoder : TextDecoder} {numberInput : NumberInput}.

Lemma term_appendOutput text (w : World) :
  term (appendOutput text w) =
  let t := term w in
  mkTerminal ((fun shown => shown +:+ text) <$> termOutput t) (settingsForm t)
    (captureBuffer t) (capturing t) (captureTimer t) (originalValues t)
    (autoLoadPending t) (preserveOriginalsOnLoad t) (silentLoad t).
Proof.
  unfold appendOutput. destruct w as [c s [out form buf capt tmr orig alp pres sil] p d r].
  cbn. destruct out; reflexivity.
Qed.

(** What [finishCapture] leaves in the terminal when it has parameters to
    show and the form exists. *)
Lemma finishCapture_loaded (w : World) f0 :
  settingsForm (term w) = Some f0 ->
  parseParams (cleanCapture (captureBuffer (term w))) <> [] ->
  let params := parseParams (cleanCapture (captureBuffer (term w))) in
  settingsForm (term (finishCapture w)) = Some (renderGroups params) /\
  originalValues (term (finishCapture w)) =
    (if preserveOriginalsOnLoad (term w) then originalValues (term w)
     else fold_left (fun m kv => mapSet (fst kv) (snd kv) m) params []) /\
  preserveOriginalsOnLoad (term (finishCapture w)) = false /\
  capturing (term (finishCapture w)) = false.
Proof.
  destruct w as [c s [out form buf capt tmr orig alp pres sil] p d r].
  cbn [term settingsForm captureBuffer preserveOriginalsOnLoad originalValues].
  intros -> Hne. cbv zeta. unfold finishCapture.
  cbn [term captureTimer captureBuffer withTerm termOutput settingsForm capturing
       originalValues autoLoadPending preserveOriginalsOnLoad silentLoad
       cli serial parser dispatched rt].
  set (params := parseParams (cleanCapture buf)) in *.
  assert (Hpos : (0 <? length params)%nat = true).
  { apply Nat.ltb_lt. destruct params; [congruence|]. cbn. lia. }
  destruct tmr as [id|];
    cbn [term captureTimer captureBuffer withTerm termOutput settingsForm
         capturing originalValues autoLoadPending preserveOriginalsOnLoad
         silentLoad cli serial parser dispatched rt clearTimeout withRt];
    fold params; rewrite Hpos; unfold renderForm, appendOutput;
    cbn [term captureTimer captureBuffer withTerm termOutput settingsForm
         capturing originalValues autoLoadPending preserveOriginalsOnLoad
         silentLoad cli serial parser dispatched rt];
    destruct sil, out; repeat split; reflexivity.
Qed.

Lemma filter_nil_iff {A} (f : A -> bool) (l : list A) :
  List.filter f l = [] <-> Forall (fun x => f x = false) l.
Proof.
  induction l as [|a l IH]; cbn.
  - split; constructor.
  - destruct (f a) eqn:Hfa.
    + split; [discriminate|]. intros H. apply Forall_cons in H as [H _]. congruence.
    + rewrite IH. split; [constructor; assumption|].
      intros H. apply Forall_cons in H as [_ H]. exact H.
Qed.

Lemma isDirty_parsed (params : list (string * string)) n v :
  NoDup (keys params) -> (n, v) ∈ params ->
  isDirty params (n, v) = false <-> sanitizeNumber v = v.
Proof.
  intros Hkeys Hin. unfold isDirty. cbn [fst snd].
  rewrite (proj2 (mapGet_elem n v params Hkeys) Hin).
  rewrite negb_false_iff, bool_decide_eq_true. split; congruence.
Qed.

(** X18. When finishCapture has parsed at least one parameter, the form
    exists and the originals are not to be preserved, then the original
    values become exactly the parsed parameters, the form shows each of them
    once, and the dirty count is 0 exactly when the number inputs give back
    every value as it was set. *)
Theorem load_fills_form (w : World) f0 :
  settingsForm (term w) = Some f0 ->
  preserveOriginalsOnLoad (term w) = false ->
  parseParams (cleanCapture (captureBuffer (term w))) <> [] ->
  let params := parseParams (cleanCapture (captureBuffer (term w))) in
  let w' := finishCapture w in
  originalValues (term w') = params /\
  (exists form, settingsForm (term w') = Some form /\
                formInputs form ≡ₚ params) /\
  (getDirtyCount w' = 0%nat <->
   Forall (fun kv => sanitizeNumber (snd kv) = snd kv) params).
Proof.
  intros Hform Hpres Hne params w'.
  destruct (finishCapture_loaded w f0 Hform Hne) as (Hf & Ho & _ & _).
  fold params in Hf, Ho. fold w' in Hf, Ho. rewrite Hpres in Ho.
  pose proof (parseParams_keys (cleanCapture (captureBuffer (term w))))
    as Hkeys. fold params in Hkeys.
  rewrite (fold_mapSet_fresh params []) in Ho by exact Hkeys. cbn [app] in Ho.
  pose proof (renderGroups_perm params Hkeys) as Hperm.
  split; [exact Ho|]. split; [eauto|].
  unfold getDirtyCount. rewrite Hf, Ho.
  rewrite length_zero_iff_nil, filter_nil_iff, Hperm, !Forall_forall.
  split; intros Hall [n v] Hin; specialize (Hall (n, v) Hin);
    apply (isDirty_parsed params n v Hkeys Hin); exact Hall.
Qed.

(** *** saveSettings *)

Lemma term_sendCommand cmd (w : World) : term (sendCommand cmd w) = term w.
Proof.
  destruct w as [c [wr orc] t p d r]. unfold sendCommand, serialWrite.
  destruct wr; reflexivity.
Qed.

Lemma term_sleep ms (w : World) : term (sleep ms w) = term w.
Proof. reflexivity. Qed.

Lemma trace_sleep_writes ms (w : World) :
  writesOf (trace (rt (sleep ms w))) = writesOf (trace (rt w)).
Proof.
  unfold sleep, logEvent. destruct w as [c s t p d [tm nx tr]]. cbn.
  rewrite writesOf_app. cbn. apply app_nil_r.
Qed.

Lemma sendAll_spec (changed : list (string * string)) : forall w : World,
  let w' := fold_left (fun w input => sleep 50 (sendCommand (setCommand input) w))
                      changed w in
  term w' = term w /\
  writesOf (trace (rt w'))
  = writesOf (trace (rt w)) ++ map (fun i => commandBytes (setCommand i)) changed.
Proof.
  induction changed as [|i changed IH]; intros w; cbn [fold_left map].
  - rewrite app_nil_r. auto.
  - cbv zeta in IH |- *.
    destruct (IH (sleep 50 (sendCommand (setCommand i) w))) as [Ht Hw].
    rewrite Ht, Hw, term_sleep, term_sendCommand, trace_sleep_writes,
      writes_sendCommand, <- app_assoc. auto.
Qed.

Lemma fold_mapSet_other (f : string -> string) n (inputs : list (string * string)) :
  forall o, n ∉ map fst inputs ->
  mapGet n (fold_left (fun o i => mapSet (fst i) (f (snd i)) o) inputs o)
  = mapGet n o.
Proof.
  induction inputs as [|[k v] inputs IH]; intros o Hn; [reflexivity|].
  cbn in Hn. apply not_elem_of_cons in Hn as [Hne Hn].
  cbn [fold_left fst snd]. rewrite IH by exact Hn.
  apply mapGet_mapSet_ne. exact Hne.
Qed.

Lemma fold_mapSet_get (f : string -> string) n v (inputs : list (string * string)) :
  forall o, NoDup (map fst inputs) -> (n, v) ∈ inputs ->
  mapGet n (fold_left (fun o i => mapSet (fst i) (f (snd i)) o) inputs o)
  = Some (f v).
Proof.
  induction inputs as [|[k u] inputs IH]; intros o Hnd Hin; [inversion Hin|].
  cbn in Hnd. apply NoDup_cons in Hnd as [Hk Hnd].
  cbn [fold_left fst snd].
  apply elem_of_cons in Hin as [Heq|Hin].
  - injection Heq as -> ->. rewrite fold_mapSet_other by exact Hk.
    apply mapGet_mapSet_eq.
  - apply IH; assumption.
Qed.

(** X19. saveSettings sends nothing when no input differs from its original;
    otherwise it sends "set <name> <value>" for each changed input in form
    order and then "save", each followed by CR LF. The form itself is not
    rebuilt, and when the input names are distinct every input's value
    becomes its original, so the dirty count is 0 afterwards. *)
Theorem save_sends_changes (c : Console) (w : World) form :
  settingsForm (term w) = Some form ->
  let inputs := formInputs form in
  let changed := List.filter (isDirty (originalValues (term w))) inputs in
  let w' := (saveSettings (c, w)).2 in
  writesOf (trace (rt w'))
  = writesOf (trace (rt w)) ++
    match changed with
    | [] => []
    | _ => map (fun i => commandBytes ("set " +:+ fst i +:+ " "
                                       +:+ sanitizeNumber (snd i))) changed
           ++ [commandBytes "save"]
    end /\
  settingsForm (term w') = Some form /\
  (changed = [] -> originalValues (term w') = originalValues (term w)) /\
  (NoDup (map fst inputs) ->
   getDirtyCount w' = 0%nat /\
   (changed <> [] ->
    forall i, i ∈ inputs ->
      mapGet (fst i) (originalValues (term w')) = Some (sanitizeNumber (snd i)))).
Proof.
  intros Hform inputs changed w'. subst w'. unfold saveSettings.
  rewrite Hform. fold inputs. fold changed.
  destruct changed as [|i0 rest] eqn:Hch.
  - cbn [length Nat.eqb snd].
    rewrite trace_appendOutput, term_appendOutput, app_nil_r.
    cbn [settingsForm originalValues]. repeat split; auto.
    + unfold getDirtyCount. rewrite term_appendOutput.
      cbn [settingsForm originalValues]. rewrite Hform. fold inputs.
      fold changed. unfold changed in Hch |- *. rewrite Hch. reflexivity.
    + congruence.
  - cbn [length Nat.eqb snd].
    change (fun (w0 : World) (input : string * string) =>
              sleep 50 (sendCommand ("set " +:+ input.1 +:+ " "
                                     +:+ sanitizeNumber input.2) w0))
      with (fun (w0 : World) input => sleep 50 (sendCommand (setCommand input) w0)).
    destruct (sendAll_spec (i0 :: rest) w) as [Ht Hw]. cbv zeta in Ht, Hw.
    set (w1 := fold_left _ (i0 :: rest) w) in *.
    unfold setOriginalValues. cbn [term withTerm rt settingsForm originalValues].
    rewrite !term_sendCommand, !term_appendOutput. cbn [settingsForm originalValues].
    rewrite Ht, Hform.
    rewrite writes_sendCommand, trace_appendOutput, Hw, <- app_assoc.
    split; [reflexivity|]. split; [reflexivity|]. split; [discriminate|].
    intros Hnd.
    assert (Hget : forall i, i ∈ inputs ->
      mapGet i.1 (fold_left (fun o input => mapSet input.1 (sanitizeNumber input.2) o)
                    inputs (originalValues (term w)))
      = Some (sanitizeNumber i.2)).
    { intros [n v] Hin. apply (fold_mapSet_get sanitizeNumber); assumption. }
    split; [|intros _; exact Hget].
    unfold getDirtyCount. cbn [term withTerm settingsForm originalValues].
    fold inputs. rewrite length_zero_iff_nil, filter_nil_iff, Forall_forall.
    intros i Hin. unfold isDirty. rewrite (Hget i Hin).
    rewrite bool_decide_eq_true_2 by reflexivity. reflexivity.
Qed.

End WithPlatform.

Lemma load_fills_form_witness :
  originalValues (term (finishCapture sampleCapture))
  = parseParams (cleanCapture (captureBuffer (term sampleCapture))).
Proof.
  refine (proj1 (@load_fills_form asciiDecoder plainInput sampleCapture []
                   eq_refl eq_refl _)).
  vm_compute. discriminate.
Defined.

Lemma save_sends_changes_witness :
  writesOf (trace (rt (@saveSettings asciiDecoder plainInput
                         (initialConsole None, sampleEdited)).2))
  = [commandBytes "set Kp_yaw 0.5"; commandBytes "save"].
Proof.
  exact (proj1 (@save_sends_changes asciiDecoder plainInput
                  (initialConsole None) sampleEdited _ eq_refl)).
Defined.

End CaptureProofs.

(** * A load from request to form *)

Module LoadProofs.
Import Text App Shell ShellInv ConsoleInv FormInv CaptureInv LoadInv.
Import ShellProofs ConsoleProofs FormProofs CaptureProofs.

Lemma prefix_app n : forall s t,
  String.prefix n s = true -> String.prefix n (s +:+ t) = true.
Proof.
  induction n as [|a n IH]; intros s t; [intros _; destruct (s +:+ t); reflexivity|].
  destruct s as [|b s]; [discriminate|].
  change (String b s +:+ t) with (String b (s +:+ t)). cbn [String.prefix].
  destruct (Ascii.ascii_dec a b); [apply IH | discriminate].
Qed.

Lemma indexOfFrom_app needle t s : forall i,
  is_Some (indexOfFrom i needle s) -> is_Some (indexOfFrom i needle (s +:+ t)).
Proof.
  induction s as [|a s IH]; intros i.
  - cbn [indexOfFrom]. destruct (String.prefix needle "") eqn:Hp.
    + intros _. apply (prefix_app _ _ t) in Hp.
      change ("" +:+ t) with t in *.
      destruct t; cbn [indexOfFrom]; rewrite Hp; eauto.
    + intros [? ?]; discriminate.
  - cbn [indexOfFrom]. destruct (String.prefix needle (String a s)) eqn:Hp.
    + intros _. apply (prefix_app _ _ t) in Hp.
      change (String a s +:+ t) with (String a (s +:+ t)) in *.
      cbn [indexOfFrom]. rewrite Hp. eauto.
    + intros Hs. change (String a s +:+ t) with (String a (s +:+ t)).
      cbn [indexOfFrom]. destruct (String.prefix needle (String a (s +:+ t)));
        [eauto | apply IH, Hs].
Qed.

Lemma includes_app needle s t :
  includes needle (s +:+ t) = false -> includes needle s = false.
Proof.
  unfold includes, indexOf. rewrite !bool_decide_eq_false.
  intros Hno Hs. apply Hno, indexOfFrom_app, Hs.
Qed.

Lemma append_assoc (s t u : string) : (s +:+ t) +:+ u = s +:+ (t +:+ u).
Proof.
  induction s as [|a s IH]; [reflexivity|].
  change (String a ((s +:+ t) +:+ u) = String a (s +:+ (t +:+ u))).
  rewrite IH. reflexivity.
Qed.

Lemma append_nil_r (s : string) : s +:+ "" = s.
Proof.
  induction s as [|a s IH]; [reflexivity|].
  change (String a (s +:+ "") = String a s). rewrite IH. reflexivity.
Qed.

Section WithPlatform.
Context {textDecoder : TextDecoder} {numberInput : NumberInput}.

Lemma withBuffer_same (w : World) : withBuffer (captureBuffer (term w)) w = w.
Proof. destruct w as [c s [] p d r]. reflexivity. Qed.

Lemma deliver_capturing chunks : forall w : World,
  capturing (term w) = true ->
  includes PROMPT (captureBuffer (term w) +:+ joinChunks chunks) = false ->
  deliver chunks w = withBuffer (captureBuffer (term w) +:+ joinChunks chunks) w.
Proof.
  induction chunks as [|chunk chunks IH]; intros w Hcap Hno.
  - cbn. rewrite append_nil_r. symmetry. apply withBuffer_same.
  - cbn [deliver fold_left joinChunks fold_right] in *.
    fold (joinChunks chunks) in *. rewrite <- append_assoc in Hno.
    pose proof (includes_app _ _ _ Hno) as Hno1.
    assert (Hstep : onCliText chunk w
                    = withBuffer (captureBuffer (term w) +:+ chunk) w).
    { unfold onCliText. rewrite Hcap. cbn [term withTerm captureBuffer].
      destruct w as [c s [] p d r]. cbn in *. rewrite Hno1. subst. reflexivity. }
    rewrite Hstep. fold (deliver chunks (withBuffer (captureBuffer (term w) +:+ chunk) w)).
    rewrite IH.
    + destruct w as [c s [] p d r]. cbn. rewrite append_assoc. reflexivity.
    + destruct w as [c s [] p d r]. exact Hcap.
    + destruct w as [c s [] p d r]. cbn in *. exact Hno.
Qed.

(** [finishCapture] ends the session and touches only the terminal and the
    deadline timer. *)
Lemma finishCapture_closes (w : World) :
  let w' := finishCapture w in
  capturing (term w') = false /\ captureTimer (term w') = None /\
  captureBuffer (term w') = captureBuffer (term w) /\
  autoLoadPending (term w') = autoLoadPending (term w) /\
  cli w' = cli w /\ serial w' = serial w /\ parser w' = parser w /\
  dispatched w' = dispatched w /\
  trace (rt w') = trace (rt w) /\ nextTimerId (rt w') = nextTimerId (rt w) /\
  timers (rt w') =
    match captureTimer (term w) with
    | Some id => List.filter (fun t => negb (Nat.eqb (timer_id t) id)) (timers (rt w))
    | None => timers (rt w)
    end.
Proof.
  destruct w as [c s [out form buf capt tmr orig alp pres sil] p d [tm nx tr]].
  unfold finishCapture.
  cbn [term captureTimer captureBuffer withTerm termOutput settingsForm capturing
       originalValues autoLoadPending preserveOriginalsOnLoad silentLoad
       cli serial parser dispatched rt].
  set (params := parseParams (cleanCapture buf)).
  destruct tmr as [id|];
    cbn [term captureTimer captureBuffer withTerm termOutput settingsForm
         capturing originalValues autoLoadPending preserveOriginalsOnLoad
         silentLoad cli serial parser dispatched rt clearTimeout withRt];
    fold params;
    destruct (0 <? length params)%nat; unfold renderForm, appendOutput;
    cbn [term captureTimer captureBuffer withTerm termOutput settingsForm
         capturing originalValues autoLoadPending preserveOriginalsOnLoad
         silentLoad cli serial parser dispatched rt];
    destruct form, sil, out; cbn; repeat split; reflexivity.
Qed.

Lemma finishCapture_output (w : World) :
  parseParams (cleanCapture (captureBuffer (term w))) <> [] ->
  termOutput (term (finishCapture w)) =
    if silentLoad (term w) then termOutput (term w)
    else (fun shown =>
            shown +:+ ("[Loaded "
              +:+ pretty (length (parseParams (cleanCapture (captureBuffer (term w)))))
              +:+ " parameters]" +:+ CRLF)) <$> termOutput (term w).
Proof.
  destruct w as [c s [out form buf capt tmr orig alp pres sil] p d [tm nx tr]].
  cbn [term captureBuffer silentLoad termOutput]. intros Hne.
  unfold finishCapture.
  cbn [term captureTimer captureBuffer withTerm termOutput settingsForm capturing
       originalValues autoLoadPending preserveOriginalsOnLoad silentLoad
       cli serial parser dispatched rt].
  set (params := parseParams (cleanCapture buf)) in *.
  assert (Hpos : (0 <? length params)%nat = true).
  { apply Nat.ltb_lt. destruct params; [congruence|]. cbn. lia. }
  destruct tmr as [id|];
    cbn [term captureTimer captureBuffer withTerm termOutput settingsForm
         capturing originalValues autoLoadPending preserveOriginalsOnLoad
         silentLoad cli serial parser dispatched rt clearTimeout withRt];
    fold params; rewrite Hpos; unfold renderForm, appendOutput;
    cbn [term captureTimer captureBuffer withTerm termOutput settingsForm
         capturing originalValues autoLoadPending preserveOriginalsOnLoad
         silentLoad cli serial parser dispatched rt];
    destruct form, sil, out; reflexivity.
Qed.

Lemma joinChunks_app pre post :
  joinChunks (pre ++ post) = joinChunks pre +:+ joinChunks post.
Proof.
  induction pre as [|c pre IH]; [reflexivity|].
  cbn [app joinChunks fold_right]. fold (joinChunks (pre ++ post)).
  fold (joinChunks pre). rewrite IH, append_assoc. reflexivity.
Qed.

Lemma joinChunks_snoc pre last : joinChunks (pre ++ [last]) = joinChunks pre +:+ last.
Proof. rewrite joinChunks_app. cbn. rewrite append_nil_r. reflexivity. Qed.

(** A capture that starts with an empty buffer ends at the chunk that
    completes the prompt. *)
Lemma deliver_reply (w : World) pre last :
  capturing (term w) = true -> captureBuffer (term w) = ""%string ->
  includes PROMPT (joinChunks pre) = false ->
  includes PROMPT (joinChunks (pre ++ [last])) = true ->
  deliver (pre ++ [last]) w
  = finishCapture (withBuffer (joinChunks (pre ++ [last])) w).
Proof.
  intros Hcap Hbuf Hno Hyes. unfold deliver. rewrite fold_left_app.
  fold (deliver pre w). cbn [fold_left].
  rewrite deliver_capturing by (rewrite ?Hbuf; assumption).
  rewrite Hbuf. change ("" +:+ joinChunks pre) with (joinChunks pre).
  rewrite joinChunks_snoc in *.
  destruct w as [c s [out form buf capt tmr orig alp pres sil] p d r].
  cbn in Hcap. subst capt. unfold onCliText, withBuffer.
  cbn [term withTerm capturing captureBuffer termOutput settingsForm
       captureTimer originalValues autoLoadPending preserveOriginalsOnLoad
       silentLoad cli serial parser dispatched rt].
  rewrite Hyes. reflexivity.
Qed.

Lemma reply_after (w1 : World) f0 pre last :
  capturing (term w1) = true -> captureBuffer (term w1) = ""%string ->
  settingsForm (term w1) = Some f0 ->
  includes PROMPT (joinChunks pre) = false ->
  includes PROMPT (joinChunks (pre ++ [last])) = true ->
  parseParams (cleanCapture (joinChunks (pre ++ [last]))) <> [] ->
  let params := parseParams (cleanCapture (joinChunks (pre ++ [last]))) in
  let w' := deliver (pre ++ [last]) w1 in
  settingsForm (term w') = Some (renderGroups params) /\
  originalValues (term w') =
    (if preserveOriginalsOnLoad (term w1) then originalValues (term w1)
     else params) /\
  preserveOriginalsOnLoad (term w') = false /\
  capturing (term w') = false /\ captureTimer (term w') = None /\
  trace (rt w') = trace (rt w1) /\
  termOutput (term w') =
    (if silentLoad (term w1) then termOutput (term w1)
     else (fun shown => shown +:+ ("[Loaded " +:+ pretty (length params)
                                   +:+ " parameters]" +:+ CRLF))
          <$> termOutput (term w1)).
Proof.
  intros Hcap Hbuf Hform Hno Hyes Hne params w'. subst w'.
  rewrite deliver_reply by assumption.
  set (w2 := withBuffer (joinChunks (pre ++ [last])) w1).
  assert (Hb2 : captureBuffer (term w2) = joinChunks (pre ++ [last]))
    by reflexivity.
  assert (Hf2 : settingsForm (term w2) = Some f0) by exact Hform.
  destruct (finishCapture_loaded w2 f0 Hf2) as (Hf & Ho & Hp & _);
    [rewrite Hb2; exact Hne|].
  destruct (finishCapture_closes w2) as (Hc & Ht & _ & _ & _ & _ & _ & _ & Htr & _).
  pose proof (finishCapture_output w2) as Hout.
  rewrite Hb2 in Hf, Ho, Hout. fold params in Hf, Ho, Hout.
  pose proof (parseParams_keys (cleanCapture (joinChunks (pre ++ [last]))))
    as Hkeys. fold params in Hkeys.
  rewrite (fold_mapSet_fresh params []) in Ho by exact Hkeys. cbn [app] in Ho.
  repeat split; try assumption. apply Hout. exact Hne.
Qed.

Lemma loadSettings_starts pres silent (w : World) :
  capturing (term w) = false ->
  let w1 := loadSettings pres silent w in
  capturing (term w1) = true /\ captureBuffer (term w1) = ""%string /\
  settingsForm (term w1) = settingsForm (term w) /\
  originalValues (term w1) = originalValues (term w) /\
  preserveOriginalsOnLoad (term w1) = pres /\ silentLoad (term w1) = silent /\
  captureTimer (term w1) = Some (nextTimerId (rt w)) /\
  timers (rt w1) = timers (rt w)
                   ++ [mkTimer (nextTimerId (rt w)) 3000 CaptureDeadline] /\
  nextTimerId (rt w1) = S (nextTimerId (rt w)) /\
  writesOf (trace (rt w1)) = writesOf (trace (rt w)) ++ [commandBytes "set"] /\
  termOutput (term w1) =
    (if silent then termOutput (term w)
     else (fun shown => shown +:+ (">" +:+ " set" +:+ CRLF)) <$> termOutput (term w)) /\
  autoLoadPending (term w1) = autoLoadPending (term w) /\
  cli w1 = cli w /\ parser w1 = parser w /\ dispatched w1 = dispatched w /\
  onReceive (serial w1) = onReceive (serial w).
Proof.
  destruct w as [c [wr orc] [out form buf capt tmr orig alp pres0 sil] p d [tm nx tr]].
  cbn [term capturing]. intros ->. unfold loadSettings.
  cbn [term capturing withTerm termOutput settingsForm captureBuffer captureTimer
       originalValues autoLoadPending preserveOriginalsOnLoad silentLoad
       cli serial parser dispatched rt].
  destruct silent, out, wr; cbn; rewrite ?writesOf_app; cbn;
    rewrite ?app_nil_r; repeat split; reflexivity.
Qed.

(** X20. While a capture runs, chunks that do not complete the prompt "# "
    are only appended to the capture buffer, however the reply is cut:
    nothing is shown in the terminal output, the form, the originals, the
    deadline timer and the port are untouched, and the capture goes on. *)
Theorem capture_keeps_collecting chunks (w : World) :
  capturing (term w) = true ->
  includes PROMPT (captureBuffer (term w) +:+ joinChunks chunks) = false ->
  let w' := deliver chunks w in
  captureBuffer (term w') = captureBuffer (term w) +:+ joinChunks chunks /\
  capturing (term w') = true /\
  termOutput (term w') = termOutput (term w) /\
  settingsForm (term w') = settingsForm (term w) /\
  originalValues (term w') = originalValues (term w) /\
  captureTimer (term w') = captureTimer (term w) /\
  rt w' = rt w /\ serial w' = serial w /\ cli w' = cli w.
Proof.
  intros Hcap Hno w'. subst w'. rewrite deliver_capturing by assumption.
  destruct w as [c s [] p d r]. cbn in *. repeat split; assumption.
Qed.




(** X23. loadSettings is registered directly as the click listener of the
    Load button, so it receives the click event as preserveOriginals, which
    counts as true: a click on Load reloads the form but keeps the
    originals, and when no originals are recorded yet every parameter of the
    reply counts as changed (the dirty count is the number of parameters). *)
Theorem load_click_keeps_originals (w : World) f0 pre last :
  capturing (term w) = false -> settingsForm (term w) = Some f0 ->
  includes PROMPT (joinChunks pre) = false ->
  includes PROMPT (joinChunks (pre ++ [last])) = true ->
  parseParams (cleanCapture (joinChunks (pre ++ [last]))) <> [] ->
  let params := parseParams (cleanCapture (joinChunks (pre ++ [last]))) in
  let w' := deliver (pre ++ [last]) (onLoadClick w) in
  originalValues (term w') = originalValues (term w) /\
  (originalValues (term w) = [] -> getDirtyCount w' = length params).
Proof.
  intros Hcap Hform Hno Hyes Hne params w'. unfold onLoadClick in w'.
  destruct (loadSettings_starts true false w Hcap)
    as (Hc1 & Hb1 & Hf1 & Ho1 & Hp1 & _).
  rewrite Hform in Hf1.
  destruct (reply_after _ f0 pre last Hc1 Hb1 Hf1 Hno Hyes Hne)
    as (Hf & Ho & _).
  fold params in Hf, Ho. fold w' in Hf, Ho. rewrite Hp1, Ho1 in Ho.
  split; [exact Ho|]. intros Hnone.
  unfold getDirtyCount. rewrite Hf, Ho, Hnone.
  pose proof (parseParams_keys (cleanCapture (joinChunks (pre ++ [last]))))
    as Hkeys. fold params in Hkeys.
  rewrite <- (Permutation_length (renderGroups_perm params Hkeys)).
  f_equal. apply forallb_filter_id, forallb_forall. intros i _. reflexivity.
Qed.

End WithPlatform.

Lemma capture_keeps_collecting_witness :
  captureBuffer (term (deliver replyHead (loadSettings false true sampleWorld)))
  = captureBuffer (term (loadSettings false true sampleWorld))
    +:+ joinChunks replyHead.
Proof.
  refine (proj1 (@capture_keeps_collecting asciiDecoder replyHead
                   (loadSettings false true sampleWorld) eq_refl _)).
  vm_compute. reflexivity.
Defined.



Lemma load_click_keeps_originals_witness :
  originalValues (term (deliver (replyHead ++ [replyTail])
                          (onLoadClick sampleWorld)))
  = originalValues (term sampleWorld).
Proof.
  refine (proj1 (@load_click_keeps_originals asciiDecoder plainInput
                   sampleWorld [] replyHead replyTail eq_refl eq_refl _ _ _)).
  - vm_compute. reflexivity.
  - vm_compute. reflexivity.
  - vm_compute. discriminate.
Defined.

End LoadProofs.

(** * The capture deadline *)

Module TimerProofs.
Import Text App Shell ShellInv ConsoleInv FormInv LoadInv TimerInv.
Import ShellProofs ConsoleProofs FormProofs CaptureProofs LoadProofs.





Lemma without_fresh id tms :
  Forall (fun t => (timer_id t < id)%nat) tms -> without id tms = tms.
Proof.
  unfold without. induction 1 as [|t tms Ht _ IH]; cbn; [reflexivity|].
  rewrite (proj2 (Nat.eqb_neq _ _)) by lia. cbn. rewrite IH. reflexivity.
Qed.

Section WithPlatform.
Context {textDecoder : TextDecoder} {numberInput : NumberInput}.
















End WithPlatform.


End TimerProofs.

(** * Routing of received chunks *)

Module RouteProofs.
Import Text App Shell ShellInv ConsoleInv FormInv LoadInv TimerInv RouteInv.
Import MspProofs ShellProofs ConsoleProofs FormProofs CaptureProofs LoadProofs.

Section WithDecoder.
Context {textDecoder : TextDecoder}.

Lemma textsOf_app tr1 tr2 : textsOf (tr1 ++ tr2) = textsOf tr1 ++ textsOf tr2.
Proof. unfold textsOf. apply omap_app. Qed.

(** The receiver touches the terminal and the timers only. *)
Lemma onCliText_frame text (w : World) :
  let w' := onCliText text w in
  cli w' = cli w /\ serial w' = serial w /\ parser w' = parser w /\
  dispatched w' = dispatched w /\ trace (rt w') = trace (rt w).
Proof.
  unfold onCliText. destruct (capturing (term w)).
  - set (w1 := withTerm _ w).
    destruct (includes PROMPT (captureBuffer (term w1))).
    + destruct (finishCapture_closes w1) as (_ & _ & _ & _ & ? & ? & ? & ? & ? & _).
      cbv zeta. repeat split; assumption.
    + cbv zeta. repeat split; reflexivity.
  - assert (Ha : forall (v : World), v = appendOutput text w ->
        cli v = cli w /\ serial v = serial w /\ parser v = parser w /\
        dispatched v = dispatched w /\ rt v = rt w).
    { intros v ->. unfold appendOutput. destruct (termOutput (term w));
        repeat split; reflexivity. }
    destruct (Ha _ eq_refl) as (? & ? & ? & ? & Hrt).
    set (w1 := appendOutput text w) in *.
    destruct (autoLoadPending (term w1) && includes PROMPT text); cbv zeta.
    + unfold setTimeout. cbn. rewrite Hrt. repeat split; assumption.
    + rewrite Hrt. repeat split; assumption.
Qed.

Lemma cliParse_in_cli data (w : World) r :
  inCliMode (cli w) = true -> onTextReceive (cli w) = Some r ->
  let w' := cliParse data w in
  inCliMode (cli w') = true /\ onTextReceive (cli w') = Some r /\
  decoder (cli w') = (decode_stream (decoder (cli w)) data).1 /\
  trace (rt w') = trace (rt w)
                  ++ [EvTextReceive (decode_stream (decoder (cli w)) data).2] /\
  serial w' = serial w /\ parser w' = parser w /\ dispatched w' = dispatched w.
Proof.
  intros Hmode Hrecv. unfold cliParse. rewrite Hmode. cbn [negb].
  destruct (decode_stream (decoder (cli w)) data) as [d text].
  cbn [cli withCli onTextReceive]. rewrite Hrecv. destruct r.
  cbn [callReceiver fst snd].
  set (w1 := logEvent _ _).
  destruct (onCliText_frame text w1) as (Hc & Hs & Hp & Hd & Htr).
  cbv zeta. rewrite Hc, Hs, Hp, Hd, Htr. clear Hc Hs Hp Hd Htr. subst w1.
  destruct w as [[m orc dec] s t p dsp [tm nx tr]]. cbn in *. subst.
  repeat split; reflexivity.
Qed.

(** X25. With the port routed to cliParse, CLI mode on and a receiver
    registered, every received chunk is handed to the receiver exactly once,
    in order, as the text one streaming TextDecoder gives for it; receiving
    never writes to the port, never leaves CLI mode, never changes the
    routing and never feeds the MSP parser. *)
Theorem cli_chunks_reach_receiver chunks : forall (w : World) r,
  onReceive (serial w) = Some RouteCli ->
  inCliMode (cli w) = true -> onTextReceive (cli w) = Some r ->
  let w' := receiveAll chunks w in
  textsOf (trace (rt w'))
  = textsOf (trace (rt w)) ++ (decodeChunks (decoder (cli w)) chunks).2 /\
  decoder (cli w') = (decodeChunks (decoder (cli w)) chunks).1 /\
  writesOf (trace (rt w')) = writesOf (trace (rt w)) /\
  inCliMode (cli w') = true /\ serial w' = serial w /\
  parser w' = parser w /\ dispatched w' = dispatched w.
Proof.
  induction chunks as [|data chunks IH]; intros w r Hroute Hmode Hrecv.
  - cbn. rewrite app_nil_r. repeat split; auto.
  - cbn [receiveAll fold_left decodeChunks].
    fold (receiveAll chunks (receive data w)).
    unfold receive at 1 2 3 4 5 6 7. rewrite Hroute.
    destruct (cliParse_in_cli data w r Hmode Hrecv)
      as (Hm1 & Hr1 & Hd1 & Htr1 & Hs1 & Hp1 & Hds1).
    cbv zeta in *. set (w1 := cliParse data w) in *.
    assert (Hroute1 : onReceive (serial w1) = Some RouteCli)
      by (rewrite Hs1; exact Hroute).
    destruct (IH w1 r Hroute1 Hm1 Hr1) as (Ht & Hd & Hw & Hm & Hs & Hp & Hds).
    rewrite Ht, Hd, Hw, Hm, Hs, Hp, Hds, Hd1, Htr1, Hs1, Hp1, Hds1.
    rewrite textsOf_app, writesOf_app.
    destruct (decode_stream (decoder (cli w)) data) as [d1 text].
    cbn [fst snd]. destruct (decodeChunks d1 chunks) as [d2 texts].
    cbn [fst snd textsOf writesOf omap list_omap app].
    rewrite <- app_assoc, app_nil_r. repeat split; reflexivity.
Qed.

(** X26. With the port routed to the MSP parser, receiving a sequence of
    chunks is the same as parsing their concatenation: the parser ends in
    the same state and the same messages are dispatched, and the CLI state,
    the terminal and the timers are untouched. *)
Theorem msp_chunks_feed_parser chunks : forall (w : World),
  onReceive (serial w) = Some RouteMsp ->
  receiveAll chunks w
  = mkWorld (cli w) (serial w) (term w)
      (Msp.parse (parser w) (concat chunks)).1
      (dispatched w ++ (Msp.parse (parser w) (concat chunks)).2) (rt w).
Proof.
  induction chunks as [|data chunks IH]; intros w Hroute.
  - cbn. rewrite app_nil_r. destruct w. reflexivity.
  - cbn [receiveAll fold_left concat].
    fold (receiveAll chunks (receive data w)).
    rewrite parse_app_fst, parse_app_snd.
    unfold receive. rewrite Hroute.
    destruct (Msp.parse (parser w) data) as [p1 out1] eqn:Hparse.
    rewrite IH by exact Hroute. cbn [cli serial term parser dispatched rt fst snd].
    rewrite app_assoc. reflexivity.
Qed.

End WithDecoder.

Lemma cli_chunks_reach_receiver_witness :
  textsOf (trace (rt (receiveAll [[0x6F; 0x6B]; [0x0D; 0x0A; 0x23; 0x20]] sampleCli)))
  = textsOf (trace (rt sampleCli))
    ++ (decodeChunks (decoder (cli sampleCli))
          [[0x6F; 0x6B]; [0x0D; 0x0A; 0x23; 0x20]]).2.
Proof.
  exact (proj1 (@cli_chunks_reach_receiver asciiDecoder
                  [[0x6F; 0x6B]; [0x0D; 0x0A; 0x23; 0x20]] sampleCli OnCliText
                  eq_refl eq_refl eq_refl)).
Defined.

Lemma msp_chunks_feed_parser_witness :
  parser (receiveAll [[0x24; 0x4D]; [0x3E; 0x00; 0x65; 0x65]] sampleWorld)
  = (Msp.parse (parser sampleWorld) [0x24; 0x4D; 0x3E; 0x00; 0x65; 0x65]).1.
Proof.
  rewrite (@msp_chunks_feed_parser asciiDecoder
             [[0x24; 0x4D]; [0x3E; 0x00; 0x65; 0x65]] sampleWorld eq_refl).
  reflexivity.
Defined.

End RouteProofs.

(** * The port list *)

Module PortsProofs.
Import Text Ports PortsInv.

Example portLabel_product :
  _portLabel (mkPortInfo (Some 0x0483) (Some 0x5740)) 0 = "STM32 VCP"%string.
Proof. reflexivity. Qed.

Example portLabel_vendor :
  _portLabel (mkPortInfo (Some 0x1A86) (Some 0x7523)) 0 = "CH340"%string.
Proof. reflexivity. Qed.

Example portLabel_unknown :
  _portLabel (mkPortInfo (Some 0xABC) None) 0 = "VID:0ABC"%string.
Proof. reflexivity. Qed.

Example portLabel_not_usb :
  _portLabel (mkPortInfo None None) 2 = "Serial port 3"%string.
Proof. reflexivity. Qed.

Example scanPorts_sample :
  map snd (scanPorts (fun info => info) (Some samplePorts))
  = ["STM32 VCP #1"; "Serial port 2"; "STM32 VCP #2"]%string.
Proof. vm_compute. reflexivity. Qed.

(** *** The two loops *)

Lemma occurrences_snoc l l' labels :
  occurrences l (labels ++ [l'])
  = (occurrences l labels + if String.eqb l' l then 1 else 0)%nat.
Proof.
  unfold occurrences. rewrite count_occ_app. cbn.
  destruct (String.string_dec l' l) as [->|Hne].
  - rewrite String.eqb_refl. reflexivity.
  - rewrite (proj2 (String.eqb_neq _ _) Hne). reflexivity.
Qed.

Lemma countLabels_fold labels : forall (acc : gmap string nat) l,
  default 0%nat
    (fold_left (fun counts l => <[l := S (default 0%nat (counts !! l))]> counts)
               labels acc !! l)
  = (default 0%nat (acc !! l) + occurrences l labels)%nat.
Proof.
  induction labels as [|l' labels IH]; intros acc l; cbn [fold_left].
  - unfold occurrences. cbn. lia.
  - rewrite IH. unfold occurrences. cbn [count_occ].
    destruct (String.string_dec l' l) as [->|Hne].
    + rewrite lookup_insert_eq. cbn. lia.
    + rewrite lookup_insert_ne by exact Hne. reflexivity.
Qed.

Lemma countLabels_spec labels l :
  default 0%nat (countLabels labels !! l) = occurrences l labels.
Proof. unfold countLabels. rewrite countLabels_fold, lookup_empty. reflexivity. Qed.

Section WithPorts.
Context {Port : Type}.

Lemma number_fold (all : list string) (counts : gmap string nat)
    (rest : list (Port * string)) :
  (forall l, default 0%nat (counts !! l) = occurrences l all) ->
  forall (done : list string) (seen : gmap string nat) out,
  all = done ++ map snd rest ->
  (forall l, (1 < occurrences l all)%nat ->
             default 0%nat (seen !! l) = occurrences l done) ->
  snd (fold_left (numberStep counts) rest (seen, out))
  = out ++ imap (fun k r => (fst r, numbered all (length done + k) (snd r))) rest.
Proof.
  intros Hcounts. induction rest as [|[p l] rest IH]; intros done seen out Hall Hseen.
  - cbn. rewrite app_nil_r. reflexivity.
  - cbn [fold_left numberStep fst snd]. rewrite imap_cons. cbn [fst snd].
    assert (Htake : take (length done + 0) all = done).
    { rewrite Nat.add_0_r, Hall, take_app_length. reflexivity. }
    assert (Hall' : all = (done ++ [l]) ++ map snd rest).
    { rewrite Hall, <- app_assoc. reflexivity. }
    assert (Himap : imap ((fun k r => (fst r, numbered all (length done + k) (snd r))) ∘ S) rest
                    = imap (fun k (r : Port * string) =>
                              (fst r, numbered all (length (done ++ [l]) + k) (snd r))) rest).
    { apply imap_ext. intros k r _. cbn. rewrite length_app. cbn.
      replace (length done + 1 + k)%nat with (length done + S k)%nat by lia.
      reflexivity. }
    rewrite Himap. unfold numbered at 1. rewrite Htake, Hcounts.
    destruct (1 <? occurrences l all)%nat eqn:Hmany.
    + apply Nat.ltb_lt in Hmany. rewrite (Hseen l Hmany).
      rewrite (IH (done ++ [l])); [rewrite <- app_assoc; reflexivity | exact Hall' |].
      intros l' Hl'. rewrite occurrences_snoc.
      destruct (String.eqb_spec l l') as [->|Hne].
      * rewrite lookup_insert_eq. cbn. lia.
      * rewrite lookup_insert_ne by exact Hne. rewrite (Hseen l' Hl'). lia.
    + rewrite (IH (done ++ [l])); [rewrite <- app_assoc; reflexivity | exact Hall' |].
      intros l' Hl'. rewrite occurrences_snoc, (Hseen l' Hl').
      destruct (String.eqb_spec l l') as [->|Hne]; [|lia].
      apply Nat.ltb_ge in Hmany. lia.
Qed.

Lemma scanPorts_eq (getInfo : Port -> PortInfo) (ports : list Port) :
  scanPorts getInfo (Some ports)
  = imap (fun i port =>
            (port, numbered (baseLabels (map getInfo ports)) i
                     (_portLabel (getInfo port) i))) ports.
Proof.
  unfold scanPorts.
  set (results := imap (fun i port => (port, _portLabel (getInfo port) i)) ports).
  assert (Hlabels : map snd results = baseLabels (map getInfo ports)).
  { unfold results, baseLabels.
    change (snd <$> imap (fun i port => (port, _portLabel (getInfo port) i)) ports
            = imap (fun i info => _portLabel info i) (getInfo <$> ports)).
    rewrite fmap_imap, imap_fmap. reflexivity. }
  rewrite (number_fold (map snd results) _ results (countLabels_spec _) [] ∅ []).
  - cbn [app length Nat.add]. rewrite Hlabels. unfold results.
    clear. generalize (baseLabels (map getInfo ports)). intros all.
    change (imap (fun k r => (fst r, numbered all k (snd r)))
              (imap (fun i port => (port, _portLabel (getInfo port) i)) ports)
            = imap (fun i port => (port, numbered all i (_portLabel (getInfo port) i)))
                ports).
    apply list_eq. intros i. rewrite !list_lookup_imap.
    destruct (ports !! i); reflexivity.
  - reflexivity.
  - intros l _. rewrite lookup_empty. reflexivity.
Qed.

Lemma scanPorts_labels (getInfo : Port -> PortInfo) (ports : list Port) :
  map snd (scanPorts getInfo (Some ports))
  = imap (numbered (baseLabels (map getInfo ports)))
         (baseLabels (map getInfo ports)).
Proof.
  rewrite scanPorts_eq. set (base := baseLabels (map getInfo ports)).
  unfold base at 3. unfold baseLabels.
  change (snd <$> imap (fun i port =>
                 (port, numbered base i (_portLabel (getInfo port) i))) ports
          = imap (numbered base) (imap (fun i info => _portLabel info i)
                                     (getInfo <$> ports))).
  rewrite fmap_imap, imap_fmap. apply list_eq. intros i.
  rewrite !list_lookup_imap. destruct (ports !! i); reflexivity.
Qed.

(** X27. scanPorts returns nothing when the browser has no navigator.serial;
    otherwise it returns the granted ports in order, each with the label
    _portLabel gives it, except that a label shared by several ports gets "
    #k" appended, k counting that label's occurrences from 1 in port order.
    A label that occurs once is shown unchanged. *)
Theorem scanPorts_numbers (getInfo : Port -> PortInfo) (ports : list Port) :
  let base := baseLabels (map getInfo ports) in
  scanPorts getInfo None = [] /\
  map fst (scanPorts getInfo (Some ports)) = ports /\
  map snd (scanPorts getInfo (Some ports)) = imap (numbered base) base /\
  (forall i l, base !! i = Some l -> occurrences l base = 1%nat ->
     map snd (scanPorts getInfo (Some ports)) !! i = Some l).
Proof.
  intros base. split; [reflexivity|].
  split; [|split; [apply scanPorts_labels|]].
  - rewrite scanPorts_eq.
    change (fst <$> imap (fun i port =>
               (port, numbered (baseLabels (map getInfo ports)) i
                        (_portLabel (getInfo port) i))) ports = ports).
    rewrite fmap_imap. apply list_eq. intros i. rewrite list_lookup_imap.
    destruct (ports !! i); reflexivity.
  - intros i l Hi Hone. rewrite scanPorts_labels. fold base.
    rewrite list_lookup_imap, Hi. cbn.
    unfold numbered. rewrite Hone. reflexivity.
Qed.

End WithPorts.

(** *** No label holds a ['#'] before numbering *)

Lemma hasHash_app a b : hasHash (a +:+ b) = hasHash a || hasHash b.
Proof.
  induction a as [|c a IH]; [reflexivity|].
  change (String c a +:+ b) with (String c (a +:+ b)). cbn [hasHash].
  rewrite IH, orb_assoc. reflexivity.
Qed.

Lemma hasHash_pretty_go x : forall s,
  hasHash s = false -> hasHash (pretty_N_go x s) = false.
Proof.
  induction (N.lt_wf_0 x) as [x _ IH]; intros s Hs.
  destruct (decide (x = 0)%N) as [->|Hx]; [rewrite pretty_N_go_0; exact Hs|].
  rewrite pretty_N_go_step by lia. apply IH; [apply N.div_lt; lia|].
  cbn [hasHash]. rewrite Hs, orb_false_r.
  unfold pretty_N_char. repeat case_match; reflexivity.
Qed.

Lemma hasHash_pretty (n : nat) : hasHash (pretty n) = false.
Proof.
  unfold pretty, pretty_nat, pretty, pretty_N.
  destruct (decide (N.of_nat n = 0%N)); [reflexivity|].
  apply hasHash_pretty_go. reflexivity.
Qed.

Lemma hexDigit_noHash d : Ascii.eqb (hexDigit d) (Ascii.ascii_of_nat 35) = false.
Proof.
  unfold hexDigit.
  destruct (nth_in_or_default (Z.to_nat d)
              (String.list_ascii_of_string "0123456789ABCDEF")
              (Ascii.ascii_of_nat 48)) as [Hin| ->]; [|reflexivity].
  revert Hin. generalize (nth (Z.to_nat d)
     (String.list_ascii_of_string "0123456789ABCDEF") (Ascii.ascii_of_nat 48)).
  intros c Hin. cbn in Hin.
  repeat (destruct Hin as [<-|Hin]; [reflexivity|]). destruct Hin.
Qed.

Lemma hasHash_hexGo fuel : forall n acc,
  hasHash acc = false -> hasHash (hexGo fuel n acc) = false.
Proof.
  induction fuel as [|fuel IH]; intros n acc Hacc; cbn [hexGo]; [exact Hacc|].
  destruct (n =? 0); [exact Hacc|]. apply IH. cbn [hasHash].
  rewrite hexDigit_noHash, Hacc. reflexivity.
Qed.

Lemma hasHash_hex n : hasHash (toStringHexUpper n) = false.
Proof.
  unfold toStringHexUpper. destruct (n =? 0); [reflexivity|].
  destruct (n <? 0).
  - rewrite hasHash_app, hasHash_hexGo; reflexivity.
  - apply hasHash_hexGo. reflexivity.
Qed.

Lemma hasHash_zeros k :
  hasHash (String.string_of_list_ascii (replicate k (Ascii.ascii_of_nat 48))) = false.
Proof. induction k as [|k IH]; [reflexivity|]. cbn. exact IH. Qed.

Lemma hasHash_padStart0 k s : hasHash s = false -> hasHash (padStart0 k s) = false.
Proof.
  intros Hs. unfold padStart0. rewrite hasHash_app, hasHash_zeros, Hs. reflexivity.
Qed.

Lemma hasHash_nameOf table key name :
  Forall (fun e => hasHash (snd e) = false) table ->
  nameOf table key = Some name -> hasHash name = false.
Proof.
  unfold nameOf. intros Hall Hfind.
  destruct (List.find _ table) as [e|] eqn:He; [|discriminate].
  cbn in Hfind. injection Hfind as <-. apply find_some in He as [Hin _].
  rewrite Forall_forall in Hall. apply Hall, list_elem_of_In, Hin.
Qed.

Lemma hasHash_portLabel info index : hasHash (_portLabel info index) = false.
Proof.
  assert (Hserial : hasHash ("Serial port " +:+ pretty (index + 1)%nat) = false).
  { rewrite hasHash_app, hasHash_pretty. reflexivity. }
  unfold _portLabel. destruct (usbVendorId info) as [vid|]; [|exact Hserial].
  destruct (vid =? 0); [exact Hserial|]. cbv zeta.
  destruct (nameOf PRODUCT_NAMES _) as [name|] eqn:Hp.
  { eapply (hasHash_nameOf PRODUCT_NAMES); [repeat constructor | exact Hp]. }
  destruct (nameOf VENDOR_NAMES vid) as [name|] eqn:Hv.
  { eapply (hasHash_nameOf VENDOR_NAMES); [repeat constructor | exact Hv]. }
  rewrite hasHash_app. cbn [hasHash Ascii.eqb]. 
  apply hasHash_padStart0, hasHash_hex.
Qed.

(** *** Numbered labels are distinct *)

Lemma split_hash l1 : forall l2 p1 p2,
  hasHash l1 = false -> hasHash l2 = false ->
  l1 +:+ " #" +:+ p1 = l2 +:+ " #" +:+ p2 -> l1 = l2 /\ p1 = p2.
Proof.
  induction l1 as [|c1 l1 IH]; intros [|c2 l2] p1 p2 H1 H2 Heq.
  - change (String (Ascii.ascii_of_nat 32) (String (Ascii.ascii_of_nat 35) p1) = String (Ascii.ascii_of_nat 32) (String (Ascii.ascii_of_nat 35) p2)) in Heq.
    injection Heq as ->. auto.
  - change (String (Ascii.ascii_of_nat 32) (String (Ascii.ascii_of_nat 35) p1)
            = String c2 (l2 +:+ String (Ascii.ascii_of_nat 32) (String (Ascii.ascii_of_nat 35) p2))) in Heq.
    injection Heq as _ Heq. destruct l2 as [|c3 l2].
    + cbn in Heq. discriminate.
    + change (String (Ascii.ascii_of_nat 35) p1 = String c3 (l2 +:+ String (Ascii.ascii_of_nat 32) (String (Ascii.ascii_of_nat 35) p2))) in Heq.
      injection Heq as <- _. cbn in H2. rewrite orb_true_r in H2. discriminate.
  - change (String c1 (l1 +:+ String (Ascii.ascii_of_nat 32) (String (Ascii.ascii_of_nat 35) p1))
            = String (Ascii.ascii_of_nat 32) (String (Ascii.ascii_of_nat 35) p2)) in Heq.
    injection Heq as _ Heq. destruct l1 as [|c3 l1].
    + cbn in Heq. discriminate.
    + change (String c3 (l1 +:+ String (Ascii.ascii_of_nat 32) (String (Ascii.ascii_of_nat 35) p1)) = String (Ascii.ascii_of_nat 35) p2) in Heq.
      injection Heq as -> _. cbn in H1. rewrite orb_true_r in H1. discriminate.
  - change (String c1 (l1 +:+ " #" +:+ p1) = String c2 (l2 +:+ " #" +:+ p2)) in Heq.
    injection Heq as -> Heq. cbn in H1, H2.
    apply orb_false_iff in H1 as [_ H1]. apply orb_false_iff in H2 as [_ H2].
    destruct (IH l2 p1 p2 H1 H2 Heq) as [-> ->]. auto.
Qed.

Lemma occurrences_take_mono l (labels : list string) i j :
  (i <= j)%nat ->
  (occurrences l (take i labels) <= occurrences l (take j labels))%nat.
Proof.
  intros Hij. rewrite <- (take_drop i (take j labels)).
  rewrite take_take, Nat.min_l by exact Hij.
  unfold occurrences. rewrite count_occ_app. lia.
Qed.

Lemma occurrences_take_S l (labels : list string) i :
  labels !! i = Some l ->
  occurrences l (take (S i) labels) = S (occurrences l (take i labels)).
Proof.
  intros Hi. rewrite (take_S_r _ _ _ Hi), occurrences_snoc, String.eqb_refl. lia.
Qed.

Lemma occurrences_take_all l (labels : list string) i :
  (occurrences l (take i labels) <= occurrences l labels)%nat.
Proof.
  rewrite <- (take_drop i labels) at 2. unfold occurrences.
  rewrite count_occ_app. lia.
Qed.

Lemma numbered_lt (base : list string) i j li lj :
  Forall (fun l => hasHash l = false) base ->
  (i < j)%nat -> base !! i = Some li -> base !! j = Some lj ->
  numbered base i li <> numbered base j lj.
Proof.
  intros Hbase Hij Hi Hj Heq.
  assert (Hli : hasHash li = false).
  { rewrite Forall_forall in Hbase. eapply Hbase, list_elem_of_lookup_2, Hi. }
  assert (Hlj : hasHash lj = false).
  { rewrite Forall_forall in Hbase. eapply Hbase, list_elem_of_lookup_2, Hj. }
  assert (Hnum : forall l p, hasHash (l +:+ " #" +:+ p) = true).
  { intros l p. rewrite hasHash_app. cbn. apply orb_true_r. }
  assert (Hstep : li = lj ->
            (occurrences li (take i base) < occurrences li (take j base))%nat /\
            (2 <= occurrences li base)%nat).
  { intros <-.
    pose proof (occurrences_take_S li base i Hi) as HSi.
    pose proof (occurrences_take_S li base j Hj) as HSj.
    pose proof (occurrences_take_mono li base (S i) j ltac:(lia)).
    pose proof (occurrences_take_all li base (S j)). lia. }
  unfold numbered in Heq.
  destruct (1 <? occurrences li base)%nat eqn:Hmi,
           (1 <? occurrences lj base)%nat eqn:Hmj.
  - apply split_hash in Heq as [Hl Hp]; [|assumption..].
    apply (inj pretty) in Hp. destruct (Hstep Hl) as [Hlt _].
    subst lj. lia.
  - rewrite <- Heq, Hnum in Hlj. discriminate.
  - rewrite Heq, Hnum in Hli. discriminate.
  - destruct (Hstep Heq) as [_ Htwo]. apply Nat.ltb_ge in Hmi. lia.
Qed.

(** X28. No two entries of the list scanPorts returns have the same label,
    whatever the ports report as vendor and product ids: labels from
    _portLabel never contain "#", so a numbered label cannot collide with
    another label. *)
Theorem scanPorts_labels_distinct {Port : Type} (getInfo : Port -> PortInfo)
    (granted : option (list Port)) :
  NoDup (map snd (scanPorts getInfo granted)).
Proof.
  destruct granted as [ports|]; [|constructor].
  rewrite scanPorts_labels. set (base := baseLabels (map getInfo ports)).
  assert (Hbase : Forall (fun l => hasHash l = false) base).
  { apply Forall_forall. intros l Hl. unfold base, baseLabels in Hl.
    apply elem_of_lookup_imap_1 in Hl as (i & info & -> & _).
    apply hasHash_portLabel. }
  apply NoDup_alt. intros i j x Hi Hj.
  apply list_lookup_imap_Some in Hi as (li & Hi & ->).
  apply list_lookup_imap_Some in Hj as (lj & Hj & Heq).
  destruct (Nat.lt_total i j) as [Hlt|[->|Hlt]]; [|reflexivity|].
  - destruct (numbered_lt base i j li lj Hbase Hlt Hi Hj Heq).
  - destruct (numbered_lt base j i lj li Hbase Hlt Hj Hi (eq_sym Heq)).
Qed.

End PortsProofs.

